(** * janus-monitor: the procedural background generator and the stub writer

    A shallow embedding of [src/assets/generate_solarpunk_bg.py] and of
    [src/write_pivx_module.py].

    The generator is a straight-line Python script that talks to three
    libraries: [random] (a seeded global generator), [math] and [cairo]
    (two image surfaces with one drawing context each), and that shells
    out once to ImageMagick.  Its control flow never inspects what a
    cairo call returns, so the script is embedded as a computation over
    the generator state that records, in order, the calls it makes (the
    trace).  A second layer executes a trace on a world made of the
    surfaces, their drawing contexts and the file system.

    Numbers: Python's [float] is embedded as [Q] (exact rationals, no
    rounding); Python's [int] is [Z] where the script uses integers.
    The module-level constants [W], [H] and the seed are parameters; the
    script's own values are those of [main].  A [while] loop takes fuel,
    and the theorems on whole runs give the fuel that suffices.  Python's
    local [by] is spelt [by_]. *)

From Stdlib Require Import QArith Qround ZArith List String Ascii Lia Lqa Bool.
From Stdlib Require Import DecimalString.
From stdpp Require Import gmap strings.
Import ListNotations.

Open Scope Q_scope.

(** ** Numbers *)

Definition Qltb (x y : Q) : bool := negb (Qle_bool y x).
Infix "<?" := Qltb : Q_scope.

(** Python's [int(x)] on a float: truncation toward zero. *)
Definition int (x : Q) : Z :=
  if Qle_bool 0 x then Qfloor x else Qceiling x.

(** Python's [range(start, stop, step)] for a positive step. *)
Definition range3 (start stop step : Z) : list Z :=
  map (fun k : nat => (start + Z.of_nat k * step)%Z)
      (seq 0 (Z.to_nat ((stop - start + step - 1) / step))).

(** Python's [range(n)]. *)
Definition range (n : Z) : list Z := range3 0 n 1.

Coercion inject_Z : Z >-> Q.

(** ** The [random] and [math] modules

    The script only uses [random.seed], [random.random], [random.uniform]
    and [random.choice].  CPython implements [uniform(a, b)] as
    [a + (b - a) * random()] and [choice(seq)] as
    [seq[_randbelow(len(seq))]]; the generator itself (Mersenne Twister) is
    kept abstract behind its contract. *)

Class RandomSource (G : Type) : Type := {
  seed : Z -> G;
  random : G -> Q * G;
  randbelow : nat -> G -> nat * G;
  random_range : forall g, 0 <= fst (random g) /\ fst (random g) < 1;
  randbelow_range : forall n g, (0 < n)%nat -> (fst (randbelow n g) < n)%nat
}.

Class MathLib : Type := {
  pi : Q;
  sin : Q -> Q;
  cos : Q -> Q
}.

(** ** Cairo values *)

Inductive SurfaceId : Type :=
| Main          (* [surface] / [ctx] *)
| City          (* [city_surface] / [cctx] *)
| BlurredCity.  (* [blurred_city] *)

Record ColorStop : Type := mkStop {
  stop_offset : Q; stop_r : Q; stop_g : Q; stop_b : Q; stop_a : Q
}.

Inductive Pattern : Type :=
| Solid (r g b a : Q)
| LinearGradient (x0 y0 x1 y1 : Q) (stops : list ColorStop)
| RadialGradient (cx0 cy0 radius0 cx1 cy1 radius1 : Q) (stops : list ColorStop).

(** [pattern.add_color_stop_rgba(offset, r, g, b, a)]: stops are kept in
    the order they are added; a solid pattern takes none. *)
Definition add_color_stop_rgba (p : Pattern) (o r g b a : Q) : Pattern :=
  match p with
  | LinearGradient x0 y0 x1 y1 st =>
      LinearGradient x0 y0 x1 y1 (st ++ [mkStop o r g b a])
  | RadialGradient a0 b0 r0 a1 b1 r1 st =>
      RadialGradient a0 b0 r0 a1 b1 r1 (st ++ [mkStop o r g b a])
  | _ => p
  end.

Inductive LineCap : Type := LINE_CAP_BUTT | LINE_CAP_ROUND | LINE_CAP_SQUARE.

(** One constructor per [cairo.Context] method the script calls. *)
Inductive Op : Type :=
| SetSource (p : Pattern)
| SetSourceRgba (r g b a : Q)
| SetSourceSurface (s : SurfaceId) (x y : Q)
| Paint
| PaintWithAlpha (a : Q)
| Save
| Restore
| Translate (tx ty : Q)
| Rotate (angle : Q)
| MoveTo (x y : Q)
| LineTo (x y : Q)
| CurveTo (x1 y1 x2 y2 x3 y3 : Q)
| ClosePath
| Rectangle (x y w h : Q)
| Arc (xc yc radius angle1 angle2 : Q)
| Fill
| FillPreserve
| Stroke
| SetLineWidth (w : Q)
| SetLineCap (c : LineCap).

(** The library calls of the script, in program order: calls to [random]
    with the value they returned, calls on a drawing context, and the
    calls that touch files and processes. *)
Inductive Event : Type :=
| RandomSeed (s : Z)
| RandomRandom (result : Q)
| RandomUniform (a b result : Q)
| RandomChoice (len index : nat)
| CreateSurface (s : SurfaceId) (w h : Z)
| Draw (s : SurfaceId) (op : Op)
| WriteToPng (s : SurfaceId) (path : string)
| SubprocessRun (argv : list string)
| CreateFromPng (s : SurfaceId) (path : string)
| PrintLine (msg : string).

Definition Trace : Type := list Event.

(** ** The monad of the script

    A computation threads the state of the global generator of [random]
    and appends to the trace.
    It stops with [OutOfFuel] when a [while] loop of the model exhausts its
    fuel and with [IndexError] where Python would raise it. *)

Inductive Exn : Type := OutOfFuel | IndexError.

Inductive Result (G A : Type) : Type :=
| Raised (e : Exn)
| Returned (a : A) (g : G) (tr : Trace).
Arguments Raised {G A} e.
Arguments Returned {G A} a g tr.

Definition M (G A : Type) : Type := G -> Result G A.

Definition ret {G A} (a : A) : M G A := fun g => Returned a g [].

Definition bind {G A B} (m : M G A) (k : A -> M G B) : M G B :=
  fun g =>
    match m g with
    | Raised e => Raised e
    | Returned a g1 t1 =>
        match k a g1 with
        | Raised e => Raised e
        | Returned b g2 t2 => Returned b g2 (t1 ++ t2)
        end
    end.

Definition raise {G A} (e : Exn) : M G A := fun _ => Raised e.

Definition emit {G} (e : Event) : M G unit := fun g => Returned tt g [e].

Declare Scope script_scope.
Delimit Scope script_scope with script.
Notation "x <- m ;; k" := (bind m (fun x => k))
  (at level 100, m at next level, right associativity) : script_scope.
Notation "m ;; k" := (bind m (fun _ => k))
  (at level 100, right associativity) : script_scope.
Open Scope script_scope.

(** The trace and the value of a result; a run that raised has left no
    trace in the model. *)
Definition trace_of {G A} (r : Result G A) : Trace :=
  match r with
  | Raised _ => []
  | Returned _ _ tr => tr
  end.

Definition value_of {G A} (r : Result G A) (default : A) : A :=
  match r with
  | Raised _ => default
  | Returned a _ _ => a
  end.

(** [for x in l: body x] *)
Fixpoint for_each {G A} (l : list A) (body : A -> M G unit) : M G unit :=
  match l with
  | [] => ret tt
  | x :: rest => body x ;; for_each rest body
  end.

(** [while cond(s): s = body(s)], with fuel. *)
Fixpoint while {G St} (fuel : nat) (cond : St -> bool) (body : St -> M G St)
    (s : St) : M G St :=
  match fuel with
  | O => raise OutOfFuel
  | S fuel' =>
      if cond s then s' <- body s ;; while fuel' cond body s' else ret s
  end.

(** [seq[i]] *)
Definition item {G A} (l : list A) (i : nat) : M G A :=
  match nth_error l i with
  | Some x => ret x
  | None => raise IndexError
  end.

(** ** The script *)

Section Script.

Context {G : Type} {RS : RandomSource G} {ML : MathLib}.

Abbreviation M := (M G).

(** [random.seed(s)]: the state of the global generator is replaced. *)
Definition random_seed (s : Z) : M unit :=
  fun _ => Returned tt (seed s) [RandomSeed s].

(** [random.random()] *)
Definition random_random : M Q :=
  fun g => let (r, g') := random g in Returned r g' [RandomRandom r].

(** [random.uniform(a, b)] *)
Definition random_uniform (a b : Q) : M Q :=
  fun g =>
    let (r, g') := random g in
    let u := a + (b - a) * r in
    Returned u g' [RandomUniform a b u].

(** [random.choice(seq)] *)
Definition random_choice {A} (l : list A) : M A :=
  match l with
  | [] => raise IndexError
  | d :: _ =>
      fun g =>
        let (i, g') := randbelow (length l) g in
        Returned (nth i l d) g' [RandomChoice (length l) i]
  end.

(** A method call on the drawing context of a surface. *)
Definition call (c : SurfaceId) (op : Op) : M unit := emit (Draw c op).

Definition ctx : SurfaceId := Main.
Definition cctx : SurfaceId := City.

Variables W H : Z.
Variable fuel : nat.

Definition rgb (r g b : Z) (a : Q) : M unit :=
  call ctx (SetSourceRgba (r / 255) (g / 255) (b / 255) a).

(** *** 1. Sky gradient *)

Definition sky_gradient : M unit :=
  let grad := LinearGradient 0 0 0 H [] in
  let grad := add_color_stop_rgba grad 0.0 0.97 0.96 0.88 1 in
  let grad := add_color_stop_rgba grad 0.12 0.96 0.95 0.86 1 in
  let grad := add_color_stop_rgba grad 0.30 0.93 0.95 0.85 1 in
  let grad := add_color_stop_rgba grad 0.50 0.88 0.93 0.82 1 in
  let grad := add_color_stop_rgba grad 0.70 0.82 0.90 0.76 1 in
  let grad := add_color_stop_rgba grad 1.0 0.72 0.84 0.65 1 in
  call ctx (SetSource grad) ;;
  call ctx Paint.

(** *** 2. Sun *)

Definition sun_x : Q := W * 0.82.
Definition sun_y : Q := H * 0.08.

Definition sun_glow : M unit :=
  for_each (range 8) (fun i =>
    let r : Q := inject_Z (500 - i * 30) in
    let alpha := 0.03 + i * 0.008 in
    let rad := RadialGradient sun_x sun_y 0 sun_x sun_y r [] in
    let rad := add_color_stop_rgba rad 0 1.0 0.92 0.5 (alpha * 2.5) in
    let rad := add_color_stop_rgba rad 0.4 1.0 0.88 0.4 (alpha * 1.5) in
    let rad := add_color_stop_rgba rad 1.0 1.0 0.85 0.3 0 in
    call ctx (SetSource rad) ;;
    call ctx Paint).

Definition sun_ray (i : Z) : M unit :=
  let angle := i * (2 * pi / 24) + 0.13 in
  u <- random_uniform (-80) 120 ;;
  let length := 350 + u in
  call ctx Save ;;
  call ctx (Translate sun_x sun_y) ;;
  call ctx (Rotate angle) ;;
  call ctx (MoveTo 40 0) ;;
  call ctx (LineTo length 0) ;;
  rgb 218 180 40 (if (i mod 3 =? 0)%Z then 0.14 else 0.08) ;;
  call ctx (SetLineWidth (if (i mod 3 =? 0)%Z then 1.5 else 0.6)) ;;
  call ctx Stroke ;;
  call ctx Restore.

Definition sun_rays : M unit := for_each (range 24) sun_ray.

Definition sun_core : M unit :=
  let core := RadialGradient (sun_x - 8) (sun_y - 8) 0 sun_x sun_y 55 [] in
  let core := add_color_stop_rgba core 0.0 1.0 0.98 0.88 0.9 in
  let core := add_color_stop_rgba core 0.3 1.0 0.92 0.55 0.7 in
  let core := add_color_stop_rgba core 0.6 0.92 0.78 0.25 0.5 in
  let core := add_color_stop_rgba core 0.85 0.48 0.78 0.30 0.3 in
  let core := add_color_stop_rgba core 1.0 0.24 0.54 0.16 0.15 in
  call ctx (SetSource core) ;;
  call ctx (Arc sun_x sun_y 55 0 (2 * pi)) ;;
  call ctx Fill ;;
  call ctx (SetLineWidth 1.2) ;;
  rgb 255 248 200 0.4 ;;
  call ctx (Arc sun_x sun_y 56 0 (2 * pi)) ;;
  call ctx Stroke.

Definition sun : M unit := sun_glow ;; sun_rays ;; sun_core.

(** *** 3. City silhouette *)

Definition horizon_y : Q := H * 0.50.

Inductive BType : Type := tower | dome | spire | block | antenna | megablock.

Definition BType_eqb (a b : BType) : bool :=
  match a, b with
  | tower, tower | dome, dome | spire, spire
  | block, block | antenna, antenna | megablock, megablock => true
  | _, _ => false
  end.

(** A building is the tuple [(x, bw, bh, btype)]. *)
Definition Building : Type := Q * Q * Q * BType.

Definition building_step (st : list Building * Q) : M (list Building * Q) :=
  let '(buildings, x) := st in
  btype <- random_choice
    [tower; tower; tower; dome; spire; block; antenna; megablock] ;;
  bw <- (if negb (BType_eqb btype megablock)
         then random_uniform 18 55 else random_uniform 60 110) ;;
  bh <- match btype with
        | tower => random_uniform 80 240
        | dome => random_uniform 50 120
        | spire => random_uniform 150 320
        | antenna => random_uniform 180 350
        | megablock => random_uniform 60 160
        | block => random_uniform 40 100
        end ;;
  f <- random_uniform 0.5 1.1 ;;
  ret (buildings ++ [(x, bw, bh, btype)], x + bw * f).

Definition generate_buildings : M (list Building) :=
  st <- while fuel (fun st : list Building * Q => snd st <? inject_Z (W + 20))
          building_step ([], -20) ;;
  ret (fst st).

(** The six variants of [draw_city_silhouette], one per branch of its
    [if btype == ...] chain.  [bx2], [by_] (Python's [by]) and [a] are the locals of the
    loop body; [cr], [cg], [cb] the city colour. *)

Definition cr : Q := 0.18.
Definition cg : Q := 0.20.
Definition cb : Q := 0.28.

Section Silhouette.

Variable target_ctx : SurfaceId.
Variable alpha_mult : Q.

Definition draw_tower (bx2 by_ a bw bh : Q) : M unit :=
  taper <- random_uniform 0.85 0.98 ;;
  call target_ctx (MoveTo bx2 by_) ;;
  call target_ctx (LineTo bx2 (by_ - bh)) ;;
  call target_ctx (LineTo (bx2 + bw * taper) (by_ - bh)) ;;
  call target_ctx (LineTo (bx2 + bw) by_) ;;
  call target_ctx ClosePath ;;
  call target_ctx (SetSourceRgba cr cg cb a) ;;
  call target_ctx Fill ;;
  roof <- random_random ;;
  (if 0.5 <? roof then
     call target_ctx (MoveTo (bx2 + bw * 0.45) (by_ - bh)) ;;
     call target_ctx (LineTo (bx2 + bw * 0.48) (by_ - bh - 20)) ;;
     call target_ctx (LineTo (bx2 + bw * 0.52) (by_ - bh - 20)) ;;
     call target_ctx (LineTo (bx2 + bw * 0.55) (by_ - bh)) ;;
     call target_ctx ClosePath ;;
     call target_ctx (SetSourceRgba cr cg cb (a * 0.9)) ;;
     call target_ctx Fill
   else ret tt) ;;
  for_each (range3 (int (by_ - bh + 15)) (int (by_ - 10)) 14) (fun wy =>
    for_each (range3 (int (bx2 + 4)) (int (bx2 + bw - 4)) 8) (fun wx =>
      lit <- random_random ;;
      if 0.4 <? lit then
        wr <- random_choice
          [(0.85, 0.75, 0.35); (0.50, 0.70, 0.90);
           (0.75, 0.50, 0.85); (0.30, 0.80, 0.60)] ;;
        let '(wr0, wr1, wr2) := wr in
        call target_ctx (SetSourceRgba wr0 wr1 wr2 (0.06 * alpha_mult)) ;;
        call target_ctx (Rectangle wx wy 3 5) ;;
        call target_ctx Fill
      else ret tt)).

(** (The source also computes a local [cx_d = bx2 + bw / 2] here and never
    uses it.) *)
Definition draw_dome (bx2 by_ a bw bh : Q) : M unit :=
  call target_ctx (MoveTo bx2 by_) ;;
  call target_ctx (LineTo bx2 (by_ - bh * 0.5)) ;;
  call target_ctx
    (CurveTo bx2 (by_ - bh) (bx2 + bw) (by_ - bh) (bx2 + bw) (by_ - bh * 0.5)) ;;
  call target_ctx (LineTo (bx2 + bw) by_) ;;
  call target_ctx ClosePath ;;
  call target_ctx (SetSourceRgba cr cg cb a) ;;
  call target_ctx Fill ;;
  for_each (range 3) (fun ri =>
    let rx := bx2 + bw * (0.25 + ri * 0.25) in
    call target_ctx (MoveTo rx by_) ;;
    let rib_h := bh * (if (ri =? 1)%Z then 0.85 else 0.7) in
    call target_ctx (LineTo rx (by_ - rib_h)) ;;
    call target_ctx
      (SetSourceRgba (cr * 0.7) (cg * 0.7) (cb * 0.7) (0.08 * alpha_mult)) ;;
    call target_ctx (SetLineWidth 0.8) ;;
    call target_ctx Stroke).

Definition draw_spire (bx2 by_ a bw bh : Q) : M unit :=
  call target_ctx (MoveTo bx2 by_) ;;
  call target_ctx (LineTo (bx2 + bw * 0.15) (by_ - bh * 0.6)) ;;
  call target_ctx (LineTo (bx2 + bw * 0.35) (by_ - bh * 0.65)) ;;
  call target_ctx (LineTo (bx2 + bw * 0.5) (by_ - bh)) ;;
  call target_ctx (LineTo (bx2 + bw * 0.65) (by_ - bh * 0.65)) ;;
  call target_ctx (LineTo (bx2 + bw * 0.85) (by_ - bh * 0.6)) ;;
  call target_ctx (LineTo (bx2 + bw) by_) ;;
  call target_ctx ClosePath ;;
  call target_ctx (SetSourceRgba cr cg cb a) ;;
  call target_ctx Fill ;;
  call target_ctx (Arc (bx2 + bw * 0.5) (by_ - bh) 2 0 (2 * pi)) ;;
  call target_ctx (SetSourceRgba 0.80 0.40 0.40 (0.12 * alpha_mult)) ;;
  call target_ctx Fill.

Definition draw_antenna (bx2 by_ a bw bh : Q) : M unit :=
  let mid := bx2 + bw * 0.5 in
  call target_ctx (MoveTo (mid - 3) by_) ;;
  call target_ctx (LineTo (mid - 1.5) (by_ - bh)) ;;
  call target_ctx (LineTo (mid + 1.5) (by_ - bh)) ;;
  call target_ctx (LineTo (mid + 3) by_) ;;
  call target_ctx ClosePath ;;
  call target_ctx (SetSourceRgba cr cg cb (a * 0.8)) ;;
  call target_ctx Fill ;;
  for_each (range3 (int (by_ - bh + 30)) (int (by_ - 10)) 35) (fun cb_y =>
    call target_ctx (MoveTo (mid - 3) cb_y) ;;
    call target_ctx (LineTo (mid + 3) cb_y) ;;
    call target_ctx (SetSourceRgba cr cg cb (0.12 * alpha_mult)) ;;
    call target_ctx (SetLineWidth 0.6) ;;
    call target_ctx Stroke) ;;
  dish <- random_uniform 0.55 0.75 ;;
  let dish_y := by_ - bh * dish in
  call target_ctx (Arc (mid + 8) dish_y 8 (pi * 0.3) (pi * 1.3)) ;;
  call target_ctx (SetSourceRgba cr cg cb (0.15 * alpha_mult)) ;;
  call target_ctx (SetLineWidth 1.5) ;;
  call target_ctx Stroke ;;
  call target_ctx (Arc mid (by_ - bh) 2.5 0 (2 * pi)) ;;
  call target_ctx (SetSourceRgba 0.9 0.3 0.3 (0.15 * alpha_mult)) ;;
  call target_ctx Fill.

Definition draw_megablock (bx2 by_ a bw bh : Q) : M unit :=
  call target_ctx (Rectangle bx2 (by_ - bh) bw bh) ;;
  call target_ctx (SetSourceRgba cr cg cb (a * 0.9)) ;;
  call target_ctx Fill ;;
  for_each (range 3) (fun ti =>
    let terrace_h := bh * (0.3 + ti * 0.2) in
    let setback := bw * 0.08 * inject_Z (ti + 1) in
    call target_ctx (MoveTo (bx2 + setback) (by_ - terrace_h)) ;;
    call target_ctx (LineTo (bx2 + bw - setback) (by_ - terrace_h)) ;;
    call target_ctx
      (SetSourceRgba (cr * 0.8) (cg * 0.8) (cb * 0.8) (0.06 * alpha_mult)) ;;
    call target_ctx (SetLineWidth 1) ;;
    call target_ctx Stroke) ;;
  for_each (range3 (int (by_ - bh + 10)) (int (by_ - 5)) 12) (fun wy =>
    for_each (range3 (int (bx2 + 5)) (int (bx2 + bw - 5)) 10) (fun wx =>
      lit <- random_random ;;
      if 0.35 <? lit then
        wr <- random_choice
          [(0.85, 0.78, 0.40); (0.45, 0.65, 0.90); (0.70, 0.45, 0.80)] ;;
        let '(wr0, wr1, wr2) := wr in
        call target_ctx (SetSourceRgba wr0 wr1 wr2 (0.04 * alpha_mult)) ;;
        call target_ctx (Rectangle wx wy 4 6) ;;
        call target_ctx Fill
      else ret tt)).

Definition draw_block (bx2 by_ a bw bh : Q) : M unit :=
  call target_ctx (Rectangle bx2 (by_ - bh) bw bh) ;;
  call target_ctx (SetSourceRgba cr cg cb (a * 0.85)) ;;
  call target_ctx Fill.

Definition draw_building (offset_x offset_y : Q) (b : Building) : M unit :=
  let '(bx, bw, bh, btype) := b in
  let bx2 := bx + offset_x in
  let by_ := horizon_y + offset_y in
  let a := 0.22 * alpha_mult in
  match btype with
  | tower => draw_tower bx2 by_ a bw bh
  | dome => draw_dome bx2 by_ a bw bh
  | spire => draw_spire bx2 by_ a bw bh
  | antenna => draw_antenna bx2 by_ a bw bh
  | megablock => draw_megablock bx2 by_ a bw bh
  | block => draw_block bx2 by_ a bw bh
  end.

(** [draw_city_silhouette(target_ctx, alpha_mult, offset_x, offset_y)],
    reading the global [buildings]. *)
Definition draw_city_silhouette (buildings : list Building)
    (offset_x offset_y : Q) : M unit :=
  for_each buildings (draw_building offset_x offset_y).

End Silhouette.

Definition city_layer_png : string :=
  "/home/user/janus-monitor/src/assets/_city_layer.png".
Definition base_layer_png : string :=
  "/home/user/janus-monitor/src/assets/_base_layer.png".
Definition city_blurred_png : string :=
  "/home/user/janus-monitor/src/assets/_city_blurred.png".
Definition solarpunk_bg_png : string :=
  "/home/user/janus-monitor/src/assets/solarpunk_bg.png".

(** The argument list of [subprocess.run([...], check=True)]. *)
Definition convert_argv : list string :=
  ["convert"; city_layer_png; "-blur"; "0x8"; city_blurred_png]%string.

Definition blur_city : M unit :=
  emit (WriteToPng City city_layer_png) ;;
  emit (WriteToPng Main base_layer_png) ;;
  emit (SubprocessRun convert_argv) ;;
  emit (CreateFromPng BlurredCity city_blurred_png).

Definition composite_city : M unit :=
  call ctx (SetSourceSurface BlurredCity 0 0) ;;
  call ctx (PaintWithAlpha 0.85).

Definition haze_overlay : M unit :=
  let haze := LinearGradient 0 (horizon_y - 350) 0 (horizon_y + 40) [] in
  let haze := add_color_stop_rgba haze 0 0.92 0.94 0.86 0.5 in
  let haze := add_color_stop_rgba haze 0.4 0.90 0.93 0.84 0.35 in
  let haze := add_color_stop_rgba haze 0.7 0.88 0.92 0.82 0.2 in
  let haze := add_color_stop_rgba haze 1.0 0.85 0.91 0.80 0 in
  call ctx (SetSource haze) ;;
  call ctx (Rectangle 0 (horizon_y - 350) W 400) ;;
  call ctx Fill.

(** *** 4. Rolling hills *)

Definition hills : list (Q * Q * (Q * Q * Q)) :=
  [ (H * 0.58, 0.14, (0.58, 0.74, 0.48));
    (H * 0.64, 0.18, (0.48, 0.68, 0.40));
    (H * 0.70, 0.24, (0.38, 0.60, 0.32));
    (H * 0.78, 0.30, (0.30, 0.52, 0.26)) ].

(** The body of [while x < W + 50] for the hill anchored at [base_y]. *)
Definition hill_step (base_y : Q) (x : Z) : M Z :=
  u <- random_uniform 0 1 ;;
  let cy := base_y + sin (x * 0.003 + u) * 35 + sin (x * 0.008) * 18 in
  call ctx (LineTo x cy) ;;
  ret (x + 3)%Z.

Definition draw_hill (h : Q * Q * (Q * Q * Q)) : M unit :=
  let '(base_y, alpha, (hr, hg, hb)) := h in
  call ctx (MoveTo 0 (base_y + 40)) ;;
  while fuel (fun x : Z => (x <? W + 50)%Z) (hill_step base_y) 0%Z ;;
  call ctx (LineTo W H) ;;
  call ctx (LineTo 0 H) ;;
  call ctx ClosePath ;;
  call ctx (SetSourceRgba hr hg hb alpha) ;;
  call ctx Fill.

Definition rolling_hills : M unit := for_each hills draw_hill.

(** *** 5. Botanical borders *)

Inductive Side : Type := left | right.

(** [side == 'left'] and [side == 'right'] *)
Definition is_left (side : Side) : bool :=
  match side with left => true | right => false end.
Definition is_right (side : Side) : bool :=
  match side with left => false | right => true end.

(** The body of [while y < y_end] in [draw_vine]. *)
Definition vine_step (x_base : Q) (side : Side) (st : list (Q * Q) * Q)
    : M (list (Q * Q) * Q) :=
  let '(points, y) := st in
  let offset := sin (y * 0.008) * 25 + sin (y * 0.02) * 12 in
  let offset := if is_right side then - offset else offset in
  ret (points ++ [(x_base + offset, y)], y + 3).

Definition vine_points (x_base y_start y_end : Q) (side : Side)
    : M (list (Q * Q)) :=
  st <- while fuel (fun st : list (Q * Q) * Q => snd st <? y_end)
          (vine_step x_base side) ([], y_start) ;;
  ret (fst st).

Definition len {A} (l : list A) : Z := Z.of_nat (length l).

(** [points[i]] for a non-negative [i]. *)
Definition point_at (points : list (Q * Q)) (i : Z) : M (Q * Q) :=
  item points (Z.to_nat i).

Definition vine_stem (points : list (Q * Q)) (thickness : Q) : M unit :=
  call ctx (SetLineWidth thickness) ;;
  call ctx (SetLineCap LINE_CAP_ROUND) ;;
  rgb 42 100 35 0.55 ;;
  p0 <- point_at points 0 ;;
  call ctx (MoveTo (fst p0) (snd p0)) ;;
  for_each (range3 1 (len points - 1) 2) (fun i =>
    if (i + 1 <? len points)%Z then
      p <- point_at points i ;;
      q <- point_at points (i + 1) ;;
      call ctx (CurveTo (fst p) (snd p) (fst p) (snd p) (fst q) (snd q))
    else ret tt) ;;
  call ctx Stroke.

Definition vine_tendrils (points : list (Q * Q)) (side : Side)
    (thickness : Q) : M unit :=
  call ctx (SetLineWidth (thickness * 0.5)) ;;
  rgb 58 120 42 0.35 ;;
  for_each (range3 0 (len points - 4) 3) (fun i =>
    let ox : Q := if is_left side then 8 else -8 in
    let dir : Q := if is_left side then 1 else -1 in
    p <- point_at points i ;;
    call ctx (MoveTo (fst p + ox) (snd p)) ;;
    let j := Z.min (i + 4) (len points - 1) in
    q <- point_at points j ;;
    call ctx (CurveTo
      (fst p + ox + 15 * dir) (snd p + 20)
      (fst q + ox + 10 * dir) (snd q - 15)
      (fst q + ox) (snd q)) ;;
    call ctx Stroke).

Definition vine_leaves (points : list (Q * Q)) (side : Side) : M unit :=
  for_each (range3 0 (len points - 1) 18) (fun i =>
    p <- point_at points i ;;
    let '(px, py) := p in
    let leaf_angle := sin (i * 0.1) * 0.5 + (if is_left side then 0.3 else 2.8) in
    u <- random_uniform (-3) 6 ;;
    let leaf_size := 14 + u in
    call ctx Save ;;
    call ctx (Translate px py) ;;
    call ctx (Rotate leaf_angle) ;;
    call ctx (MoveTo 0 0) ;;
    call ctx (CurveTo (leaf_size * 0.4) (- leaf_size * 0.35)
                      (leaf_size * 0.8) (- leaf_size * 0.15) leaf_size 0) ;;
    call ctx (CurveTo (leaf_size * 0.8) (leaf_size * 0.15)
                      (leaf_size * 0.4) (leaf_size * 0.35) 0 0) ;;
    gv <- random_uniform 0.85 1.15 ;;
    call ctx (SetSourceRgba (0.22 * gv) (0.50 * gv) (0.18 * gv) 0.35) ;;
    call ctx Fill ;;
    call ctx (MoveTo 0 0) ;;
    call ctx (LineTo (leaf_size * 0.9) 0) ;;
    rgb 35 80 28 0.2 ;;
    call ctx (SetLineWidth 0.5) ;;
    call ctx Stroke ;;
    call ctx Restore).

Definition vine_curls (points : list (Q * Q)) (side : Side) : M unit :=
  for_each (range3 0 (len points - 1) 35) (fun i =>
    p <- point_at points i ;;
    let '(px, py) := p in
    let curl_dir : Q := if is_left side then 1 else -1 in
    call ctx (SetLineWidth 0.8) ;;
    rgb 58 110 40 0.25 ;;
    call ctx (MoveTo px py) ;;
    for_each (range 30) (fun t =>
      let ang := t * 0.25 in
      let r := t * 0.6 in
      call ctx (LineTo (px + curl_dir * (r * cos ang + 8))
                       (py - r * sin ang - 5))) ;;
    call ctx Stroke).

Definition draw_vine (x_base y_start y_end : Q) (side : Side)
    (thickness : Q) : M unit :=
  points <- vine_points x_base y_start y_end side ;;
  if (len points <? 2)%Z then ret tt
  else
    vine_stem points thickness ;;
    vine_tendrils points side thickness ;;
    vine_leaves points side ;;
    vine_curls points side.

Definition vines : M unit :=
  draw_vine 25 50 (inject_Z (H - 50)) left 3 ;;
  draw_vine 15 200 (inject_Z (H - 100)) left 1.8 ;;
  draw_vine (inject_Z (W - 25)) 80 (inject_Z (H - 50)) right 3 ;;
  draw_vine (inject_Z (W - 15)) 250 (inject_Z (H - 100)) right 1.8.

(** *** 6. Fern carpet and ground *)

Definition fern (i : Z) : M unit :=
  bx <- random_uniform (-20) (inject_Z (W + 20)) ;;
  u <- random_uniform 10 120 ;;
  let by_ := H - u in
  fern_h <- random_uniform 30 80 ;;
  lean <- random_uniform (-0.3) 0.3 ;;
  call ctx Save ;;
  call ctx (Translate bx by_) ;;
  call ctx (Rotate lean) ;;
  g <- random_uniform 0.3 0.55 ;;
  call ctx (SetSourceRgba 0.15 g 0.12 0.3) ;;
  call ctx (SetLineWidth 1.2) ;;
  call ctx (MoveTo 0 0) ;;
  call ctx (CurveTo 3 (- fern_h * 0.3) (-2) (- fern_h * 0.6) 1 (- fern_h)) ;;
  call ctx Stroke ;;
  for_each (range (int (fern_h / 8))) (fun j =>
    let fy : Q := inject_Z (- j * 8) in
    let frond_len := (fern_h - inject_Z (j * 8)) * 0.4 in
    let side : Q := if (j mod 2 =? 0)%Z then 1 else -1 in
    call ctx (SetSourceRgba 0.18 (g * 1.1) 0.15 0.22) ;;
    call ctx (SetLineWidth 0.6) ;;
    call ctx (MoveTo 0 fy) ;;
    call ctx (CurveTo (side * frond_len * 0.5) (fy - 3)
                      (side * frond_len) (fy - 1)
                      (side * frond_len) (fy + 2)) ;;
    call ctx Stroke) ;;
  call ctx Restore.

Definition fern_carpet : M unit := for_each (range 60) fern.

Definition ground_gradient : M unit :=
  let ground := LinearGradient 0 (inject_Z (H - 80)) 0 H [] in
  let ground := add_color_stop_rgba ground 0 0.25 0.48 0.22 0 in
  let ground := add_color_stop_rgba ground 0.5 0.22 0.42 0.18 0.15 in
  let ground := add_color_stop_rgba ground 1.0 0.18 0.38 0.15 0.3 in
  call ctx (SetSource ground) ;;
  call ctx (Rectangle 0 (inject_Z (H - 80)) W 80) ;;
  call ctx Fill.

(** *** 7. Glass panels *)

Definition panels : list (Q * Q * Q * Q) :=
  [ (W * 0.15, H * 0.18, 65, -0.15);
    (W * 0.38, H * 0.12, 50, 0.1);
    (W * 0.60, H * 0.22, 55, -0.08);
    (W * 0.28, H * 0.35, 40, 0.2);
    (W * 0.75, H * 0.15, 45, -0.12) ].

Definition draw_panel (panel : Q * Q * Q * Q) : M unit :=
  let '(px, py, size, rot) := panel in
  call ctx Save ;;
  call ctx (Translate px py) ;;
  call ctx (Rotate rot) ;;
  let r : Q := 6 in
  call ctx (MoveTo (- size + r) (- size * 0.7)) ;;
  call ctx (LineTo (size - r) (- size * 0.7)) ;;
  call ctx (CurveTo size (- size * 0.7) size (- size * 0.7)
                    size (- size * 0.7 + r)) ;;
  call ctx (LineTo size (size * 0.7 - r)) ;;
  call ctx (CurveTo size (size * 0.7) size (size * 0.7)
                    (size - r) (size * 0.7)) ;;
  call ctx (LineTo (- size + r) (size * 0.7)) ;;
  call ctx (CurveTo (- size) (size * 0.7) (- size) (size * 0.7)
                    (- size) (size * 0.7 - r)) ;;
  call ctx (LineTo (- size) (- size * 0.7 + r)) ;;
  call ctx (CurveTo (- size) (- size * 0.7) (- size) (- size * 0.7)
                    (- size + r) (- size * 0.7)) ;;
  call ctx ClosePath ;;
  let glass := LinearGradient (- size) (- size * 0.7) size (size * 0.7) [] in
  let glass := add_color_stop_rgba glass 0.0 0.55 0.82 0.75 0.08 in
  let glass := add_color_stop_rgba glass 0.3 0.40 0.75 0.65 0.06 in
  let glass := add_color_stop_rgba glass 0.7 0.50 0.80 0.55 0.07 in
  let glass := add_color_stop_rgba glass 1.0 0.65 0.85 0.50 0.05 in
  call ctx (SetSource glass) ;;
  call ctx FillPreserve ;;
  rgb 180 150 50 0.15 ;;
  call ctx (SetLineWidth 1.5) ;;
  call ctx Stroke ;;
  let cells_h := 4%Z in
  let cells_v := 3%Z in
  let cell_w := (size * 2) / cells_h in
  let cell_h := (size * 1.4) / cells_v in
  call ctx (SetLineWidth 0.5) ;;
  rgb 160 140 60 0.1 ;;
  for_each (range3 1 cells_h 1) (fun ci =>
    let xx := - size + ci * cell_w in
    call ctx (MoveTo xx (- size * 0.7)) ;;
    call ctx (LineTo xx (size * 0.7)) ;;
    call ctx Stroke) ;;
  for_each (range3 1 cells_v 1) (fun cj =>
    let yy := - size * 0.7 + cj * cell_h in
    call ctx (MoveTo (- size) yy) ;;
    call ctx (LineTo size yy) ;;
    call ctx Stroke) ;;
  call ctx (MoveTo (- size * 0.6) (- size * 0.5)) ;;
  call ctx (LineTo (- size * 0.2) (- size * 0.65)) ;;
  call ctx (SetLineWidth 2) ;;
  rgb 255 255 240 0.12 ;;
  call ctx Stroke ;;
  call ctx Restore.

Definition glass_panels : M unit := for_each panels draw_panel.

(** *** 8. Corner ornaments *)

Definition corner_ornaments : M unit :=
  call ctx Save ;;
  call ctx (SetLineWidth 1.5) ;;
  rgb 160 140 50 0.12 ;;
  for_each (range 5) (fun i =>
    call ctx (Arc 0 0 (inject_Z (80 + i * 25)) 0 (pi / 2)) ;;
    call ctx Stroke) ;;
  call ctx (SetLineWidth 1) ;;
  rgb 58 110 40 0.15 ;;
  call ctx (MoveTo 0 120) ;;
  call ctx (CurveTo 40 100 80 60 120 0) ;;
  call ctx Stroke ;;
  call ctx (MoveTo 0 160) ;;
  call ctx (CurveTo 60 140 110 90 160 0) ;;
  call ctx Stroke ;;
  call ctx Restore ;;
  call ctx Save ;;
  call ctx (Translate W 0) ;;
  call ctx (SetLineWidth 1.5) ;;
  rgb 160 140 50 0.1 ;;
  for_each (range 5) (fun i =>
    call ctx (Arc 0 0 (inject_Z (80 + i * 25)) (pi / 2) pi) ;;
    call ctx Stroke) ;;
  call ctx Restore.

(** *** 9. Floating leaves and pollen *)

Definition floating_leaf (i : Z) : M unit :=
  lx <- random_uniform 60 (inject_Z (W - 60)) ;;
  ly <- random_uniform 80 (H * 0.55) ;;
  la <- random_uniform 0 (2 * pi) ;;
  ls <- random_uniform 8 18 ;;
  call ctx Save ;;
  call ctx (Translate lx ly) ;;
  call ctx (Rotate la) ;;
  call ctx (MoveTo 0 0) ;;
  call ctx (CurveTo (ls * 0.3) (- ls * 0.25) (ls * 0.7) (- ls * 0.12) ls 0) ;;
  call ctx (CurveTo (ls * 0.7) (ls * 0.12) (ls * 0.3) (ls * 0.25) 0 0) ;;
  g <- random_uniform 0.35 0.55 ;;
  a <- random_uniform 0.06 0.15 ;;
  call ctx (SetSourceRgba 0.18 g 0.15 a) ;;
  call ctx Fill ;;
  call ctx Restore.

Definition floating_leaves : M unit := for_each (range 35) floating_leaf.

Definition pollen_grain (i : Z) : M unit :=
  px <- random_uniform 0 W ;;
  py <- random_uniform 0 (H * 0.85) ;;
  ps <- random_uniform 0.8 3.0 ;;
  (if (i mod 3 =? 0)%Z then
     a <- random_uniform 0.08 0.25 ;;
     call ctx (SetSourceRgba 0.85 0.72 0.22 a)
   else
     g <- random_uniform 0.45 0.65 ;;
     a <- random_uniform 0.06 0.15 ;;
     call ctx (SetSourceRgba 0.35 g 0.28 a)) ;;
  call ctx (Arc px py ps 0 (2 * pi)) ;;
  call ctx Fill.

Definition pollen : M unit := for_each (range 120) pollen_grain.

(** *** 10. Frame and grain *)

Definition frame : M unit :=
  let margin := 30%Z in
  call ctx (SetLineWidth 1.0) ;;
  rgb 160 140 50 0.08 ;;
  call ctx (Rectangle margin margin
              (inject_Z (W - 2 * margin)) (inject_Z (H - 2 * margin))) ;;
  call ctx Stroke ;;
  rgb 58 110 40 0.06 ;;
  call ctx (Rectangle (inject_Z (margin + 8)) (inject_Z (margin + 8))
              (inject_Z (W - 2 * (margin + 8)))
              (inject_Z (H - 2 * (margin + 8)))) ;;
  call ctx Stroke.

Definition grain_dot (i : Z) : M unit :=
  tx <- random_uniform 0 W ;;
  ty <- random_uniform 0 H ;;
  a <- random_uniform 0.01 0.025 ;;
  call ctx (SetSourceRgba 0.5 0.55 0.4 a) ;;
  radius <- random_uniform 0.3 1.2 ;;
  call ctx (Arc tx ty radius 0 (2 * pi)) ;;
  call ctx Fill.

Definition grain : M unit := for_each (range 3000) grain_dot.

(** *** Export *)

Definition export : M unit :=
  emit (WriteToPng Main solarpunk_bg_png) ;;
  emit (PrintLine "PNG saved -> solarpunk_bg.png").

(** *** The whole script, in source order

    [s] is the argument of [random.seed]; the source fixes [s = 42],
    [W = 1800] and [H = 1200]. *)

Definition city_layer : M unit :=
  emit (CreateSurface City W H) ;;
  buildings <- generate_buildings ;;
  draw_city_silhouette cctx 1.0 buildings 0 0.

(** Sections 4 to 10 of the source, all drawn on [ctx]. *)
Definition foreground : M unit :=
  rolling_hills ;;
  vines ;;
  fern_carpet ;;
  ground_gradient ;;
  glass_panels ;;
  corner_ornaments ;;
  floating_leaves ;;
  pollen ;;
  frame ;;
  grain.

Definition script (s : Z) : M unit :=
  random_seed s ;;
  emit (CreateSurface Main W H) ;;
  sky_gradient ;;
  sun ;;
  city_layer ;;
  blur_city ;;
  composite_city ;;
  haze_overlay ;;
  foreground ;;
  export.

End Script.

(** The script as the repository runs it. *)
Definition main {G} {RS : RandomSource G} {ML : MathLib} (fuel : nat)
    : M G unit :=
  script 1800 1200 fuel 42.

(** ** Executing a trace

    The second layer: what the recorded calls do to the surfaces, to their
    drawing contexts and to the file system.  A surface is kept as the
    ordered list of the marks painted on it, each mark with the part of
    the graphics state cairo rasterises it from; rasterisation itself is
    modelled further down, for the marks a pixel can be computed for
    without a path. *)

Inductive Xform : Type := XTranslate (tx ty : Q) | XRotate (angle : Q).

Inductive MarkKind : Type :=
| MPaint | MPaintWithAlpha (a : Q) | MFill | MStroke.

(** One element of the current path: the call that added it and the
    transform in force at that call. *)
Definition PathElem : Type := list Xform * Op.

Inductive Image : Type :=
| Picture (w h : Z) (marks : list Mark)
| Converted (argv : list string) (input : Image)
with Mark : Type :=
| mkMark (kind : MarkKind) (src : Source) (ctm : list Xform)
         (path : list PathElem) (lw : Q) (cap : LineCap)
with Source : Type :=
| SrcPattern (p : Pattern)
| SrcImage (img : Image) (x y : Q).

(** The graphics state that [save()] pushes and [restore()] pops. *)
Record Gstate : Type := mkGstate {
  gs_source : Source;
  gs_ctm : list Xform;
  gs_line_width : Q;
  gs_line_cap : LineCap
}.

(** A fresh context: opaque black source, identity transform, line width
    2, butt caps. *)
Definition initial_gstate : Gstate :=
  mkGstate (SrcPattern (Solid 0 0 0 1)) [] 2 LINE_CAP_BUTT.

Record Context : Type := mkContext {
  cx_gs : Gstate;
  cx_saved : list Gstate;
  cx_path : list PathElem
}.

Definition initial_context : Context := mkContext initial_gstate [] [].

(** An image surface together with the context created on it. *)
Record Canvas : Type := mkCanvas {
  cv_width : Z;
  cv_height : Z;
  cv_marks : list Mark;
  cv_ctx : Context
}.

Definition picture (c : Canvas) : Image :=
  Picture (cv_width c) (cv_height c) (cv_marks c).

(** What a path of the file system holds. *)
Inductive File : Type :=
| ImageFile (img : Image)
| TextFile (text : string).

Record World : Type := mkWorld {
  wd_main : option Canvas;      (* [surface], [ctx] *)
  wd_city : option Canvas;      (* [city_surface], [cctx] *)
  wd_blurred : option Image;    (* [blurred_city] *)
  wd_fs : gmap string File;
  wd_stdout : list string
}.

(** The world a run starts in: no surface yet, any file system. *)
Definition initial_world (fs : gmap string File) : World :=
  mkWorld None None None fs [].

Inductive Failure : Type :=
| NameError            (* a surface used before it is created *)
| CairoError           (* [restore()] without [save()]; a file that is no image *)
| FileNotFound
| CalledProcessError.

Definition with_gs (c : Context) (gs : Gstate) : Context :=
  mkContext gs (cx_saved c) (cx_path c).

Definition add_path (c : Context) (op : Op) : Context :=
  mkContext (cx_gs c) (cx_saved c) (cx_path c ++ [(gs_ctm (cx_gs c), op)]).

Definition set_source (c : Context) (src : Source) : Context :=
  let gs := cx_gs c in
  with_gs c (mkGstate src (gs_ctm gs) (gs_line_width gs) (gs_line_cap gs)).

Definition transform (c : Context) (x : Xform) : Context :=
  let gs := cx_gs c in
  with_gs c (mkGstate (gs_source gs) (x :: gs_ctm gs)
                      (gs_line_width gs) (gs_line_cap gs)).

(** The mark a painting call leaves, from the current graphics state. *)
Definition mark_of (c : Context) (kind : MarkKind) : Mark :=
  let gs := cx_gs c in
  mkMark kind (gs_source gs) (gs_ctm gs) (cx_path c)
         (gs_line_width gs) (gs_line_cap gs).

Definition put_mark (cv : Canvas) (kind : MarkKind) (keep_path : bool)
    : Canvas :=
  let c := cv_ctx cv in
  mkCanvas (cv_width cv) (cv_height cv)
           (cv_marks cv ++ [mark_of c kind])
           (if keep_path then c else mkContext (cx_gs c) (cx_saved c) []).

Definition with_ctx (cv : Canvas) (c : Context) : Canvas :=
  mkCanvas (cv_width cv) (cv_height cv) (cv_marks cv) c.

(** One call on the context of canvas [cv]; [lookup] resolves the surface
    named by [set_source_surface]. *)
Definition exec_op (lookup : SurfaceId -> option Image) (cv : Canvas)
    (op : Op) : Failure + Canvas :=
  let c := cv_ctx cv in
  match op with
  | SetSource p => inr (with_ctx cv (set_source c (SrcPattern p)))
  | SetSourceRgba r g b a =>
      inr (with_ctx cv (set_source c (SrcPattern (Solid r g b a))))
  | SetSourceSurface s x y =>
      match lookup s with
      | Some img => inr (with_ctx cv (set_source c (SrcImage img x y)))
      | None => inl NameError
      end
  | Paint => inr (put_mark cv MPaint true)
  | PaintWithAlpha a => inr (put_mark cv (MPaintWithAlpha a) true)
  | Save =>
      inr (with_ctx cv (mkContext (cx_gs c) (cx_gs c :: cx_saved c) (cx_path c)))
  | Restore =>
      match cx_saved c with
      | gs :: rest => inr (with_ctx cv (mkContext gs rest (cx_path c)))
      | [] => inl CairoError
      end
  | Translate tx ty => inr (with_ctx cv (transform c (XTranslate tx ty)))
  | Rotate angle => inr (with_ctx cv (transform c (XRotate angle)))
  | MoveTo _ _ | LineTo _ _ | CurveTo _ _ _ _ _ _ | ClosePath
  | Rectangle _ _ _ _ | Arc _ _ _ _ _ => inr (with_ctx cv (add_path c op))
  | Fill => inr (put_mark cv MFill false)
  | FillPreserve => inr (put_mark cv MFill true)
  | Stroke => inr (put_mark cv MStroke false)
  | SetLineWidth w =>
      let gs := cx_gs c in
      inr (with_ctx cv (with_gs c
             (mkGstate (gs_source gs) (gs_ctm gs) w (gs_line_cap gs))))
  | SetLineCap cap =>
      let gs := cx_gs c in
      inr (with_ctx cv (with_gs c
             (mkGstate (gs_source gs) (gs_ctm gs) (gs_line_width gs) cap)))
  end.

Definition image_of (w : World) (s : SurfaceId) : option Image :=
  match s with
  | Main => option_map picture (wd_main w)
  | City => option_map picture (wd_city w)
  | BlurredCity => wd_blurred w
  end.

Definition blank (w h : Z) : Canvas := mkCanvas w h [] initial_context.

(** [subprocess.run(argv, check=True)] for a command of the shape
    [prog input option value output]: the tool reads one file and writes
    one file, whose content is determined by the command line and the
    input. *)
Definition exec_subprocess (fs : gmap string File) (argv : list string)
    : Failure + gmap string File :=
  match argv with
  | [_; input; _; _; output] =>
      match fs !! input with
      | Some (ImageFile img) =>
          inr (<[output := ImageFile (Converted argv img)]> fs)
      | _ => inl CalledProcessError
      end
  | _ => inl CalledProcessError
  end.

Definition exec_event (w : World) (e : Event) : Failure + World :=
  match e with
  | RandomSeed _ | RandomRandom _ | RandomUniform _ _ _ | RandomChoice _ _ =>
      inr w
  | CreateSurface Main wi he =>
      inr (mkWorld (Some (blank wi he)) (wd_city w) (wd_blurred w)
                   (wd_fs w) (wd_stdout w))
  | CreateSurface City wi he =>
      inr (mkWorld (wd_main w) (Some (blank wi he)) (wd_blurred w)
                   (wd_fs w) (wd_stdout w))
  | CreateSurface BlurredCity wi he =>
      inr (mkWorld (wd_main w) (wd_city w) (Some (Picture wi he []))
                   (wd_fs w) (wd_stdout w))
  | Draw Main op =>
      match wd_main w with
      | Some cv =>
          match exec_op (image_of w) cv op with
          | inr cv' => inr (mkWorld (Some cv') (wd_city w) (wd_blurred w)
                                    (wd_fs w) (wd_stdout w))
          | inl f => inl f
          end
      | None => inl NameError
      end
  | Draw City op =>
      match wd_city w with
      | Some cv =>
          match exec_op (image_of w) cv op with
          | inr cv' => inr (mkWorld (wd_main w) (Some cv') (wd_blurred w)
                                    (wd_fs w) (wd_stdout w))
          | inl f => inl f
          end
      | None => inl NameError
      end
  | Draw BlurredCity _ => inl NameError
  | WriteToPng s path =>
      match image_of w s with
      | Some img => inr (mkWorld (wd_main w) (wd_city w) (wd_blurred w)
                                 (<[path := ImageFile img]> (wd_fs w))
                                 (wd_stdout w))
      | None => inl NameError
      end
  | SubprocessRun argv =>
      match exec_subprocess (wd_fs w) argv with
      | inr fs' => inr (mkWorld (wd_main w) (wd_city w) (wd_blurred w)
                                fs' (wd_stdout w))
      | inl f => inl f
      end
  | CreateFromPng BlurredCity path =>
      match wd_fs w !! path with
      | Some (ImageFile img) =>
          inr (mkWorld (wd_main w) (wd_city w) (Some img)
                       (wd_fs w) (wd_stdout w))
      | Some (TextFile _) => inl CairoError
      | None => inl FileNotFound
      end
  | CreateFromPng _ _ => inl NameError
  | PrintLine msg =>
      inr (mkWorld (wd_main w) (wd_city w) (wd_blurred w)
                   (wd_fs w) (wd_stdout w ++ [msg]))
  end.

(** Calls run in order; the first failing call ends the run (the script
    has no exception handler) and leaves the world as it was then. *)
Fixpoint exec (w : World) (tr : Trace) : World * option Failure :=
  match tr with
  | [] => (w, None)
  | e :: rest =>
      match exec_event w e with
      | inr w' => exec w' rest
      | inl f => (w, Some f)
      end
  end.

(** A run in which call number [k] (from 0) raises: the calls before it
    have run, and since no call sits in a [try] block nothing after it
    does. *)
Definition abort_at (k : nat) (tr : Trace) : Trace := firstn k tr.

(** ** The stub writer, [src/write_pivx_module.py]

    The second script of the repository: it writes one Rust source text to
    a fixed path and prints three lines.  It imports nothing and reads
    nothing.  The text is kept line by line; [dq] is the double quote. *)

Definition dq : string := String (ascii_of_nat 34) EmptyString.

Definition newline : string := String (ascii_of_nat 10) EmptyString.

Definition content_lines : list string :=
  [ "// pivx_integration.rs - Intégration PIVX pour Janus Monitor";
    "// Ce module gère les appels RPC PIVX et la gestion des wallets PIVX";
    "";
    "use serde::{Deserialize, Serialize};";
    "use std::time::{SystemTime, UNIX_EPOCH};";
    "use reqwest::Client;";
    "use crate::{secure_log, log_address, log_balance};";
    "";
    "// ============================================================================";
    "// STRUCTURES DE DONNÉES PIVX";
    "// ============================================================================";
    "";
    "/// Informations sur un nœud PIVX";
    "#[derive(Debug, Clone, Serialize, Deserialize)]";
    "pub struct PivxNodeInfo {";
    "    pub url: String,";
    "    pub block_height: u64,";
    "    pub version: String,";
    "    pub response_time_ms: u64,";
    "    pub is_healthy: bool,";
    "}";
    "";
    "/// Résultat de balance PIVX (inclut zPIV et balance régulière)";
    "#[derive(Debug, Clone, Serialize, Deserialize)]";
    "pub struct PivxBalanceResult {";
    "    pub zerocoin_balance: f64,      // Balance des zPIV (anonymes)";
    "    pub regular_balance: f64,      // Balance des PIVX réguliers";
    "    pub total_balance: f64,         // Balance totale";
    "    pub transactions: Vec<PivxTransaction>,";
    "}";
    "";
    "/// Transaction PIVX";
    "#[derive(Debug, Clone, Serialize, Deserialize)]";
    "pub struct PivxTransaction {";
    "    pub txid: String,";
    "    pub amount: f64,";
    "    pub timestamp: i64,";
    "    pub confirmations: u64,";
    "    pub is_zerocoin: bool,          // True si c'est une transaction zPIV";
    "    pub is_incoming: bool,";
    "}";
    "";
    "/// Données de wallet PIVX pour les appels backend";
    "#[derive(Debug, Clone, Serialize, Deserialize)]";
    "pub struct PivxWalletData {";
    "    pub address: String,";
    "    pub rpc_user: Option<String>,";
    "    pub rpc_password: Option<String>,";
    "    pub rpc_node: String,";
    "    pub zerocoin_min_confirmations: u64,";
    "    pub regular_min_confirmations: u64,";
    "}";
    "";
    "/// Erreur PIVX personnalisée";
    "#[derive(Debug, thiserror::Error)]";
    "pub enum PivxError {";
    "    #[error(" ++ dq ++ "Adresse PIVX invalide: {0}" ++ dq ++ ")]";
    "    InvalidAddress(String),";
    "    ";
    "    #[error(" ++ dq ++ "Credentials RPC invalides: {0}" ++ dq ++ ")]";
    "    InvalidRpcCredentials(String),";
    "    ";
    "    #[error(" ++ dq ++ "URL du nœud PIVX invalide: {0}" ++ dq ++ ")]";
    "    InvalidNodeUrl(String),";
    "    ";
    "    #[error(" ++ dq ++ "Échec de la connexion au nœud PIVX: {0}" ++ dq ++ ")]";
    "    NodeConnectionFailed(String),";
    "    ";
    "    #[error(" ++ dq ++ "Échec de l'appel RPC: {0}" ++ dq ++ ")]";
    "    RpcCallFailed(String),";
    "    ";
    "    #[error(" ++ dq ++ "Balance introuvable pour l'adresse" ++ dq ++ ")]";
    "    BalanceNotFound,";
    "    ";
    "    #[error(" ++ dq ++ "Timeout de la requête" ++ dq ++ ")]";
    "    RequestTimeout,";
    "}";
    "";
    "impl Serialize for PivxError {";
    "    fn serialize<S>(&self, serializer: S) -> Result<S::Ok, S::Error>";
    "    where";
    "        S: serde::Serializer,";
    "    {";
    "        serializer.serialize_str(self.to_string().as_ref())";
    "    }";
    "}";
    "";
    "// ============================================================================";
    "// VALIDATION PIVX";
    "// ============================================================================";
    "";
    "/// Valider une adresse PIVX";
    "pub fn validate_pivx_address(address: &str) -> Result<(), PivxError> {";
    "    // Une adresse PIVX valide fait entre 25 et 35 caractères";
    "    if address.len() < 25 || address.len() > 35 {";
    "        return Err(PivxError::InvalidAddress(format!(";
    "            " ++ dq ++ "Longueur incorrecte: {} (attendu: 25-35)" ++ dq ++ ", address.len()";
    "        )));";
    "    }";
    "    ";
    "    // Vérifier que tous les caractères sont valides (base58)";
    "    for c in address.chars() {";
    "        if !c.is_ascii_alphanumeric() {";
    "            return Err(PivxError::InvalidAddress(";
    "                format!(" ++ dq ++ "Caractère invalide: {}" ++ dq ++ ", c)";
    "            ));";
    "        }";
    "    }";
    "    ";
    "    // Les adresses PIVX commencent généralement par D, mais ce n'est pas une règle stricte";
    "    // pour toutes les versions, donc nous ne vérifions pas le préfixe";
    "    ";
    "    Ok(())";
    "}";
    "";
    "/// Valider les credentials RPC PIVX (optionnels)";
    "pub fn validate_rpc_credentials(rpc_user: &Option<String>, rpc_password: &Option<String>) -> Result<(), PivxError> {";
    "    // Si des credentials sont fournis, ils ne doivent pas être vides";
    "    if let (Some(user), Some(pass)) = (rpc_user, rpc_password) {";
    "        if user.is_empty() || pass.is_empty() {";
    "            return Err(PivxError::InvalidRpcCredentials(";
    "                " ++ dq ++ "Les credentials RPC ne peuvent pas être vides" ++ dq ++ ".to_string()";
    "            ));";
    "        }";
    "    }";
    "    ";
    "    Ok(())";
    "}";
    "";
    "/// Valider l'URL du nœud PIVX";
    "pub fn validate_pivx_node_url(url: &str) -> Result<(), PivxError> {";
    "    if url.is_empty() {";
    "        return Err(PivxError::InvalidNodeUrl(";
    "            " ++ dq ++ "URL du nœud vide" ++ dq ++ ".to_string()";
    "        ));";
    "    }";
    "    ";
    "    // Vérification basique que l'URL contient un protocole et un hôte";
    "    if !url.contains(" ++ dq ++ "://" ++ dq ++ ") {";
    "        return Err(PivxError::InvalidNodeUrl(";
    "            format!(" ++ dq ++ "URL invalide (manque ://): {}" ++ dq ++ ", url)";
    "        ));";
    "    }";
    "    ";
    "    Ok(())";
    "}";
    "";
    "/// Valider les données complètes du wallet PIVX";
    "pub fn validate_pivx_wallet_data(data: &PivxWalletData) -> Result<(), PivxError> {";
    "    validate_pivx_address(&data.address)?;";
    "    validate_rpc_credentials(&data.rpc_user, &data.rpc_password)?;";
    "    validate_pivx_node_url(&data.rpc_node)?;";
    "    ";
    "    Ok(())";
    "}";
    "";
    "// ============================================================================";
    "// CLIENT PIVX RPC";
    "// ============================================================================";
    "";
    "/// Client pour les appels RPC PIVX";
    "pub struct PivxRpcClient {";
    "    client: Client,";
    "    rpc_url: String,";
    "    rpc_user: Option<String>,";
    "    rpc_password: Option<String>,";
    "    timeout: std::time::Duration,";
    "}";
    "";
    "impl PivxRpcClient {";
    "    /// Créer un nouveau client PIVX RPC";
    "    pub fn new(rpc_node: &str, rpc_user: Option<String>, rpc_password: Option<String>) -> Self {";
    "        Self {";
    "            client: Client::new(),";
    "            rpc_url: rpc_node.to_string(),";
    "            rpc_user,";
    "            rpc_password,";
    "            timeout: std::time::Duration::from_secs(30),";
    "        }";
    "    }";
    "    ";
    "    /// Tester la connexion au nœud PIVX";
    "    pub async fn test_connection(&self) -> Result<PivxNodeInfo, PivxError> {";
    "        let start_time = SystemTime::now();";
    "        ";
    "        let request_body = serde_json::json!({";
    "            " ++ dq ++ "jsonrpc" ++ dq ++ ": " ++ dq ++ "2.0" ++ dq ++ ",";
    "            " ++ dq ++ "id" ++ dq ++ ": " ++ dq ++ "janus-monitor" ++ dq ++ ",";
    "            " ++ dq ++ "method" ++ dq ++ ": " ++ dq ++ "getblockchaininfo" ++ dq ++ ",";
    "            " ++ dq ++ "params" ++ dq ++ ": []";
    "        });";
    "        ";
    "        let client = Client::new();";
    "        let response = client";
    "            .post(&self.rpc_url)";
    "            .json(&request_body)";
    "            .timeout(self.timeout)";
    "            .send()";
    "            .await";
    "            .map_err(|e| PivxError::NodeConnectionFailed(e.to_string()))?;";
    "            ";
    "        if !response.status().is_success() {";
    "            return Err(PivxError::NodeConnectionFailed(format!(";
    "                " ++ dq ++ "Statut HTTP {}: {}" ++ dq ++ ", ";
    "                response.status(), ";
    "                response.text().await.unwrap_or_default()";
    "            )));";
    "        }";
    "        ";
    "        let response_json: serde_json::Value = response";
    "            .json()";
    "            .await";
    "            .map_err(|e| PivxError::RpcCallFailed(e.to_string()))?;";
    "            ";
    "        let response_time = start_time.elapsed().unwrap_or_default().as_millis() as u64;";
    "        ";
    "        // Extraire les informations";
    "        let blocks = response_json[" ++ dq ++ "result" ++ dq ++ "][" ++ dq ++ "blocks" ++ dq ++ "].as_u64().unwrap_or(0);";
    "        let version = response_json[" ++ dq ++ "result" ++ dq ++ "][" ++ dq ++ "version" ++ dq ++ "].as_str().unwrap_or(" ++ dq ++ "inconnu" ++ dq ++ ").to_string();";
    "        ";
    "        secure_log(" ++ dq ++ "PIVX" ++ dq ++ ", &format!(" ++ dq ++ "Connexion réussie au nœud {} - hauteur: {}" ++ dq ++ ", self.rpc_url, blocks));";
    "        ";
    "        Ok(PivxNodeInfo {";
    "            url: self.rpc_url.clone(),";
    "            block_height: blocks,";
    "            version,";
    "            response_time_ms: response_time,";
    "            is_healthy: true,";
    "        })";
    "    }";
    "    ";
    "    /// Obtenir la balance pour un wallet PIVX";
    "    pub async fn get_balance(";
    "        &self,";
    "        address: &str,";
    "    ) -> Result<PivxBalanceResult, PivxError> {";
    "        // TODO: Implémentation réelle avec PIVX RPC";
    "        // Pour l'instant, retournons des données de test";
    "        ";
    "        log_address(" ++ dq ++ "PIVX" ++ dq ++ ", address);";
    "        ";
    "        // Simuler un délai de requête";
    "        tokio::time::sleep(std::time::Duration::from_secs(1)).await;";
    "        ";
    "        // Données de test - à remplacer par l'appel RPC réel";
    "        Ok(PivxBalanceResult {";
    "            zerocoin_balance: 5.25,";
    "            regular_balance: 12.75,";
    "            total_balance: 18.0,";
    "            transactions: vec![";
    "                PivxTransaction {";
    "                    txid: " ++ dq ++ "pivx_tx1_a1b2c3d4e5f6a1b2c3d4e5f6a1b2c3d4e5f6a1b2c3d4e5f6a1b2" ++ dq ++ ".to_string(),";
    "                    amount: 3.5,";
    "                    timestamp: UNIX_EPOCH.elapsed().unwrap().as_secs() as i64 - 3600, // Il y a 1 heure";
    "                    confirmations: 8,";
    "                    is_zerocoin: true,  // Transaction zPIV";
    "                    is_incoming: true,";
    "                },";
    "                PivxTransaction {";
    "                    txid: " ++ dq ++ "pivx_tx2_f6e5d4c3b2a1f6e5d4c3b2a1f6e5d4c3b2a1f6e5d4c3b2a1f6e5" ++ dq ++ ".to_string(),";
    "                    amount: 2.0,";
    "                    timestamp: UNIX_EPOCH.elapsed().unwrap().as_secs() as i64 - 7200, // Il y a 2 heures";
    "                    confirmations: 12,";
    "                    is_zerocoin: false, // Transaction régulière";
    "                    is_incoming: true,";
    "                }";
    "            ],";
    "        })";
    "    }";
    "    ";
    "    /// Obtenir l'historique des transactions PIVX";
    "    pub async fn get_transactions(";
    "        &self,";
    "        address: &str,";
    "        limit: u64,";
    "    ) -> Result<Vec<PivxTransaction>, PivxError> {";
    "        // TODO: Implémentation réelle";
    "        ";
    "        log_address(" ++ dq ++ "PIVX" ++ dq ++ ", address);";
    "        ";
    "        // Simuler un délai";
    "        tokio::time::sleep(std::time::Duration::from_secs(1)).await;";
    "        ";
    "        // Données de test";
    "        Ok(vec![";
    "            PivxTransaction {";
    "                txid: " ++ dq ++ "pivx_hist1_a1b2c3d4e5f6a1b2c3d4e5f6a1b2c3d4e5f6a1b2c3d4e5f6a1b2" ++ dq ++ ".to_string(),";
    "                amount: 1.5,";
    "                timestamp: UNIX_EPOCH.elapsed().unwrap().as_secs() as i64 - 1800, // Il y a 30 minutes";
    "                confirmations: 3,";
    "                is_zerocoin: false,";
    "                is_incoming: true,";
    "            },";
    "            PivxTransaction {";
    "                txid: " ++ dq ++ "pivx_hist2_f6e5d4c3b2a1f6e5d4c3b2a1f6e5d4c3b2a1f6e5d4c3b2a1f6e5" ++ dq ++ ".to_string(),";
    "                amount: 0.8,";
    "                timestamp: UNIX_EPOCH.elapsed().unwrap().as_secs() as i64 - 3600, // Il y a 1 heure";
    "                confirmations: 6,";
    "                is_zerocoin: true,";
    "                is_incoming: true,";
    "            }";
    "        ])";
    "    }";
    "}";
    "";
    "// ============================================================================";
    "// COMMANDES TAURI - PIVX";
    "// ============================================================================";
    "";
    "/// Tester un nœud PIVX";
    "#[tauri::command]";
    "pub async fn test_pivx_node(";
    "    rpc_node: String,";
    "    rpc_user: Option<String>,";
    "    rpc_password: Option<String>,";
    ") -> Result<PivxNodeInfo, String> {";
    "    secure_log(" ++ dq ++ "PIVX" ++ dq ++ ", &format!(" ++ dq ++ "Test du nœud: {}" ++ dq ++ ", rpc_node));";
    "    ";
    "    let client = PivxRpcClient::new(&rpc_node, rpc_user, rpc_password);";
    "    ";
    "    match client.test_connection().await {";
    "        Ok(node_info) => {";
    "            log_balance(" ++ dq ++ "PIVX" ++ dq ++ ", node_info.block_height as f64);";
    "            Ok(node_info)";
    "        },";
    "        Err(e) => {";
    "            Err(format!(" ++ dq ++ "Erreur test nœud PIVX: {}" ++ dq ++ ", e.to_string()))";
    "        }";
    "    }";
    "}";
    "";
    "/// Obtenir la balance PIVX";
    "#[tauri::command]";
    "pub async fn get_pivx_balance(";
    "    address: String,";
    "    rpc_user: Option<String>,";
    "    rpc_password: Option<String>,";
    "    rpc_node: String,";
    "    zerocoin_min_confirmations: u64,";
    "    regular_min_confirmations: u64,";
    ") -> Result<PivxBalanceResult, String> {";
    "    secure_log(" ++ dq ++ "PIVX" ++ dq ++ ", &format!(" ++ dq ++ "Récupération balance pour: {}" ++ dq ++ ", address));";
    "    ";
    "    // Valider les données";
    "    let wallet_data = PivxWalletData {";
    "        address: address.clone(),";
    "        rpc_user,";
    "        rpc_password,";
    "        rpc_node: rpc_node.clone(),";
    "        zerocoin_min_confirmations,";
    "        regular_min_confirmations,";
    "    };";
    "    ";
    "    if let Err(e) = validate_pivx_wallet_data(&wallet_data) {";
    "        return Err(format!(" ++ dq ++ "Données wallet invalides: {}" ++ dq ++ ", e.to_string()));";
    "    }";
    "    ";
    "    let client = PivxRpcClient::new(&rpc_node, rpc_user, rpc_password);";
    "    ";
    "    match client.get_balance(&address).await {";
    "        Ok(balance_result) => {";
    "            log_balance(" ++ dq ++ "PIVX" ++ dq ++ ", balance_result.total_balance);";
    "            Ok(balance_result)";
    "        },";
    "        Err(e) => {";
    "            Err(format!(" ++ dq ++ "Erreur balance PIVX: {}" ++ dq ++ ", e.to_string()))";
    "        }";
    "    }";
    "}";
    "";
    "/// Obtenir l'historique des transactions PIVX";
    "#[tauri::command]";
    "pub async fn get_pivx_transactions(";
    "    address: String,";
    "    rpc_user: Option<String>,";
    "    rpc_password: Option<String>,";
    "    rpc_node: String,";
    "    limit: u64,";
    ") -> Result<Vec<PivxTransaction>, String> {";
    "    secure_log(" ++ dq ++ "PIVX" ++ dq ++ ", &format!(" ++ dq ++ "Récupération historique pour: {}" ++ dq ++ ", address));";
    "    ";
    "    let client = PivxRpcClient::new(&rpc_node, rpc_user, rpc_password);";
    "    ";
    "    match client.get_transactions(&address, limit).await {";
    "        Ok(transactions) => {";
    "            Ok(transactions)";
    "        },";
    "        Err(e) => {";
    "            Err(format!(" ++ dq ++ "Erreur historique PIVX: {}" ++ dq ++ ", e.to_string()))";
    "        }";
    "    }";
    "}";
    "";
    "// ============================================================================";
    "// FONCTIONS D'UTILITAIRE PIVX";
    "// ============================================================================";
    "";
    "/// Masquer les credentials RPC PIVX (pour les logs)";
    "pub fn mask_pivx_credentials(rpc_user: &Option<String>, rpc_password: &Option<String>) -> String {";
    "    match (rpc_user, rpc_password) {";
    "        (Some(user), Some(pass)) => {";
    "            if user.is_empty() && pass.is_empty() {";
    "                " ++ dq ++ "Aucun credential" ++ dq ++ ".to_string()";
    "            } else {";
    "                let masked_user = if user.len() > 2 {";
    "                    format!(" ++ dq ++ "{}••••{}" ++ dq ++ ", &user[..1], &user[user.len()-1..])";
    "                } else {";
    "                    " ++ dq ++ "u••••" ++ dq ++ ".to_string()";
    "                };";
    "                ";
    "                let masked_pass = if pass.len() > 2 {";
    "                    format!(" ++ dq ++ "{}••••{}" ++ dq ++ ", &pass[..1], &pass[pass.len()-1..])";
    "                } else {";
    "                    " ++ dq ++ "p••••" ++ dq ++ ".to_string()";
    "                };";
    "                ";
    "                format!(" ++ dq ++ "{}:{}" ++ dq ++ ", masked_user, masked_pass)";
    "            }";
    "        },";
    "        _ => " ++ dq ++ "Aucun credential" ++ dq ++ ".to_string(),";
    "    }";
    "}";
    "";
    "/// Obtenir les nœuds PIVX par défaut";
    "pub fn get_default_pivx_nodes() -> Vec<String> {";
    "    vec![";
    "        " ++ dq ++ "http://localhost:51473" ++ dq ++ ".to_string(),";
    "        " ++ dq ++ "http://pivx-node.example.com:51473" ++ dq ++ ".to_string(),";
    "    ]";
    "}";
    "";
    "/// Obtenir la configuration par défaut pour PIVX";
    "pub fn get_default_pivx_config() -> PivxWalletData {";
    "    PivxWalletData {";
    "        address: String::new(),";
    "        rpc_user: None,";
    "        rpc_password: None,";
    "        rpc_node: get_default_pivx_nodes()[0].clone(),";
    "        zerocoin_min_confirmations: 6,";
    "        regular_min_confirmations: 2,";
    "    }";
    "}";
    "";
    "// ============================================================================";
    "// TESTS UNITAIRES PIVX";
    "// ============================================================================";
    "";
    "#[cfg(test)]";
    "mod tests {";
    "    use super::*;";
    "    ";
    "    #[test]";
    "    fn test_validate_pivx_address() {";
    "        // Adresse valide";
    "        assert!(validate_pivx_address(" ++ dq ++ "D5d132B7e7775B9C9B132B7e7775B9C9B132B7e7775B9C9B132B7e7" ++ dq ++ ").is_ok());";
    "        ";
    "        // Adresse trop courte";
    "        assert!(validate_pivx_address(" ++ dq ++ "D5d132B7e7775B9C9B132B7e7" ++ dq ++ ").is_err());";
    "        ";
    "        // Adresse trop longue";
    "        assert!(validate_pivx_address(" ++ dq ++ "D5d132B7e7775B9C9B132B7e7775B9C9B132B7e7775B9C9B132B7e7775B9C9B132B7e7775B9C9B132B7e7775B9C9B132B7e7" ++ dq ++ ").is_err());";
    "    }";
    "    ";
    "    #[test]";
    "    fn test_validate_rpc_credentials() {";
    "        // Aucun credential - valide";
    "        assert!(validate_rpc_credentials(&None, &None).is_ok());";
    "        ";
    "        // Credentials valides";
    "        assert!(validate_rpc_credentials(&Some(" ++ dq ++ "user" ++ dq ++ ".to_string()), &Some(" ++ dq ++ "pass" ++ dq ++ ".to_string())).is_ok());";
    "        ";
    "        // Credentials vides - invalides";
    "        assert!(validate_rpc_credentials(&Some(" ++ dq ++ "" ++ dq ++ ".to_string()), &Some(" ++ dq ++ "pass" ++ dq ++ ".to_string())).is_err());";
    "        assert!(validate_rpc_credentials(&Some(" ++ dq ++ "user" ++ dq ++ ".to_string()), &Some(" ++ dq ++ "" ++ dq ++ ".to_string())).is_err());";
    "    }";
    "    ";
    "    #[test]";
    "    fn test_mask_credentials() {";
    "        assert_eq!(";
    "            mask_pivx_credentials(&Some(" ++ dq ++ "admin" ++ dq ++ ".to_string()), &Some(" ++ dq ++ "password123" ++ dq ++ ".to_string())),";
    "            " ++ dq ++ "a••••n:p••••d" ++ dq ++ "";
    "        );";
    "        assert_eq!(";
    "            mask_pivx_credentials(&None, &None),";
    "            " ++ dq ++ "Aucun credential" ++ dq ++ "";
    "        );";
    "    }";
    "    ";
    "    #[test]";
    "    fn test_default_config() {";
    "        let config = get_default_pivx_config();";
    "        assert_eq!(config.rpc_node, " ++ dq ++ "http://localhost:51473" ++ dq ++ ");";
    "        assert_eq!(config.zerocoin_min_confirmations, 6);";
    "        assert_eq!(config.regular_min_confirmations, 2);";
    "    }";
    "}" ]%string.

(** [content]: every line of the literal ends with a newline. *)
Definition content : string :=
  String.concat EmptyString (map (fun l => (l ++ newline)%string) content_lines).

(** Python's [len(s)] counts code points: the bytes of the UTF-8 text
    that are not continuation bytes (10xxxxxx). *)
Fixpoint py_len (s : string) : nat :=
  match s with
  | EmptyString => 0
  | String c rest =>
      let n := nat_of_ascii c in
      if ((128 <=? n) && (n <? 192))%nat then py_len rest else S (py_len rest)
  end.

(** [s.count('\n')] *)
Fixpoint count_newlines (s : string) : nat :=
  match s with
  | EmptyString => 0
  | String c rest =>
      if (nat_of_ascii c =? 10)%nat then S (count_newlines rest)
      else count_newlines rest
  end.

(** [str(n)] *)
Definition str (n : nat) : string := NilZero.string_of_uint (Nat.to_uint n).

Definition pivx_integration_rs : string :=
  "../../src-tauri/src/pivx_integration.rs".

(** The script: the new file system and the lines printed.  ([print] with
    two arguments separates them by a space.) *)
Definition write_pivx_module (fs : gmap string File)
    : gmap string File * list string :=
  (<[pivx_integration_rs := TextFile content]> fs,
   [ "✅ Fichier pivx_integration.rs créé avec succès!";
     "📄 Taille: " ++ str (py_len content) ++ " caractères";
     "📋 Lignes: " ++ " " ++ str (count_newlines content) ]%string).

(** ** Pixels

    Rasterisation, for the marks that need no path: [paint()] and
    [paint_with_alpha()] under the identity transform with a solid or a
    linear-gradient source.  A gradient is sampled at the centre of the
    pixel, padded outside its stops, and composited with the OVER
    operator on premultiplied colours. *)

Definition Rgba : Type := Q * Q * Q * Q.

Definition stop_color (s : ColorStop) : Rgba :=
  (stop_r s, stop_g s, stop_b s, stop_a s).

Definition lerp (s1 s2 : ColorStop) (t : Q) : Rgba :=
  let k := (t - stop_offset s1) / (stop_offset s2 - stop_offset s1) in
  (stop_r s1 + (stop_r s2 - stop_r s1) * k,
   stop_g s1 + (stop_g s2 - stop_g s1) * k,
   stop_b s1 + (stop_b s2 - stop_b s1) * k,
   stop_a s1 + (stop_a s2 - stop_a s1) * k).

Fixpoint gradient_at (stops : list ColorStop) (t : Q) : Rgba :=
  match stops with
  | [] => (0, 0, 0, 0)
  | s1 :: rest =>
      match rest with
      | [] => stop_color s1
      | s2 :: _ =>
          if t <? stop_offset s2 then
            if Qle_bool t (stop_offset s1) then stop_color s1 else lerp s1 s2 t
          else gradient_at rest t
      end
  end.

(** The position of a point along the axis of a linear gradient. *)
Definition linear_t (x0 y0 x1 y1 px py : Q) : Q :=
  ((px - x0) * (x1 - x0) + (py - y0) * (y1 - y0)) /
  ((x1 - x0) * (x1 - x0) + (y1 - y0) * (y1 - y0)).

Definition premultiply (c : Rgba) : Rgba :=
  let '(r, g, b, a) := c in (r * a, g * a, b * a, a).

Definition scale_alpha (k : Q) (c : Rgba) : Rgba :=
  let '(r, g, b, a) := c in (r, g, b, a * k).

(** OVER, both colours premultiplied. *)
Definition over (src dst : Rgba) : Rgba :=
  let '(sr, sg, sb, sa) := src in
  let '(dr, dg, db, da) := dst in
  (sr + dr * (1 - sa), sg + dg * (1 - sa), sb + db * (1 - sa),
   sa + da * (1 - sa)).

Definition source_at (src : Source) (x y : Z) : option Rgba :=
  match src with
  | SrcPattern (Solid r g b a) => Some (r, g, b, a)
  | SrcPattern (LinearGradient x0 y0 x1 y1 stops) =>
      Some (gradient_at stops
              (linear_t x0 y0 x1 y1 (inject_Z x + 0.5) (inject_Z y + 0.5)))
  | _ => None
  end.

Definition mark_pixel (m : Mark) (x y : Z) (dst : Rgba) : option Rgba :=
  match m with
  | mkMark MPaint src [] _ _ _ =>
      option_map (fun c => over (premultiply c) dst) (source_at src x y)
  | mkMark (MPaintWithAlpha k) src [] _ _ _ =>
      option_map (fun c => over (premultiply (scale_alpha k c)) dst)
                 (source_at src x y)
  | _ => None
  end.

(** The premultiplied colour of pixel [(x, y)], where the model can tell. *)
Definition pixel (img : Image) (x y : Z) : option Rgba :=
  match img with
  | Picture w h marks =>
      if ((0 <=? x) && (x <? w) && (0 <=? y) && (y <? h))%Z then
        fold_left (fun acc m =>
                     match acc with
                     | Some dst => mark_pixel m x y dst
                     | None => None
                     end) marks (Some (0, 0, 0, 0))
      else None
  | Converted _ _ => None
  end.

(** An 8-bit channel: round to nearest. *)
Definition to8 (c : Q) : Z := Qfloor (c * 255 + 0.5).

Definition rgba8 (c : Rgba) : Z * Z * Z * Z :=
  let '(r, g, b, a) := c in (to8 r, to8 g, to8 b, to8 a).

(** Channel by channel within [tol]. *)
Definition close_to (tol : Q) (c d : Rgba) : Prop :=
  let '(r, g, b, a) := c in
  let '(r', g', b', a') := d in
  (r' - tol <= r /\ r <= r' + tol) /\ (g' - tol <= g /\ g <= g' + tol) /\
  (b' - tol <= b /\ b <= b' + tol) /\ (a' - tol <= a /\ a <= a' + tol).

(** ** Vocabulary of the properties *)

(** *** Runs *)

(** Total correctness on values: from every generator state the
    computation returns, with a value in [R]. *)
Definition returns {G A} (R : A -> Prop) (m : M G A) : Prop :=
  forall g, exists a g' tr, m g = Returned a g' tr /\ R a.

Definition total {G A} (m : M G A) : Prop := returns (fun _ => True) m.

(** A computation that neither draws from the generator nor emits. *)
Definition silent {G A} (m : M G A) : Prop :=
  forall g a g' tr, m g = Returned a g' tr -> g' = g /\ tr = [].

(** Fuel that lets every loop of the script finish on a [W] by [H]
    canvas. *)
Definition fuel_needed (W H : Z) : nat := Z.to_nat (Z.max W H) + 60.

(** A run of the script from generator state [g] on file system [fs]. *)
Definition run_script {G} {RS : RandomSource G} {ML : MathLib}
    (W H : Z) (fuel : nat) (s : Z) (g : G) (fs : gmap string File)
    : World * option Failure :=
  exec (initial_world fs) (trace_of (script W H fuel s g)).

(** *** Trace automata

    A trace property that composes along [bind] is given as an automaton
    reading the trace; [emits] says every returning run of a computation
    takes the automaton from one state to another. *)

Definition is_random (e : Event) : bool :=
  match e with
  | RandomSeed _ | RandomRandom _ | RandomUniform _ _ _ | RandomChoice _ _ =>
      true
  | _ => false
  end.

Fixpoint accepts {St} (step : St -> Event -> option St) (q : St) (tr : Trace)
    : option St :=
  match tr with
  | [] => Some q
  | e :: rest =>
      match step q e with
      | Some q' => accepts step q' rest
      | None => None
      end
  end.

Definition emits {G St A} (step : St -> Event -> option St) (q q' : St)
    (m : M G A) : Prop :=
  forall g a g' tr, m g = Returned a g' tr -> accepts step q tr = Some q'.

(** The automaton of the main context: the depth of [save()] nesting.  It
    accepts calls to [random] and calls on [ctx]; a [translate] or [rotate]
    only inside a [save()], a [restore()] only after a [save()]. *)
Definition scope_op (d : nat) (op : Op) : option nat :=
  match op with
  | Save => Some (S d)
  | Restore => match d with S d' => Some d' | O => None end
  | Translate _ _ | Rotate _ => match d with S _ => Some d | O => None end
  | _ => Some d
  end.

Definition scope_step (d : nat) (e : Event) : option nat :=
  match e with
  | RandomSeed _ | RandomRandom _ | RandomUniform _ _ _ | RandomChoice _ _ =>
      Some d
  | Draw Main (SetSourceSurface _ _ _) => None
  | Draw Main op => scope_op d op
  | _ => None
  end.

(** The calls on one context are well scoped. *)
Fixpoint scope_ops (d : nat) (ops : list Op) : option nat :=
  match ops with
  | [] => Some d
  | op :: rest =>
      match scope_op d op with
      | Some d' => scope_ops d' rest
      | None => None
      end
  end.

(** The automaton of the city layer: calls to [random] and calls on
    [cctx] that neither save, restore nor transform. *)
Definition city_step (q : unit) (e : Event) : option unit :=
  match e with
  | RandomSeed _ | RandomRandom _ | RandomUniform _ _ _ | RandomChoice _ _ =>
      Some tt
  | Draw City op =>
      match op with
      | Save | Restore | Translate _ _ | Rotate _ | SetSourceSurface _ _ _ =>
          None
      | _ => Some tt
      end
  | _ => None
  end.

Abbreviation scoped d d' m := (emits scope_step d%nat d'%nat m).
Abbreviation on_city m := (emits city_step tt tt m).

(** *** Readings of a trace *)

Definition SurfaceId_eqb (a b : SurfaceId) : bool :=
  match a, b with
  | Main, Main | City, City | BlurredCity, BlurredCity => true
  | _, _ => false
  end.

(** The calls of a trace on the context of surface [s]. *)
Definition ops_on (s : SurfaceId) (tr : Trace) : list Op :=
  flat_map (fun e =>
              match e with
              | Draw s' op => if SurfaceId_eqb s s' then [op] else []
              | _ => []
              end) tr.

Definition uniform_results (tr : Trace) : list Q :=
  flat_map (fun e => match e with RandomUniform _ _ u => [u] | _ => [] end) tr.

Definition source_alphas (tr : Trace) : list Q :=
  flat_map (fun e =>
              match e with
              | Draw Main (SetSourceRgba _ _ _ a) => [a]
              | _ => []
              end) tr.

Definition line_ends (tr : Trace) : list Q :=
  flat_map (fun e => match e with Draw Main (LineTo x _) => [x] | _ => [] end) tr.

(** *** Canvases *)

(** A list of calls on one canvas. *)
Fixpoint draw_ops (lookup : SurfaceId -> option Image) (cv : Canvas)
    (ops : list Op) : Failure + Canvas :=
  match ops with
  | [] => inr cv
  | op :: rest =>
      match exec_op lookup cv op with
      | inr cv' => draw_ops lookup cv' rest
      | inl f => inl f
      end
  end.

Definition no_surface : SurfaceId -> option Image := fun _ => None.

Definition set_main (w : World) (cv : Canvas) : World :=
  mkWorld (Some cv) (wd_city w) (wd_blurred w) (wd_fs w) (wd_stdout w).

Definition set_city (w : World) (cv : Canvas) : World :=
  mkWorld (wd_main w) (Some cv) (wd_blurred w) (wd_fs w) (wd_stdout w).

(** The transform that is in force again once [d] pending [save()]s have
    been restored. *)
Definition base_ctm (d : nat) (c : Context) : list Xform :=
  match d with
  | O => gs_ctm (cx_gs c)
  | S k =>
      match nth_error (cx_saved c) k with
      | Some gs => gs_ctm gs
      | None => []
      end
  end.

(** The image ImageMagick leaves in [_city_blurred.png]. *)
Definition blurred_of (city : Canvas) : Image :=
  Converted convert_argv (picture city).

(** The main canvas after the blurred city has been composited on it. *)
Definition composite (main : Canvas) (blurred : Image) : Canvas :=
  put_mark (with_ctx main (set_source (cv_ctx main) (SrcImage blurred 0 0)))
           (MPaintWithAlpha 0.85) true.

(** *** The stages of a run *)

(** The events of the straight-line steps around the blur and of the
    export. *)
Definition blur_events : Trace :=
  [ WriteToPng City city_layer_png;
    WriteToPng Main base_layer_png;
    SubprocessRun convert_argv;
    CreateFromPng BlurredCity city_blurred_png ].

Definition composite_events : Trace :=
  [ Draw Main (SetSourceSurface BlurredCity 0 0);
    Draw Main (PaintWithAlpha 0.85) ].

Definition export_events : Trace :=
  [ WriteToPng Main solarpunk_bg_png;
    PrintLine "PNG saved -> solarpunk_bg.png" ].

(** The traces of the stages whose events depend on the run. *)
Record StageTraces : Type := mkStages {
  t_sky : Trace;
  t_sun : Trace;
  t_buildings : Trace;
  t_city : Trace;
  t_haze : Trace;
  t_foreground : Trace
}.

(** The trace of a finished run, stage by stage. *)
Definition assemble (W H s : Z) (st : StageTraces) : Trace :=
  [RandomSeed s; CreateSurface Main W H] ++ t_sky st ++ t_sun st ++
  [CreateSurface City W H] ++ t_buildings st ++ t_city st ++
  blur_events ++ composite_events ++ t_haze st ++ t_foreground st ++
  export_events.

(** *** The skyline *)

(** The width and height policies of the variants. *)
Definition width_ok (t : BType) (bw : Q) : Prop :=
  match t with
  | megablock => 60 <= bw /\ bw <= 110
  | _ => 18 <= bw /\ bw <= 55
  end.

Definition height_ok (t : BType) (bh : Q) : Prop :=
  match t with
  | tower => 80 <= bh /\ bh <= 240
  | dome => 50 <= bh /\ bh <= 120
  | spire => 150 <= bh /\ bh <= 320
  | antenna => 180 <= bh /\ bh <= 350
  | megablock => 60 <= bh /\ bh <= 160
  | block => 40 <= bh /\ bh <= 100
  end.

(** [advances W start bs cursor]: the buildings [bs] are what a cursor
    leaves behind when it walks from [start] to [cursor], placing a
    building wherever it stands left of [W + 20] and then moving on by
    the building's width times a factor in [[0.5, 1.1)]. *)
Fixpoint advances (W : Z) (start : Q) (bs : list Building) (cursor : Q)
    : Prop :=
  match bs with
  | [] => cursor = start
  | (x, bw, bh, t) :: rest =>
      x = start /\ x < inject_Z (W + 20) /\
      width_ok t bw /\ height_ok t bh /\
      exists f, 0.5 <= f /\ f < 1.1 /\ advances W (x + bw * f) rest cursor
  end.


(** *** The sky *)

Definition sky_stops : list ColorStop :=
  [ mkStop 0.0 0.97 0.96 0.88 1; mkStop 0.12 0.96 0.95 0.86 1;
    mkStop 0.30 0.93 0.95 0.85 1; mkStop 0.50 0.88 0.93 0.82 1;
    mkStop 0.70 0.82 0.90 0.76 1; mkStop 1.0 0.72 0.84 0.65 1 ].

Definition sky_top : Rgba := (0.97, 0.96, 0.88, 1).
Definition sky_bottom : Rgba := (0.72, 0.84, 0.65, 1).

(** *** What is drawn from the generator *)

(** The next [n] values of [random()] from state [g], and the state after
    them. *)
Fixpoint draws {G} {RS : RandomSource G} (n : nat) (g : G) : list Q :=
  match n with
  | O => []
  | S n' => fst (random g) :: draws n' (snd (random g))
  end.

Fixpoint skip {G} {RS : RandomSource G} (n : nat) (g : G) : G :=
  match n with
  | O => g
  | S n' => skip n' (snd (random g))
  end.

(** The events of items that each consume one value of [random()]. *)
Definition events_with_draws {A} (ev : A -> Q -> Trace) (l : list A)
    (rs : list Q) : Trace :=
  concat (map (fun xr : A * Q => ev (fst xr) (snd xr)) (combine l rs)).

(** The calls of sun ray [i] when [random()] returns [r]. *)
Definition ray_events {ML : MathLib} (W H : Z) (i : Z) (r : Q) : Trace :=
  let u := -80 + (120 - -80) * r in
  [ RandomUniform (-80) 120 u;
    Draw Main Save;
    Draw Main (Translate (sun_x W) (sun_y H));
    Draw Main (Rotate (i * (2 * pi / 24) + 0.13));
    Draw Main (MoveTo 40 0);
    Draw Main (LineTo (350 + u) 0);
    Draw Main (SetSourceRgba (218 / 255) (180 / 255) (40 / 255)
                 (if (i mod 3 =? 0)%Z then 0.14 else 0.08));
    Draw Main (SetLineWidth (if (i mod 3 =? 0)%Z then 1.5 else 0.6));
    Draw Main Stroke;
    Draw Main Restore ].

(** The calls of one sample of a hill when [random()] returns [r]. *)
Definition hill_sample {ML : MathLib} (base_y : Q) (x : Z) (r : Q) : Trace :=
  let u := 0 + (1 - 0) * r in
  [ RandomUniform 0 1 u;
    Draw Main (LineTo x (base_y + sin (x * 0.003 + u) * 35
                         + sin (x * 0.008) * 18)) ].

(** Hill [h2] is more opaque and darker than hill [h1]. *)
Definition denser_and_darker (h1 h2 : Q * Q * (Q * Q * Q)) : Prop :=
  let '(_, a1, (r1, g1, b1)) := h1 in
  let '(_, a2, (r2, g2, b2)) := h2 in
  a1 < a2 /\ r2 < r1 /\ g2 < g1 /\ b2 < b1.

Fixpoint chain {A} (R : A -> A -> Prop) (l : list A) : Prop :=
  match l with
  | x :: ((y :: _) as rest) => R x y /\ chain R rest
  | _ => True
  end.

(** *** The silhouette *)







(** *** Values and events of a run *)

(** Whenever the computation returns, its value is in [R] and every call
    of its trace is in [P]. *)
Definition yields {G A} (P : Event -> Prop) (R : A -> Prop) (m : M G A)
    : Prop :=
  forall g a g' tr, m g = Returned a g' tr -> R a /\ Forall P tr.

(** *** Colours *)

Definition in_unit (x : Q) : Prop := 0 <= x /\ x <= 1.

Definition stop_ok (s : ColorStop) : Prop :=
  in_unit (stop_offset s) /\ in_unit (stop_r s) /\ in_unit (stop_g s) /\
  in_unit (stop_b s) /\ in_unit (stop_a s).

(** The stops of a gradient: components in range, offsets increasing. *)
Definition stops_ok (stops : list ColorStop) : Prop :=
  Forall stop_ok stops /\
  chain (fun s1 s2 => stop_offset s1 < stop_offset s2) stops.

Definition pattern_ok (p : Pattern) : Prop :=
  match p with
  | Solid r g b a => in_unit r /\ in_unit g /\ in_unit b /\ in_unit a
  | LinearGradient _ _ _ _ stops => stops_ok stops
  | RadialGradient _ _ _ _ _ _ stops => stops_ok stops
  end.

(** A call hands cairo only colour components, alphas and stop offsets
    between 0 and 1. *)
Definition colours_ok (e : Event) : Prop :=
  match e with
  | Draw _ (SetSourceRgba r g b a) =>
      in_unit r /\ in_unit g /\ in_unit b /\ in_unit a
  | Draw _ (SetSource p) => pattern_ok p
  | Draw _ (PaintWithAlpha a) => in_unit a
  | _ => True
  end.

(** *** Windows *)

(** A [rectangle()] call stays inside the box with corner [(x0, y0)],
    width [w0] and height [h0]. *)
Definition rectangle_within (x0 y0 w0 h0 : Q) (e : Event) : Prop :=
  match e with
  | Draw _ (Rectangle x y w h) =>
      x0 <= x /\ x + w <= x0 + w0 /\ y0 <= y /\ y + h <= y0 + h0
  | _ => True
  end.

(** *** Vines *)

(** The horizontal offset of a vine at height [y]. *)
Definition vine_offset {ML : MathLib} (side : Side) (y : Q) : Q :=
  let offset := sin (y * 0.008) * 25 + sin (y * 0.02) * 12 in
  if is_right side then - offset else offset.

(** [n] samples of a vine, 3 apart, from height [y] down the canvas. *)
Fixpoint vine_samples {ML : MathLib} (n : nat) (x_base : Q) (side : Side)
    (y : Q) : list (Q * Q) :=
  match n with
  | O => []
  | S n' =>
      (x_base + vine_offset side y, y) :: vine_samples n' x_base side (y + 3)
  end.

(** The number of samples between [y_start] and [y_end]. *)
Definition vine_length (y_start y_end : Q) : nat :=
  Z.to_nat (Qceiling ((y_end - y_start) / 3)).

(** The four steps of [draw_vine] after its early return. *)
Definition vine_body {G} {RS : RandomSource G} {ML : MathLib}
    (points : list (Q * Q)) (side : Side) (thickness : Q) : M G unit :=
  vine_stem points thickness ;;
  vine_tendrils points side thickness ;;
  vine_leaves points side ;;
  vine_curls points side.

(** [points[i]] where it exists. *)
Definition pt (points : list (Q * Q)) (i : Z) : Q * Q :=
  nth (Z.to_nat i) points (0, 0).

(** The curve the stem draws at index [i]: both control points on sample
    [i], the end point on sample [i + 1]. *)
Definition stem_curve (points : list (Q * Q)) (i : Z) : Trace :=
  [ Draw Main (CurveTo (fst (pt points i)) (snd (pt points i))
                       (fst (pt points i)) (snd (pt points i))
                       (fst (pt points (i + 1))) (snd (pt points (i + 1)))) ].

(** *** Strokes *)

Definition is_stroke (e : Event) : bool :=
  match e with Draw _ Stroke => true | _ => false end.

(** The number of [stroke()] calls of a trace. *)
Definition strokes (tr : Trace) : nat := length (List.filter is_stroke tr).

(** The calls of frond [j] of a fern of height [fern_h] and green [g]. *)
Definition frond_events (fern_h g : Q) (j : Z) : Trace :=
  let fy : Q := inject_Z (- j * 8) in
  let frond_len := (fern_h - inject_Z (j * 8)) * 0.4 in
  let side : Q := if (j mod 2 =? 0)%Z then 1 else -1 in
  [ Draw Main (SetSourceRgba 0.18 (g * 1.1) 0.15 0.22);
    Draw Main (SetLineWidth 0.6);
    Draw Main (MoveTo 0 fy);
    Draw Main (CurveTo (side * frond_len * 0.5) (fy - 3)
                       (side * frond_len) (fy - 1)
                       (side * frond_len) (fy + 2));
    Draw Main Stroke ].

(** *** Placement *)

(** An [arc()] call has its centre in [[x0, x1]] by [[y0, y1]] and its
    radius in [[r0, r1]]. *)
Definition arc_within (x0 x1 y0 y1 r0 r1 : Q) (e : Event) : Prop :=
  match e with
  | Draw _ (Arc x y r _ _) =>
      (x0 <= x /\ x <= x1) /\ (y0 <= y /\ y <= y1) /\ (r0 <= r /\ r <= r1)
  | _ => True
  end.

(** A [translate()] call moves the origin into [[x0, x1]] by
    [[y0, y1]]. *)
Definition anchor_within (x0 x1 y0 y1 : Q) (e : Event) : Prop :=
  match e with
  | Draw _ (Translate x y) => (x0 <= x /\ x <= x1) /\ (y0 <= y /\ y <= y1)
  | _ => True
  end.

(** *** Draws *)

(** From every generator state the computation returns after exactly [n]
    calls of [random()]. *)
Definition consumes {G} {RS : RandomSource G} {A} (n : nat) (m : M G A)
    : Prop :=
  forall g, exists a tr, m g = Returned a (skip n g) tr.

(** The number of leaves of a vine sampled between [y_start] and
    [y_end]: one every 18 samples, none on a vine of fewer than two
    samples. *)
Definition vine_leaf_count (y_start y_end : Q) : nat :=
  let n := Z.of_nat (vine_length y_start y_end) in
  if (n <? 2)%Z then 0%nat else length (range3 0 (n - 1) 18).

(** The values of [random()] the foreground stages use on a [W] by [H]
    canvas: one per hill sample, two per vine leaf, and the fixed counts
    of the scatter stages. *)
Definition foreground_draws (W H : Z) : nat :=
  4 * length (range3 0 (W + 50) 3) +
  (2 * vine_leaf_count 50 (inject_Z (H - 50)) +
   (2 * vine_leaf_count 200 (inject_Z (H - 100)) +
    (2 * vine_leaf_count 80 (inject_Z (H - 50)) +
     2 * vine_leaf_count 250 (inject_Z (H - 100))))) +
  (60 * 5 + 35 * 6 + (40 * 4 + 80 * 5) + 3000 * 4).

(** *** Blocks *)




(** *** The sky, everywhere *)

(** A colour of the sky: opaque, each channel between its values at the
    two ends of the gradient. *)
Definition sky_colour (c : Rgba) : Prop :=
  let '(r, g, b, a) := c in
  (0.72 <= r /\ r <= 0.97) /\ (0.84 <= g /\ g <= 0.96) /\
  (0.65 <= b /\ b <= 0.88) /\ a == 1.

(** *** Files *)

(** The four paths the generator writes. *)
Definition generator_paths : list string :=
  [city_layer_png; base_layer_png; city_blurred_png; solarpunk_bg_png].

(** The calls of a run up to the [subprocess.run] of the blur. *)
Definition before_blur (W H s : Z) (st : StageTraces) : Trace :=
  [RandomSeed s; CreateSurface Main W H] ++ t_sky st ++ t_sun st ++
  [CreateSurface City W H] ++ t_buildings st ++ t_city st ++
  [WriteToPng City city_layer_png; WriteToPng Main base_layer_png].

(** ** A concrete generator and a concrete [math]

    Used to run the script on examples: a linear congruential generator
    and polynomial approximations of sine and cosine. *)

Definition lcg_modulus : Z := 2147483648.

Definition lcg_next (s : Z) : Z := ((1103515245 * s + 12345) mod lcg_modulus)%Z.

Definition lcg_seed (s : Z) : Z := (s mod lcg_modulus)%Z.

Definition lcg_random (s : Z) : Q * Z :=
  let s' := lcg_next s in (Qmake s' 2147483648, s').

Definition lcg_randbelow (n : nat) (s : Z) : nat * Z :=
  let s' := lcg_next s in (Z.to_nat (s' mod Z.of_nat n), s').

Lemma lcg_next_range s : (0 <= lcg_next s < lcg_modulus)%Z.
Proof. unfold lcg_next. apply Z.mod_pos_bound. reflexivity. Qed.

Lemma lcg_random_range s :
  0 <= fst (lcg_random s) /\ fst (lcg_random s) < 1.
Proof.
  pose proof (lcg_next_range s) as Hr. unfold lcg_modulus in Hr.
  unfold lcg_random, Qle, Qlt; simpl. lia.
Qed.

Lemma lcg_randbelow_range n s :
  (0 < n)%nat -> (fst (lcg_randbelow n s) < n)%nat.
Proof.
  intros Hn. unfold lcg_randbelow; simpl.
  pose proof (Z.mod_pos_bound (lcg_next s) (Z.of_nat n)). lia.
Qed.

#[export] Instance lcg : RandomSource Z := {|
  seed := lcg_seed;
  random := lcg_random;
  randbelow := lcg_randbelow;
  random_range := lcg_random_range;
  randbelow_range := lcg_randbelow_range
|}.

Definition poly_sin (x : Q) : Q :=
  Qred (x - x * x * x / 6 + x * x * x * x * x / 120).

Definition poly_cos (x : Q) : Q :=
  Qred (1 - x * x / 2 + x * x * x * x / 24).

#[export] Instance poly_math : MathLib := {|
  pi := 3.14159265;
  sin := poly_sin;
  cos := poly_cos
|}.

(** * Proofs *)

Lemma Qltb_lt x y : (x <? y) = true <-> x < y.
Proof.
  unfold Qltb. rewrite negb_true_iff. split; intros Hxy.
  - apply Qnot_le_lt. intros Hle. apply Qle_bool_iff in Hle. congruence.
  - apply not_true_is_false. intros Hle. apply Qle_bool_iff in Hle.
    now apply (Qlt_not_le x y).
Qed.

Lemma Qltb_ge x y : (x <? y) = false <-> y <= x.
Proof.
  unfold Qltb. rewrite negb_false_iff. apply Qle_bool_iff.
Qed.

(** ** The logic of computations *)

Section Logic.
Context {G : Type} {RS : RandomSource G} {ML : MathLib}.
#[local] Abbreviation returns := (returns (G := G)).

Lemma bind_returned {A B} (m : M G A) (k : A -> M G B) g b g2 t :
  bind m k g = Returned b g2 t <->
  exists a g1 t1 t2,
    m g = Returned a g1 t1 /\ k a g1 = Returned b g2 t2 /\ t = t1 ++ t2.
Proof.
  unfold bind. split.
  - destruct (m g) as [e | a g1 t1]; [discriminate |].
    destruct (k a g1) as [e | b' g2' t2] eqn:Hk; [discriminate |].
    intros [= -> -> <-]. now exists a, g1, t1, t2.
  - intros (a & g1 & t1 & t2 & -> & -> & ->). reflexivity.
Qed.

Lemma returns_weaken {A} (R R' : A -> Prop) m :
  returns R m -> (forall a, R a -> R' a) -> returns R' m.
Proof.
  intros Hm HR g. destruct (Hm g) as (a & g' & tr & Heq & Ha).
  exists a, g', tr. auto.
Qed.

Lemma returns_ret {A} (R : A -> Prop) a : R a -> returns R (ret a).
Proof. intros Ha g. now exists a, g, []. Qed.

Lemma returns_bind {A B} (R : A -> Prop) (R' : B -> Prop) m k :
  returns R m -> (forall a, R a -> returns R' (k a)) -> returns R' (bind m k).
Proof.
  intros Hm Hk g. destruct (Hm g) as (a & g1 & t1 & Heq & Ha).
  destruct (Hk a Ha g1) as (b & g2 & t2 & Heq' & Hb).
  exists b, g2, (t1 ++ t2). split; [| exact Hb].
  apply bind_returned. now exists a, g1, t1, t2.
Qed.

Lemma returns_emit e : returns (fun _ => True) (emit (G := G) e).
Proof. intros g. now exists tt, g, [e]. Qed.

Lemma returns_call c op : returns (fun _ => True) (call (G := G) c op).
Proof. apply returns_emit. Qed.

Lemma returns_random_random :
  returns (fun r => 0 <= r /\ r < 1) random_random.
Proof.
  intros g. unfold random_random.
  pose proof (random_range g) as Hr. destruct (random g) as [r g'].
  now exists r, g', [RandomRandom r].
Qed.

Lemma returns_random_uniform a b :
  a <= b ->
  returns (fun u => a <= u /\ u <= b /\ (a < b -> u < b)) (random_uniform a b).
Proof.
  intros Hab g. unfold random_uniform.
  pose proof (random_range g) as [Hr0 Hr1]. destruct (random g) as [r g'].
  simpl in *. eexists _, g', _. split; [reflexivity |].
  assert (Hd : 0 <= b - a) by lra.
  pose proof (Qmult_le_0_compat _ _ Hd Hr0) as H0.
  assert (H1 : 0 <= (b - a) * (1 - r)) by (apply Qmult_le_0_compat; lra).
  repeat split; [lra | lra |].
  intros Hlt.
  assert (H2 : 0 < (b - a) * (1 - r)) by (apply Qmult_lt_0_compat; lra).
  lra.
Qed.

Lemma returns_random_choice {A} (l : list A) :
  l <> [] -> returns (fun x => In x l) (random_choice l).
Proof.
  intros Hl g. destruct l as [| d l']; [congruence |].
  unfold random_choice.
  pose proof (randbelow_range (length (d :: l')) g ltac:(simpl; lia)) as Hi.
  destruct (randbelow _ g) as [i g']. simpl in Hi.
  eexists _, g', _. split; [reflexivity |].
  apply nth_In. simpl. lia.
Qed.

Lemma returns_for_each {A} (l : list A) (body : A -> M G unit) (R : unit -> Prop) :
  R tt ->
  (forall x, In x l -> returns (fun _ => True) (body x)) ->
  returns R (for_each l body).
Proof.
  intros HR. induction l as [| x l IH]; intros Hb; simpl.
  - now apply returns_ret.
  - eapply returns_bind.
    + apply Hb. now left.
    + intros _ _. apply IH. intros y Hy. apply Hb. now right.
Qed.

Lemma returns_while {St} (I : St -> Prop) (measure : St -> nat)
    (cond : St -> bool) (body : St -> M G St) :
  (forall s, I s -> cond s = true ->
     returns (fun s' => I s' /\ (measure s' < measure s)%nat) (body s)) ->
  forall fuel s, I s -> (measure s < fuel)%nat ->
    returns (fun s' => I s' /\ cond s' = false) (while fuel cond body s).
Proof.
  intros Hbody. induction fuel as [| fuel IH]; intros s Hs Hm; [lia |].
  simpl. destruct (cond s) eqn:Hc.
  - eapply returns_bind; [apply (Hbody s Hs Hc) |].
    intros s' [Hs' Hlt]. apply IH; [exact Hs' | lia].
  - apply returns_ret. auto.
Qed.

Lemma returns_item {A} (l : list A) i :
  (i < length l)%nat -> returns (fun x => In x l) (item (G := G) l i).
Proof.
  intros Hi. unfold item. destruct (nth_error l i) as [x |] eqn:Hx.
  - apply returns_ret. eapply nth_error_In; eauto.
  - apply nth_error_None in Hx. lia.
Qed.

End Logic.

(** ** What each stage emits *)

Section Automaton.

Context {G : Type} {RS : RandomSource G} {ML : MathLib}.
#[local] Abbreviation emits := (emits (G := G)).
Context {St : Type} (step : St -> Event -> option St).

Lemma accepts_app q t1 t2 :
  accepts step q (t1 ++ t2) =
  match accepts step q t1 with Some q' => accepts step q' t2 | None => None end.
Proof.
  revert q. induction t1 as [| e t1 IH]; intros q; simpl; [reflexivity |].
  destruct (step q e); [apply IH | reflexivity].
Qed.

Hypothesis step_random : forall q e, is_random e = true -> step q e = Some q.

Lemma emits_ret {A} q (a : A) : emits step q q (ret a).
Proof. intros g a' g' tr [= _ _ <-]. reflexivity. Qed.

Lemma emits_raise {A} q q' e : emits step q q' (raise (A := A) e).
Proof. intros g a g' tr [=]. Qed.

Lemma emits_bind {A B} q q1 q2 (m : M G A) (k : A -> M G B) :
  emits step q q1 m -> (forall a, emits step q1 q2 (k a)) -> emits step q q2 (bind m k).
Proof.
  intros Hm Hk g b g2 t Hrun.
  apply bind_returned in Hrun as (a & g1 & t1 & t2 & H1 & H2 & ->).
  rewrite accepts_app, (Hm _ _ _ _ H1). exact (Hk _ _ _ _ _ H2).
Qed.

Lemma emits_emit q q' e : step q e = Some q' -> emits step q q' (emit e).
Proof. intros He g a g' tr [= _ _ <-]. simpl. now rewrite He. Qed.

Lemma emits_call q q' c op :
  step q (Draw c op) = Some q' -> emits step q q' (call c op).
Proof. apply emits_emit. Qed.

Lemma emits_random_random q : emits step q q random_random.
Proof.
  intros g a g' tr. unfold random_random. destruct (random g) as [r g1].
  intros [= _ _ <-]. simpl. now rewrite step_random.
Qed.

Lemma emits_random_uniform q a b : emits step q q (random_uniform a b).
Proof.
  intros g u g' tr. unfold random_uniform. destruct (random g) as [r g1].
  intros [= _ _ <-]. simpl. now rewrite step_random.
Qed.

Lemma emits_random_choice {A} q (l : list A) : emits step q q (random_choice l).
Proof.
  intros g x g' tr. unfold random_choice. destruct l as [| d l']; [intros [=] |].
  destruct (randbelow _ g) as [i g1].
  intros [= _ _ <-]. simpl. now rewrite step_random.
Qed.

Lemma emits_random_seed q s : emits step q q (random_seed s).
Proof. intros g x g' tr [= _ _ <-]. simpl. now rewrite step_random. Qed.

Lemma emits_item {A} q (l : list A) i : emits step q q (item l i).
Proof.
  unfold item. destruct (nth_error l i); [apply emits_ret | apply emits_raise].
Qed.

Lemma emits_for_each {A} q (l : list A) (body : A -> M G unit) :
  (forall x, emits step q q (body x)) -> emits step q q (for_each l body).
Proof.
  intros Hb. induction l as [| x l IH]; simpl.
  - apply emits_ret.
  - eapply emits_bind; [apply Hb | intros _; exact IH].
Qed.

Lemma emits_while {S'} q fuel (cond : S' -> bool) (body : S' -> M G S') s :
  (forall s, emits step q q (body s)) -> emits step q q (while fuel cond body s).
Proof.
  intros Hb. revert s. induction fuel as [| fuel IH]; intros s; simpl.
  - apply emits_raise.
  - destruct (cond s); [| apply emits_ret].
    eapply emits_bind; [apply Hb | exact IH].
Qed.

End Automaton.

Lemma scope_step_random d e : is_random e = true -> scope_step d e = Some d.
Proof. destruct e; simpl; congruence. Qed.

Lemma city_step_random q e : is_random e = true -> city_step q e = Some q.
Proof. destruct q, e; simpl; congruence. Qed.

(** Proof search over the rules. *)
Ltac emits_step lem :=
  first
    [ apply emits_ret
    | apply emits_raise
    | apply (emits_random_uniform _ lem)
    | apply (emits_random_random _ lem)
    | apply (emits_random_choice _ lem)
    | apply (emits_random_seed _ lem)
    | apply emits_item
    | apply emits_call; reflexivity
    | apply emits_emit; reflexivity
    | apply (emits_for_each _); intros
    | apply (emits_while _); intros
    | eapply emits_bind; [| intros ]
    | match goal with
      | |- emits _ _ _ (if ?b then _ else _) => destruct b
      | |- emits _ _ _ (match ?x with _ => _ end) => destruct x
      | |- emits _ _ _ (let '(_, _) := ?x in _) => destruct x
      end ].

Ltac emits_auto lem := repeat (emits_step lem).

Section StageTraces.
Context {G : Type} {RS : RandomSource G} {ML : MathLib}.
Variables W H : Z.
Variable fuel : nat.

Ltac scoped_auto := emits_auto scope_step_random.
Ltac city_auto := emits_auto city_step_random.

Lemma scoped_sky : scoped 0 0 (sky_gradient (G := G) H).
Proof. unfold sky_gradient. scoped_auto. Qed.

Lemma scoped_sun_ray i : scoped 0 0 (sun_ray (G := G) W H i).
Proof. unfold sun_ray, rgb. scoped_auto. Qed.

Lemma scoped_sun : scoped 0 0 (sun (G := G) W H).
Proof.
  unfold sun, sun_glow, sun_rays, sun_core, rgb. scoped_auto.
Qed.

Lemma scoped_haze : scoped 0 0 (haze_overlay (G := G) W H).
Proof. unfold haze_overlay. scoped_auto. Qed.

Lemma scoped_hills : scoped 0 0 (rolling_hills (G := G) W H fuel).
Proof. unfold rolling_hills, draw_hill, hill_step. scoped_auto. Qed.

Lemma scoped_draw_vine x_base y_start y_end side thickness :
  scoped 0 0 (draw_vine (G := G) fuel x_base y_start y_end side thickness).
Proof.
  unfold draw_vine, vine_points, vine_step, vine_stem, vine_tendrils,
    vine_leaves, vine_curls, point_at, rgb.
  scoped_auto.
Qed.

Lemma scoped_vines : scoped 0 0 (vines (G := G) W H fuel).
Proof.
  unfold vines.
  repeat (eapply emits_bind; [apply scoped_draw_vine | intros _]).
  apply scoped_draw_vine.
Qed.

Lemma scoped_fern i : scoped 0 0 (fern (G := G) W H i).
Proof. unfold fern. scoped_auto. Qed.

Lemma scoped_fern_carpet : scoped 0 0 (fern_carpet (G := G) W H).
Proof. unfold fern_carpet. scoped_auto. Qed.

Lemma scoped_ground : scoped 0 0 (ground_gradient (G := G) W H).
Proof. unfold ground_gradient. scoped_auto. Qed.

Lemma scoped_draw_panel p : scoped 0 0 (draw_panel (G := G) p).
Proof. unfold draw_panel, rgb. scoped_auto. Qed.

Lemma scoped_glass_panels : scoped 0 0 (glass_panels (G := G) W H).
Proof.
  unfold glass_panels. apply emits_for_each. intros p. apply scoped_draw_panel.
Qed.

Lemma scoped_corner_ornaments : scoped 0 0 (corner_ornaments (G := G) W).
Proof. unfold corner_ornaments, rgb. scoped_auto. Qed.

Lemma scoped_floating_leaf i : scoped 0 0 (floating_leaf (G := G) W H i).
Proof. unfold floating_leaf. scoped_auto. Qed.

Lemma scoped_floating_leaves : scoped 0 0 (floating_leaves (G := G) W H).
Proof. unfold floating_leaves. scoped_auto. Qed.

Lemma scoped_pollen : scoped 0 0 (pollen (G := G) W H).
Proof. unfold pollen, pollen_grain. scoped_auto. Qed.

Lemma scoped_frame : scoped 0 0 (frame (G := G) W H).
Proof. unfold frame, rgb. scoped_auto. Qed.

Lemma scoped_grain : scoped 0 0 (grain (G := G) W H).
Proof. unfold grain, grain_dot. scoped_auto. Qed.

Lemma on_city_generate_buildings :
  on_city (generate_buildings (G := G) W fuel).
Proof. unfold generate_buildings, building_step. city_auto. Qed.

Lemma on_city_draw_building am ox oy b :
  on_city (draw_building (G := G) H cctx am ox oy b).
Proof.
  unfold draw_building, draw_tower, draw_dome, draw_spire, draw_antenna,
    draw_megablock, draw_block, cctx.
  city_auto.
Qed.

Lemma on_city_draw_city_silhouette am bs ox oy :
  on_city (draw_city_silhouette (G := G) H cctx am bs ox oy).
Proof.
  unfold draw_city_silhouette. apply emits_for_each. intros b.
  apply on_city_draw_building.
Qed.

End StageTraces.

(** ** Termination and totality *)

Lemma range3_In start stop step i :
  (0 < step)%Z -> In i (range3 start stop step) ->
  (start <= i < stop)%Z.
Proof.
  intros Hs. unfold range3. rewrite in_map_iff.
  intros (k & <- & Hk). apply in_seq in Hk.
  destruct (Z_lt_le_dec 0 ((stop - start + step - 1) / step)) as [Hpos | Hneg].
  - assert (Hk' : (Z.of_nat k < (stop - start + step - 1) / step)%Z) by lia.
    assert (Hk'' : (Z.of_nat k + 1 <= (stop - start + step - 1) / step)%Z) by lia.
    assert (Hmul : (step * (Z.of_nat k + 1) <= stop - start + step - 1)%Z).
    { etransitivity; [apply Z.mul_le_mono_nonneg_l; [lia | exact Hk''] |].
      apply Z.mul_div_le. lia. }
    nia.
  - rewrite Z2Nat.nonpos in Hk by lia. lia.
Qed.

Lemma Qceiling_decrease (a b : Q) :
  b + 1 <= a -> 0 < a ->
  (Z.to_nat (Qceiling b) < Z.to_nat (Qceiling a))%nat.
Proof.
  intros Hba Ha.
  pose proof (Qceiling_lt b) as Hb. pose proof (Qle_ceiling a) as Hca.
  unfold Z.sub in Hb. rewrite inject_Z_plus in Hb.
  change (inject_Z (- (1))) with (-1) in Hb.
  assert (Hlt : inject_Z (Qceiling b) < inject_Z (Qceiling a)) by lra.
  assert (Hpos : inject_Z 0 < inject_Z (Qceiling a)) by (change (inject_Z 0) with 0; lra).
  rewrite <- Zlt_Qlt in Hlt, Hpos.
  lia.
Qed.

Section Totality.
Context {G : Type} {RS : RandomSource G} {ML : MathLib}.
#[local] Abbreviation returns := (returns (G := G)).
#[local] Abbreviation total := (total (G := G)).

Lemma total_of_returns {A} (R : A -> Prop) m : returns R m -> total m.
Proof. intros Hm. eapply returns_weaken; [exact Hm | auto]. Qed.

Lemma total_ret {A} (a : A) : total (ret a).
Proof. now apply returns_ret. Qed.

Lemma total_bind {A B} (m : M G A) (k : A -> M G B) :
  total m -> (forall a, total (k a)) -> total (bind m k).
Proof. intros Hm Hk. eapply returns_bind; [exact Hm | intros a _; apply Hk]. Qed.

Lemma total_emit e : total (emit e).
Proof. apply returns_emit. Qed.

Lemma total_call c op : total (call c op).
Proof. apply returns_emit. Qed.

Lemma total_random_random : total random_random.
Proof. exact (total_of_returns _ _ returns_random_random). Qed.

Lemma total_random_uniform a b : total (random_uniform a b).
Proof.
  intros g. unfold random_uniform. destruct (random g) as [r g'].
  now eexists _, g', _.
Qed.

Lemma total_random_choice {A} (d : A) l : total (random_choice (d :: l)).
Proof.
  eapply total_of_returns. apply returns_random_choice. discriminate.
Qed.

Lemma total_random_seed s : total (random_seed s).
Proof. intros g. now eexists tt, _, _. Qed.

Lemma total_for_each {A} (l : list A) (body : A -> M G unit) :
  (forall x, In x l -> total (body x)) -> total (for_each l body).
Proof. intros Hb. now apply returns_for_each. Qed.

End Totality.

Ltac total_step :=
  first
    [ apply total_ret
    | apply total_random_uniform
    | apply total_random_random
    | apply total_random_choice
    | apply total_random_seed
    | apply total_call
    | apply total_emit
    | apply total_for_each; intros
    | apply total_bind; [| intros ]
    | match goal with
      | |- total (if ?b then _ else _) => destruct b
      | |- total (match ?x with _ => _ end) => destruct x
      end ].

Ltac total_auto := repeat total_step.

Section StageTotality.
Context {G : Type} {RS : RandomSource G} {ML : MathLib}.
#[local] Abbreviation total := (total (G := G)).
Variables W H : Z.
Variable fuel : nat.

Lemma total_sky : total (sky_gradient (G := G) H).
Proof. unfold sky_gradient. total_auto. Qed.

Lemma total_sun : total (sun (G := G) W H).
Proof. unfold sun, sun_glow, sun_rays, sun_core, sun_ray, rgb. total_auto. Qed.

Lemma total_draw_building am ox oy b :
  total (draw_building (G := G) H cctx am ox oy b).
Proof.
  unfold draw_building, draw_tower, draw_dome, draw_spire, draw_antenna,
    draw_megablock, draw_block.
  total_auto.
Qed.

Lemma total_draw_city_silhouette am bs ox oy :
  total (draw_city_silhouette (G := G) H cctx am bs ox oy).
Proof.
  unfold draw_city_silhouette. apply total_for_each. intros b _.
  apply total_draw_building.
Qed.

Lemma total_blur_city : total (blur_city (G := G)).
Proof. unfold blur_city. total_auto. Qed.

Lemma total_composite_city : total (composite_city (G := G)).
Proof. unfold composite_city. total_auto. Qed.

Lemma total_haze : total (haze_overlay (G := G) W H).
Proof. unfold haze_overlay. total_auto. Qed.

Lemma total_fern_carpet : total (fern_carpet (G := G) W H).
Proof. unfold fern_carpet, fern. total_auto. Qed.

Lemma total_ground : total (ground_gradient (G := G) W H).
Proof. unfold ground_gradient. total_auto. Qed.

Lemma total_draw_panel p : total (draw_panel (G := G) p).
Proof. unfold draw_panel, rgb. total_auto. Qed.

Lemma total_glass_panels : total (glass_panels (G := G) W H).
Proof.
  unfold glass_panels. apply total_for_each. intros p _. apply total_draw_panel.
Qed.

Lemma total_corner_ornaments : total (corner_ornaments (G := G) W).
Proof. unfold corner_ornaments, rgb. total_auto. Qed.

Lemma total_floating_leaves : total (floating_leaves (G := G) W H).
Proof. unfold floating_leaves, floating_leaf. total_auto. Qed.

Lemma total_pollen : total (pollen (G := G) W H).
Proof. unfold pollen, pollen_grain. total_auto. Qed.

Lemma total_frame : total (frame (G := G) W H).
Proof. unfold frame, rgb. total_auto. Qed.

Lemma total_grain : total (grain (G := G) W H).
Proof. unfold grain, grain_dot. total_auto. Qed.

Lemma total_export : total (export (G := G)).
Proof. unfold export. total_auto. Qed.

(** The hills loop steps an integer by 3. *)
Lemma total_draw_hill h :
  (Z.to_nat (W + 50) < fuel)%nat -> total (draw_hill (G := G) W H fuel h).
Proof.
  intros Hfuel. destruct h as [[base_y alpha] [[hr hg] hb]]. unfold draw_hill.
  apply total_bind; [apply total_call | intros _].
  apply total_bind; [| intros _; total_auto].
  eapply total_of_returns.
  apply (returns_while (fun _ => True) (fun x => Z.to_nat (W + 50 - x))).
  - intros x _ Hc. apply Z.ltb_lt in Hc. unfold hill_step.
    eapply returns_bind; [apply total_random_uniform | intros u _].
    eapply returns_bind; [apply total_call | intros _ _].
    apply returns_ret. split; [exact I | lia].
  - exact I.
  - rewrite Z.sub_0_r. exact Hfuel.
Qed.

Lemma total_rolling_hills :
  (Z.to_nat (W + 50) < fuel)%nat -> total (rolling_hills (G := G) W H fuel).
Proof.
  intros Hfuel. unfold rolling_hills. apply total_for_each. intros h _.
  now apply total_draw_hill.
Qed.

Lemma total_point_at (points : list (Q * Q)) i :
  (0 <= i < len points)%Z -> total (point_at (G := G) points i).
Proof.
  intros Hi. unfold point_at. eapply total_of_returns. apply returns_item.
  unfold len in Hi. lia.
Qed.

Lemma returns_vine_points x_base y_start y_end side :
  (Z.to_nat (Qceiling (y_end - y_start)) < fuel)%nat ->
  total (vine_points (G := G) fuel x_base y_start y_end side).
Proof.
  intros Hfuel. unfold vine_points.
  apply total_bind; [| intros st; apply total_ret].
  eapply total_of_returns.
  apply (returns_while (fun _ => True)
           (fun st : list (Q * Q) * Q => Z.to_nat (Qceiling (y_end - snd st)))).
  - intros [points y] _ Hc. simpl in Hc. apply Qltb_lt in Hc.
    unfold vine_step. apply returns_ret. split; [exact I |].
    simpl. apply Qceiling_decrease; lra.
  - exact I.
  - exact Hfuel.
Qed.

Lemma total_vine_stem points thickness :
  (2 <= len points)%Z -> total (vine_stem (G := G) points thickness).
Proof.
  intros Hlen. unfold vine_stem, rgb.
  repeat (apply total_bind; [first [apply total_call | apply total_point_at; lia] | intros ?]).
  apply total_bind; [| intros _; apply total_call].
  apply total_for_each. intros i Hi. apply range3_In in Hi; [| lia].
  destruct (i + 1 <? len points)%Z eqn:Hlt; [| apply total_ret].
  apply Z.ltb_lt in Hlt.
  repeat (apply total_bind; [apply total_point_at; lia | intros ?]).
  apply total_call.
Qed.

Lemma total_vine_tendrils points side thickness :
  total (vine_tendrils (G := G) points side thickness).
Proof.
  unfold vine_tendrils, rgb.
  repeat (apply total_bind; [apply total_call | intros ?]).
  apply total_for_each. intros i Hi. apply range3_In in Hi; [| lia].
  repeat (apply total_bind;
            [first [apply total_call | apply total_point_at; lia] | intros ?]).
  apply total_call.
Qed.

Lemma total_vine_leaves points side :
  total (vine_leaves (G := G) points side).
Proof.
  unfold vine_leaves, rgb.
  apply total_for_each. intros i Hi. apply range3_In in Hi; [| lia].
  apply total_bind; [apply total_point_at; lia | intros [px py]].
  total_auto.
Qed.

Lemma total_vine_curls points side :
  total (vine_curls (G := G) points side).
Proof.
  unfold vine_curls, rgb.
  apply total_for_each. intros i Hi. apply range3_In in Hi; [| lia].
  apply total_bind; [apply total_point_at; lia | intros [px py]].
  total_auto.
Qed.

Lemma total_draw_vine x_base y_start y_end side thickness :
  (Z.to_nat (Qceiling (y_end - y_start)) < fuel)%nat ->
  total (draw_vine (G := G) fuel x_base y_start y_end side thickness).
Proof.
  intros Hfuel. unfold draw_vine.
  apply total_bind; [now apply returns_vine_points | intros points].
  destruct (len points <? 2)%Z eqn:Hlen; [apply total_ret |].
  apply Z.ltb_ge in Hlen.
  apply total_bind; [now apply total_vine_stem | intros _].
  apply total_bind; [apply total_vine_tendrils | intros _].
  apply total_bind; [apply total_vine_leaves | intros _].
  apply total_vine_curls.
Qed.

Lemma vine_fuel (y_end : Z) (y_start : Q) :
  0 <= y_start -> (Z.to_nat H < fuel)%nat -> (y_end <= H)%Z ->
  (Z.to_nat (Qceiling (inject_Z y_end - y_start)) < fuel)%nat.
Proof.
  intros Hy Hfuel Hle.
  assert (Hc : (Qceiling (inject_Z y_end - y_start) <= H)%Z).
  { rewrite <- (Qceiling_Z H). apply Qceiling_resp_le.
    rewrite Zle_Qle in Hle. lra. }
  lia.
Qed.

Lemma total_vines :
  (Z.to_nat H < fuel)%nat -> total (vines (G := G) W H fuel).
Proof.
  intros Hfuel. unfold vines.
  repeat (apply total_bind;
            [apply total_draw_vine; apply vine_fuel; [lra | exact Hfuel | lia]
            | intros _]).
  apply total_draw_vine; apply vine_fuel; [lra | exact Hfuel | lia].
Qed.

End StageTotality.

(** ** The skyline *)

Lemma width_ok_bounds t bw : width_ok t bw -> 18 <= bw /\ bw <= 110.
Proof. destruct t; simpl; lra. Qed.

Lemma advances_snoc W start bs x bw bh t f :
  advances W start bs x -> x < inject_Z (W + 20) ->
  width_ok t bw -> height_ok t bh -> 0.5 <= f -> f < 1.1 ->
  advances W start (bs ++ [(x, bw, bh, t)]) (x + bw * f).
Proof.
  revert start. induction bs as [| [[[x0 bw0] bh0] t0] bs IH]; intros start.
  - simpl. intros -> Hx Hw Hh Hf0 Hf1. repeat split; auto. now exists f.
  - simpl. intros (Hs & Hx0 & Hw0 & Hh0 & f0 & Hf00 & Hf01 & Hadv) Hx Hw Hh Hf0 Hf1.
    repeat split; auto. exists f0. repeat split; auto.
Qed.

Lemma advances_cursor_le W start bs cursor :
  advances W start bs cursor -> start <= cursor.
Proof.
  revert start. induction bs as [| [[[x bw] bh] t] bs IH]; intros start; simpl.
  - intros ->. lra.
  - intros (Hx & _ & Hw & _ & f & Hf0 & _ & Hadv). subst start.
    apply IH in Hadv. apply width_ok_bounds in Hw.
    assert (0 <= bw * f) by (apply Qmult_le_0_compat; lra). lra.
Qed.



Section Buildings.
Context {G : Type} {RS : RandomSource G} {ML : MathLib}.
#[local] Abbreviation returns := (returns (G := G)).
Variable W : Z.
Variable fuel : nat.

Lemma returns_building_step bs x :
  returns (fun st' =>
             exists bw bh t f,
               st' = (bs ++ [(x, bw, bh, t)], x + bw * f) /\
               width_ok t bw /\ height_ok t bh /\ 0.5 <= f /\ f < 1.1)
          (building_step (G := G) (bs, x)).
Proof.
  unfold building_step.
  eapply returns_bind; [apply returns_random_choice; discriminate |].
  intros t _.
  eapply returns_bind with (R := fun bw => width_ok t bw).
  { destruct t; simpl;
      (eapply returns_weaken; [apply returns_random_uniform; lra |]);
      intros u (H1 & H2 & _); lra. }
  intros bw Hw.
  eapply returns_bind with (R := fun bh => height_ok t bh).
  { destruct t; simpl;
      (eapply returns_weaken; [apply returns_random_uniform; lra |]);
      intros u (H1 & H2 & _); lra. }
  intros bh Hh.
  eapply returns_bind; [apply (returns_random_uniform 0.5 1.1); lra |].
  intros f (Hf0 & _ & Hf1).
  apply returns_ret. exists bw, bh, t, f.
  split; [reflexivity |]. repeat split; auto. apply Hf1. lra.
Qed.

Lemma returns_generate_buildings :
  (Z.to_nat (W + 40) < fuel)%nat ->
  returns (fun bs => exists cursor,
             advances W (-20) bs cursor /\ inject_Z (W + 20) <= cursor)
          (generate_buildings (G := G) W fuel).
Proof.
  intros Hfuel. unfold generate_buildings.
  eapply returns_bind.
  - apply (returns_while
             (fun st : list Building * Q => advances W (-20) (fst st) (snd st))
             (fun st => Z.to_nat (Qceiling (inject_Z (W + 20) - snd st)))).
    + intros [bs x] Hadv Hc. simpl in *. apply Qltb_lt in Hc.
      eapply returns_weaken; [apply returns_building_step |].
      intros st' (bw & bh & t & f & -> & Hw & Hh & Hf0 & Hf1). simpl. split.
      * now apply advances_snoc.
      * apply Qceiling_decrease; [| lra].
        pose proof (width_ok_bounds _ _ Hw) as Hwb.
        assert (0 <= (bw - 18) * f) by (apply Qmult_le_0_compat; lra).
        lra.
    + reflexivity.
    + simpl.
      assert (Hc : (Qceiling (inject_Z (W + 20) - -20) <= W + 40)%Z).
      { rewrite <- (Qceiling_Z (W + 40)). apply Qceiling_resp_le.
        rewrite !inject_Z_plus.
        change (inject_Z 20) with 20. change (inject_Z 40) with 40. lra. }
      lia.
  - intros [bs x] [Hadv Hc]. simpl in *. apply Qltb_ge in Hc.
    apply returns_ret. now exists x.
Qed.

End Buildings.

Section Skyline.
Context {G : Type} {RS : RandomSource G} {ML : MathLib}.
#[local] Abbreviation returns := (returns (G := G)).


End Skyline.


(** ** The run, stage by stage *)

Section ScriptShape.
Context {G : Type} {RS : RandomSource G} {ML : MathLib}.
#[local] Abbreviation total := (total (G := G)).
Variables W H : Z.
Variable fuel : nat.
Hypothesis Hfuel : (fuel_needed W H <= fuel)%nat.

Lemma bind_run {A B} (m : M G A) (k : A -> M G B) g a g1 t1 b g2 t2 :
  m g = Returned a g1 t1 -> k a g1 = Returned b g2 t2 ->
  bind m k g = Returned b g2 (t1 ++ t2).
Proof. intros H1 H2. apply bind_returned. now exists a, g1, t1, t2. Qed.

Lemma total_run (m : M G unit) g :
  total m -> exists g' tr, m g = Returned tt g' tr.
Proof.
  intros Hm. destruct (Hm g) as ([] & g' & tr & Heq & _). now exists g', tr.
Qed.

Lemma scoped_foreground : scoped 0 0 (foreground (G := G) W H fuel).
Proof.
  unfold foreground.
  eapply emits_bind; [apply scoped_hills | intros _].
  eapply emits_bind; [apply scoped_vines | intros _].
  eapply emits_bind; [apply scoped_fern_carpet | intros _].
  eapply emits_bind; [apply scoped_ground | intros _].
  eapply emits_bind; [apply scoped_glass_panels | intros _].
  eapply emits_bind; [apply scoped_corner_ornaments | intros _].
  eapply emits_bind; [apply scoped_floating_leaves | intros _].
  eapply emits_bind; [apply scoped_pollen | intros _].
  eapply emits_bind; [apply scoped_frame | intros _].
  apply scoped_grain.
Qed.

Lemma total_foreground : total (foreground (G := G) W H fuel).
Proof.
  unfold fuel_needed in Hfuel. unfold foreground.
  apply total_bind; [apply total_rolling_hills; lia | intros _].
  apply total_bind; [apply total_vines; lia | intros _].
  apply total_bind; [apply total_fern_carpet | intros _].
  apply total_bind; [apply total_ground | intros _].
  apply total_bind; [apply total_glass_panels | intros _].
  apply total_bind; [apply total_corner_ornaments | intros _].
  apply total_bind; [apply total_floating_leaves | intros _].
  apply total_bind; [apply total_pollen | intros _].
  apply total_bind; [apply total_frame | intros _].
  apply total_grain.
Qed.

Lemma script_stages s g :
  exists g1 g2 buildings g3 g4 g' st,
    sky_gradient H (seed s) = Returned tt (seed s) (t_sky st) /\
    sun W H (seed s) = Returned tt g1 (t_sun st) /\
    generate_buildings W fuel g1 = Returned buildings g2 (t_buildings st) /\
    draw_city_silhouette H cctx 1.0 buildings 0 0 g2
      = Returned tt g3 (t_city st) /\
    haze_overlay W H g3 = Returned tt g4 (t_haze st) /\
    foreground W H fuel g4 = Returned tt g' (t_foreground st) /\
    script W H fuel s g = Returned tt g' (assemble W H s st).
Proof.
  unfold fuel_needed in Hfuel.
  destruct (total_run _ (seed s) (total_sky H)) as (g0 & tsky & Hsky).
  assert (Hg0 : g0 = seed s).
  { revert Hsky. unfold sky_gradient. cbv [bind call emit]. now intros [= <- _]. }
  subst g0.
  destruct (total_run _ (seed s) (total_sun W H)) as (g1 & tsun & Hsun).
  destruct (returns_generate_buildings W fuel ltac:(lia) g1)
    as (bs & g2 & tb & Hb & _).
  destruct (total_run _ g2 (total_draw_city_silhouette H 1.0 bs 0 0))
    as (g3 & tc & Hc).
  destruct (total_run _ g3 (total_haze W H)) as (g4 & th & Hh).
  assert (Hg4 : g4 = g3).
  { revert Hh. unfold haze_overlay. cbv [bind call emit]. now intros [= <- _]. }
  subst g4.
  destruct (total_run _ g3 total_foreground) as (g' & tf & Hf).
  exists g1, g2, bs, g3, g3, g', (mkStages tsky tsun tb tc th tf). simpl.
  repeat split; try assumption.
  unfold script, city_layer, blur_city, composite_city, export.
  cbv [bind random_seed emit call ret].
  rewrite Hsky, Hsun, Hb, Hc, Hh, Hf.
  unfold assemble, blur_events, composite_events, export_events. simpl.
  f_equal. rewrite <- !app_assoc. reflexivity.
Qed.

End ScriptShape.

(** ** What a trace does to the world *)

Lemma exec_app w t1 t2 :
  exec w (t1 ++ t2) =
  match exec w t1 with
  | (w1, None) => exec w1 t2
  | (w1, Some f) => (w1, Some f)
  end.
Proof.
  revert w. induction t1 as [| e t1 IH]; intros w; simpl; [reflexivity |].
  destruct (exec_event w e) as [f | w']; [reflexivity | apply IH].
Qed.

Lemma ops_on_app s t1 t2 : ops_on s (t1 ++ t2) = ops_on s t1 ++ ops_on s t2.
Proof. unfold ops_on. apply flat_map_app. Qed.


(** One scoped call: it succeeds whatever surfaces exist, keeps the size
    of the canvas and keeps the transform and the stack below the pending
    [save()]s. *)
Lemma scope_op_exec lookup cv d d' op :
  scope_op d op = Some d' ->
  (forall s x y, op <> SetSourceSurface s x y) ->
  (d <= length (cx_saved (cv_ctx cv)))%nat ->
  exists cv',
    exec_op lookup cv op = inr cv' /\
    exec_op no_surface cv op = inr cv' /\
    cv_width cv' = cv_width cv /\ cv_height cv' = cv_height cv /\
    (d' <= length (cx_saved (cv_ctx cv')))%nat /\
    base_ctm d' (cv_ctx cv') = base_ctm d (cv_ctx cv) /\
    skipn d' (cx_saved (cv_ctx cv')) = skipn d (cx_saved (cv_ctx cv)).
Proof.
  intros Hstep Hsrc Hd.
  destruct cv as [wi he marks [gs saved path]]. simpl in Hd.
  destruct op; simpl in Hstep;
    try (injection Hstep as <-; eexists; repeat split; simpl; auto; fail).
  - exfalso. eapply Hsrc. reflexivity.
  - injection Hstep as <-. eexists. repeat split; simpl; auto; try lia.
    destruct d; reflexivity.
  - destruct d as [| k]; [discriminate |]. injection Hstep as <-.
    destruct saved as [| g0 rest]; simpl in Hd; [lia |].
    eexists. repeat split; simpl; auto; try lia.
    destruct k; reflexivity.
  - destruct d as [| k]; [discriminate |]. injection Hstep as <-.
    eexists. repeat split; simpl; auto.
  - destruct d as [| k]; [discriminate |]. injection Hstep as <-.
    eexists. repeat split; simpl; auto.
Qed.

Lemma exec_scoped tr : forall cv d d',
  accepts scope_step d tr = Some d' ->
  (d <= length (cx_saved (cv_ctx cv)))%nat ->
  exists cv',
    draw_ops no_surface cv (ops_on Main tr) = inr cv' /\
    (forall w, wd_main w = Some cv -> exec w tr = (set_main w cv', None)) /\
    cv_width cv' = cv_width cv /\ cv_height cv' = cv_height cv /\
    (d' <= length (cx_saved (cv_ctx cv')))%nat /\
    base_ctm d' (cv_ctx cv') = base_ctm d (cv_ctx cv) /\
    skipn d' (cx_saved (cv_ctx cv')) = skipn d (cx_saved (cv_ctx cv)).
Proof.
  induction tr as [| e tr IH]; intros cv d d' Hacc Hd.
  - injection Hacc as <-. exists cv. repeat split; auto.
    intros w Hmain. destruct w; simpl in *; subst; reflexivity.
  - simpl in Hacc. destruct (scope_step d e) as [d1 |] eqn:Hstep; [| discriminate].
    assert (Hcases :
      (is_random e = true /\ d1 = d) \/
      (exists op, e = Draw Main op /\ scope_op d op = Some d1 /\
                  forall s x y, op <> SetSourceSurface s x y)).
    { destruct e as [| | | | | [] op | | | |]; simpl in Hstep; try discriminate;
        try (left; split; [reflexivity | congruence]).
      right. exists op. split; [reflexivity |].
      destruct op; try (split; [exact Hstep | discriminate]). discriminate. }
    destruct Hcases as [[Hr ->] | (op & -> & Hop & Hsrc)].
    + destruct (IH cv d d' Hacc Hd) as (cv' & H1 & H2 & Hrest).
      exists cv'. split; [| split; [| exact Hrest]].
      * destruct e; try discriminate; exact H1.
      * intros w Hmain. destruct e; try discriminate; simpl; now apply H2.
    + destruct (scope_op_exec no_surface cv d d1 op Hop Hsrc Hd)
        as (cv1 & _ & He' & Hw1 & Hh1 & Hd1 & Hb1 & Hs1).
      destruct (IH cv1 d1 d' Hacc Hd1)
        as (cv' & H1 & H2 & Hw' & Hh' & Hd' & Hb' & Hs').
      exists cv'. simpl. rewrite He'.
      repeat split; try congruence.
      intros w Hmain. rewrite Hmain.
      destruct (scope_op_exec (image_of w) cv d d1 op Hop Hsrc Hd)
        as (cv1' & He & He'' & _).
      rewrite He. assert (cv1' = cv1) by congruence. subst cv1'.
      exact (H2 (set_main w cv1) eq_refl).
Qed.

Lemma exec_city tr : forall cv,
  accepts city_step tt tr = Some tt ->
  exists cv',
    draw_ops no_surface cv (ops_on City tr) = inr cv' /\
    (forall w, wd_city w = Some cv -> exec w tr = (set_city w cv', None)) /\
    cv_width cv' = cv_width cv /\ cv_height cv' = cv_height cv.
Proof.
  induction tr as [| e tr IH]; intros cv Hacc.
  - exists cv. repeat split; auto.
    intros w Hcity. destruct w; simpl in *; subst; reflexivity.
  - simpl in Hacc. destruct (city_step tt e) as [[] |] eqn:Hstep; [| discriminate].
    destruct e as [| | | | | [] op | | | |]; simpl in Hstep; try discriminate;
      try (destruct (IH cv Hacc) as (cv' & H1 & H2 & Hrest);
           exists cv'; repeat split; try apply Hrest; assumption).
    assert (Hex : exists cv1, (forall lookup, exec_op lookup cv op = inr cv1) /\
                              cv_width cv1 = cv_width cv /\
                              cv_height cv1 = cv_height cv).
    { destruct op; try discriminate; eexists; repeat split. }
    destruct Hex as (cv1 & He & Hw1 & Hh1).
    destruct (IH cv1 Hacc) as (cv' & H1 & H2 & Hw' & Hh').
    exists cv'. simpl. rewrite He.
    repeat split; try congruence.
    intros w Hcity. rewrite Hcity, He. exact (H2 (set_city w cv1) eq_refl).
Qed.

Lemma png_paths_distinct :
  city_layer_png <> base_layer_png /\ city_layer_png <> city_blurred_png.
Proof. split; discriminate. Qed.

Lemma exec_blur_events w main city rest :
  wd_main w = Some main -> wd_city w = Some city ->
  exec w (blur_events ++ rest) =
  exec (mkWorld (Some main) (Some city) (Some (blurred_of city))
          (<[city_blurred_png := ImageFile (blurred_of city)]>
             (<[base_layer_png := ImageFile (picture main)]>
                (<[city_layer_png := ImageFile (picture city)]> (wd_fs w))))
          (wd_stdout w)) rest.
Proof.
  intros Hmain Hcity. destruct w as [m c b fs out]. simpl in Hmain, Hcity.
  subst m c. unfold blur_events.
  cbn [app exec exec_event image_of option_map wd_main wd_city wd_blurred
       wd_fs wd_stdout].
  unfold exec_subprocess, convert_argv at 1.
  rewrite lookup_insert_ne by (apply not_eq_sym, png_paths_distinct).
  rewrite lookup_insert_eq.
  cbn [exec exec_event wd_main wd_city wd_blurred wd_fs wd_stdout].
  rewrite lookup_insert_eq. reflexivity.
Qed.

Lemma exec_composite_events w main blurred rest :
  wd_main w = Some main -> wd_blurred w = Some blurred ->
  exec w (composite_events ++ rest) =
  exec (set_main w (composite main blurred)) rest.
Proof.
  intros Hmain Hb. destruct w as [m c b fs out]. simpl in Hmain, Hb.
  subst m b. reflexivity.
Qed.

Section ScriptExec.
Variables W H s : Z.
Variable st : StageTraces.
Hypothesis Hsky : accepts scope_step 0%nat (t_sky st ++ t_sun st) = Some 0%nat.
Hypothesis Hcity :
  accepts city_step tt (t_buildings st ++ t_city st) = Some tt.
Hypothesis Hfg :
  accepts scope_step 0%nat (t_haze st ++ t_foreground st) = Some 0%nat.

Lemma script_exec :
  exists main1 city main3,
    draw_ops no_surface (blank W H) (ops_on Main (t_sky st ++ t_sun st))
      = inr main1 /\
    draw_ops no_surface (blank W H) (ops_on City (t_buildings st ++ t_city st))
      = inr city /\
    draw_ops no_surface (composite main1 (blurred_of city))
      (ops_on Main (t_haze st ++ t_foreground st)) = inr main3 /\
    gs_ctm (cx_gs (cv_ctx main3)) = [] /\
    cx_saved (cv_ctx main3) = [] /\
    forall fs,
      exec (initial_world fs) (assemble W H s st) =
      (mkWorld (Some main3) (Some city) (Some (blurred_of city))
         (<[solarpunk_bg_png := ImageFile (picture main3)]>
            (<[city_blurred_png := ImageFile (blurred_of city)]>
               (<[base_layer_png := ImageFile (picture main1)]>
                  (<[city_layer_png := ImageFile (picture city)]> fs))))
         ["PNG saved -> solarpunk_bg.png"%string],
       None).
Proof.
  destruct (exec_scoped _ (blank W H) 0%nat 0%nat Hsky (Nat.le_refl _))
    as (main1 & Hd1 & He1 & _ & _ & _ & Hctm1 & Hst1).
  destruct (exec_city _ (blank W H) Hcity) as (city & Hd2 & He2 & _ & _).
  set (main2 := composite main1 (blurred_of city)).
  destruct (exec_scoped _ main2 0%nat 0%nat Hfg (Nat.le_0_l _))
    as (main3 & Hd3 & He3 & _ & _ & _ & Hctm3 & Hst3).
  exists main1, city, main3.
  simpl in Hctm1, Hst1, Hctm3, Hst3. rewrite skipn_O in *.
  repeat split; try assumption.
  - rewrite Hctm3. exact Hctm1.
  - rewrite Hst3. exact Hst1.
  - intros fs.
    set (w0 := mkWorld (Some (blank W H)) None None fs []).
    set (w1 := mkWorld (Some main1) (Some (blank W H)) None fs []).
    set (fs3 := <[city_blurred_png := ImageFile (blurred_of city)]>
                  (<[base_layer_png := ImageFile (picture main1)]>
                     (<[city_layer_png := ImageFile (picture city)]> fs))).
    set (w2 := mkWorld (Some main2) (Some city) (Some (blurred_of city)) fs3 []).
    unfold assemble.
    change (exec (initial_world fs) ([RandomSeed s; CreateSurface Main W H] ++ ?t))
      with (exec w0 t).
    rewrite (app_assoc (t_sky st)), exec_app, (He1 w0 eq_refl).
    change (exec (set_main w0 main1) ([CreateSurface City W H] ++ ?t))
      with (exec w1 t).
    rewrite (app_assoc (t_buildings st)), exec_app, (He2 w1 eq_refl).
    rewrite (exec_blur_events _ main1 city) by reflexivity.
    rewrite (exec_composite_events _ main1 (blurred_of city)) by reflexivity.
    change (set_main _ (composite main1 (blurred_of city))) with w2.
    rewrite (app_assoc (t_haze st)), exec_app, (He3 w2 eq_refl).
    reflexivity.
Qed.

End ScriptExec.

(** ** The silhouette on the city layer *)






Section CityLayer.
Context {G : Type} {RS : RandomSource G} {ML : MathLib}.
Variables W H : Z.
Variable fuel : nat.









End CityLayer.

(** ** The claims on the whole run *)

Lemma scope_ops_app d o1 o2 :
  scope_ops d (o1 ++ o2) =
  match scope_ops d o1 with Some d' => scope_ops d' o2 | None => None end.
Proof.
  revert d. induction o1 as [| op o1 IH]; intros d; simpl; [reflexivity |].
  destruct (scope_op d op); [apply IH | reflexivity].
Qed.

Lemma accepts_scope_ops tr : forall d d',
  accepts scope_step d tr = Some d' -> scope_ops d (ops_on Main tr) = Some d'.
Proof.
  induction tr as [| e tr IH]; intros d d' Hacc; [exact Hacc |].
  simpl in Hacc. destruct (scope_step d e) as [d1 |] eqn:Hstep; [| discriminate].
  destruct e as [| | | | | [] op | | | |]; simpl in Hstep; try discriminate;
    try (injection Hstep as <-; now apply IH).
  assert (Hop : scope_op d op = Some d1)
    by (destruct op; try discriminate; exact Hstep).
  change (ops_on Main (Draw Main op :: tr)) with (op :: ops_on Main tr).
  cbn [scope_ops]. rewrite Hop. now apply IH.
Qed.

Lemma city_no_main tr :
  accepts city_step tt tr = Some tt -> ops_on Main tr = [].
Proof.
  induction tr as [| e tr IH]; intros Hacc; [reflexivity |].
  simpl in Hacc. destruct (city_step tt e) as [[] |] eqn:Hstep; [| discriminate].
  destruct e as [| | | | | [] op | | | |]; simpl in Hstep; try discriminate;
    now apply IH.
Qed.

Section Claims.
Context {G : Type} {RS : RandomSource G} {ML : MathLib}.
Variables W H s : Z.
Variable fuel : nat.

Lemma script_seeded g1 g2 :
  script W H fuel s g1 = script W H fuel s g2.
Proof. unfold script. unfold bind at 1 3. reflexivity. Qed.

(** The stage traces of a finished run, with what each group of stages
    may emit. *)
Lemma script_run g :
  (fuel_needed W H <= fuel)%nat ->
  exists (g' g_sun g_haze : G) st,
    script W H fuel s g = Returned tt g' (assemble W H s st) /\
    sky_gradient H (seed s) = Returned tt (seed s) (t_sky st) /\
    sun W H (seed s) = Returned tt g_sun (t_sun st) /\
    haze_overlay W H g_haze = Returned tt g_haze (t_haze st) /\
    accepts scope_step 0%nat (t_sky st ++ t_sun st) = Some 0%nat /\
    accepts city_step tt (t_buildings st ++ t_city st) = Some tt /\
    accepts scope_step 0%nat (t_haze st ++ t_foreground st) = Some 0%nat.
Proof.
  intros Hfuel.
  destruct (script_stages W H fuel Hfuel s g)
    as (g1 & g2 & bs & g3 & g4 & g' & st & Hsky & Hsun & Hb & Hc & Hh & Hf & Hs).
  exists g', g1, g3, st.
  assert (Hg4 : g4 = g3).
  { revert Hh. unfold haze_overlay. cbv [bind call emit]. now intros [= <- _]. }
  subst g4.
  repeat split; try assumption.
  - rewrite accepts_app, (scoped_sky H _ _ _ _ Hsky). exact (scoped_sun W H _ _ _ _ Hsun).
  - rewrite accepts_app, (on_city_generate_buildings W fuel _ _ _ _ Hb).
    exact (on_city_draw_city_silhouette H _ _ _ _ _ _ _ _ Hc).
  - rewrite accepts_app, (scoped_haze W H _ _ _ _ Hh).
    exact (scoped_foreground W H fuel _ _ _ _ Hf).
Qed.

End Claims.

Section Claims.
Context {G : Type} {RS : RandomSource G} {ML : MathLib}.
Variables W H s : Z.
Variable fuel : nat.

Lemma run_script_result g :
  (fuel_needed W H <= fuel)%nat ->
  exists st main1 city main3,
    trace_of (script W H fuel s g) = assemble W H s st /\
    draw_ops no_surface (blank W H) (ops_on Main (t_sky st ++ t_sun st))
      = inr main1 /\
    draw_ops no_surface (blank W H) (ops_on City (t_buildings st ++ t_city st))
      = inr city /\
    draw_ops no_surface (composite main1 (blurred_of city))
      (ops_on Main (t_haze st ++ t_foreground st)) = inr main3 /\
    gs_ctm (cx_gs (cv_ctx main3)) = [] /\
    cx_saved (cv_ctx main3) = [] /\
    forall fs,
      run_script W H fuel s g fs =
      (mkWorld (Some main3) (Some city) (Some (blurred_of city))
         (<[solarpunk_bg_png := ImageFile (picture main3)]>
            (<[city_blurred_png := ImageFile (blurred_of city)]>
               (<[base_layer_png := ImageFile (picture main1)]>
                  (<[city_layer_png := ImageFile (picture city)]> fs))))
         ["PNG saved -> solarpunk_bg.png"%string],
       None).
Proof.
  intros Hfuel.
  destruct (script_run W H s fuel g Hfuel)
    as (g' & g1 & g3 & st & Hs & _ & _ & _ & Hsky & Hcity & Hfg).
  destruct (script_exec W H s st Hsky Hcity Hfg)
    as (main1 & city & main3 & H1 & H2 & H3 & H4 & H5 & H6).
  exists st, main1, city, main3. unfold run_script. rewrite Hs. simpl trace_of.
  repeat split; assumption.
Qed.

(** C1.  For every seed and canvas size, two runs of the whole script end
    with the same image on the main surface and in the exported file,
    whatever generator state and file system each run starts from: the
    output is a function of the seed (and of the size) alone. *)
Theorem generation_is_deterministic (g1 g2 : G) (fs1 fs2 : gmap string File) :
  (fuel_needed W H <= fuel)%nat ->
  exists img,
    image_of (fst (run_script W H fuel s g1 fs1)) Main = Some img /\
    image_of (fst (run_script W H fuel s g2 fs2)) Main = Some img /\
    wd_fs (fst (run_script W H fuel s g1 fs1)) !! solarpunk_bg_png
      = Some (ImageFile img) /\
    wd_fs (fst (run_script W H fuel s g2 fs2)) !! solarpunk_bg_png
      = Some (ImageFile img) /\
    snd (run_script W H fuel s g1 fs1) = None /\
    snd (run_script W H fuel s g2 fs2) = None.
Proof.
  intros Hfuel.
  destruct (run_script_result g1 Hfuel)
    as (st & main1 & city & main3 & _ & _ & _ & _ & _ & _ & Hrun).
  assert (Hrun2 : run_script W H fuel s g2 fs2 = run_script W H fuel s g1 fs2).
  { unfold run_script. now rewrite (script_seeded W H s fuel g2 g1). }
  exists (picture main3).
  rewrite Hrun2, !Hrun. simpl.
  rewrite !lookup_insert_eq. repeat split.
Qed.


(** C8, as the code has it.  In a run that completes, the calls on the
    main context are well scoped: every [translate] and [rotate] sits
    between a [save()] and the [restore()] that ends its block, no
    [restore()] comes without its [save()], and the run ends with the
    identity transform and an empty stack of saved states. *)
Theorem transforms_scoped_on_completion (g : G) (fs : gmap string File) :
  (fuel_needed W H <= fuel)%nat ->
  exists g' tr cv,
    script W H fuel s g = Returned tt g' tr /\
    scope_ops 0 (ops_on Main tr) = Some 0%nat /\
    run_script W H fuel s g fs
      = (mkWorld (Some cv) (wd_city (fst (run_script W H fuel s g fs)))
                 (wd_blurred (fst (run_script W H fuel s g fs)))
                 (wd_fs (fst (run_script W H fuel s g fs)))
                 (wd_stdout (fst (run_script W H fuel s g fs))), None) /\
    gs_ctm (cx_gs (cv_ctx cv)) = [] /\
    cx_saved (cv_ctx cv) = [].
Proof.
  intros Hfuel.
  destruct (script_run W H s fuel g Hfuel)
    as (g' & g1 & g3 & st & Hs & _ & _ & _ & Hsky & Hcity & Hfg).
  destruct (script_exec W H s st Hsky Hcity Hfg)
    as (main1 & city & main3 & _ & _ & _ & Hctm & Hsaved & Hexec).
  exists g', (assemble W H s st), main3.
  split; [exact Hs |]. split; [| split; [| split; assumption]].
  - assert (Hops : ops_on Main (assemble W H s st) =
                   ops_on Main (t_sky st ++ t_sun st) ++
                   [SetSourceSurface BlurredCity 0 0; PaintWithAlpha 0.85] ++
                   ops_on Main (t_haze st ++ t_foreground st)).
    { pose proof (city_no_main _ Hcity) as Hnil.
      rewrite ops_on_app in Hnil. apply app_eq_nil in Hnil as [Hb Hc].
      unfold assemble. rewrite !ops_on_app, Hb, Hc.
      simpl. rewrite app_nil_r, <- !app_assoc. reflexivity. }
    rewrite Hops, scope_ops_app, (accepts_scope_ops _ _ _ Hsky).
    simpl. exact (accepts_scope_ops _ _ _ Hfg).
  - unfold run_script. rewrite Hs. simpl trace_of. rewrite Hexec. reflexivity.
Qed.

End Claims.

Lemma firstn_app_le {A} (n : nat) (a b : list A) :
  (n <= length a)%nat -> firstn n (a ++ b) = firstn n a.
Proof.
  intros Hn. rewrite firstn_app.
  replace (n - length a)%nat with 0%nat by lia.
  simpl. apply app_nil_r.
Qed.

Lemma generation_is_deterministic_witness :
  exists img,
    image_of (fst (run_script (G := Z) 1800 1200 2000 42 0%Z ∅)) Main
      = Some img /\
    image_of (fst (run_script (G := Z) 1800 1200 2000 42 7%Z
                     {[ solarpunk_bg_png := TextFile "stale" ]})) Main
      = Some img /\
    wd_fs (fst (run_script (G := Z) 1800 1200 2000 42 0%Z ∅))
      !! solarpunk_bg_png = Some (ImageFile img) /\
    wd_fs (fst (run_script (G := Z) 1800 1200 2000 42 7%Z
                  {[ solarpunk_bg_png := TextFile "stale" ]}))
      !! solarpunk_bg_png = Some (ImageFile img) /\
    snd (run_script (G := Z) 1800 1200 2000 42 0%Z ∅) = None /\
    snd (run_script (G := Z) 1800 1200 2000 42 7%Z
           {[ solarpunk_bg_png := TextFile "stale" ]}) = None.
Proof.
  apply (generation_is_deterministic (G := Z) 1800 1200 42 2000).
  unfold fuel_needed. lia.
Defined.

(** C8, as the claim states it, fails.  With the generator and the [math]
    of the examples, let the [stroke()] of the first sun ray raise (call
    number 28 of the run).  The run ends there: the [restore()] of that
    block is never reached, one saved state is left on the stack and the
    ray's translate and rotate are still in force. *)
Lemma transform_leaks_when_stroke_raises :
  nth_error (trace_of (main (G := Z) 2000 0%Z)) 28 = Some (Draw Main Stroke) /\
  exists cv,
    exec (initial_world ∅) (abort_at 28 (trace_of (main (G := Z) 2000 0%Z)))
      = (mkWorld (Some cv) None None ∅ [], None) /\
    length (cx_saved (cv_ctx cv)) = 1%nat /\
    length (gs_ctm (cx_gs (cv_ctx cv))) = 2%nat.
Proof.
  destruct (script_run (G := Z) 1800 1200 42 2000 0%Z ltac:(unfold fuel_needed; lia))
    as (g' & g1 & g3 & st & Hs & Hsky & Hsun & _).
  unfold main. rewrite Hs. simpl trace_of. unfold abort_at, assemble.
  assert (Hsky' : t_sky st = trace_of (sky_gradient (G := Z) 1200 (seed 42)))
    by now rewrite Hsky.
  assert (Hsun' : t_sun st = trace_of (sun (G := Z) 1800 1200 (seed 42)))
    by now rewrite Hsun.
  rewrite Hsky', Hsun'.
  rewrite (app_assoc (trace_of (sun 1800 1200 (seed 42)))).
  rewrite (app_assoc (trace_of (sky_gradient 1200 (seed 42)))).
  rewrite (app_assoc [RandomSeed 42; CreateSurface Main 1800 1200]).
  split.
  - rewrite nth_error_app1; [vm_compute; reflexivity | vm_compute; lia].
  - rewrite firstn_app_le by (vm_compute; lia).
    vm_compute. eexists. repeat split.
Qed.

(** ** [draw_vine] *)

Section Vine.
Context {G : Type} {RS : RandomSource G} {ML : MathLib}.
#[local] Abbreviation returns := (returns (G := G)).
#[local] Abbreviation silent := (silent (G := G)).

Lemma silent_ret {A} (a : A) : silent (ret a).
Proof. intros g a' g' tr [= _ <- <-]. auto. Qed.

Lemma silent_bind {A B} (m : M G A) (k : A -> M G B) :
  silent m -> (forall a, silent (k a)) -> silent (bind m k).
Proof.
  intros Hm Hk g b g2 t Hrun.
  apply bind_returned in Hrun as (a & g1 & t1 & t2 & H1 & H2 & ->).
  apply Hm in H1 as [-> ->]. apply Hk in H2 as [-> ->]. auto.
Qed.

Lemma silent_while {St} fuel (cond : St -> bool) (body : St -> M G St) s :
  (forall s, silent (body s)) -> silent (while fuel cond body s).
Proof.
  intros Hb. revert s. induction fuel as [| fuel IH]; intros s; simpl.
  - intros g a g' tr [=].
  - destruct (cond s); [| apply silent_ret].
    apply silent_bind; [apply Hb | exact IH].
Qed.

Lemma silent_vine_points fuel x_base y_start y_end side :
  silent (vine_points (G := G) fuel x_base y_start y_end side).
Proof.
  unfold vine_points. apply silent_bind; [| intros st; apply silent_ret].
  apply silent_while. intros [points y]. apply silent_ret.
Qed.

(** C10.  When the sampling loop of [draw_vine] yields fewer than two
    points, [draw_vine] returns at once: it makes no call at all, so it
    draws nothing, leaves every surface as it was, and does not touch the
    generator. *)
Theorem draw_vine_short_draws_nothing
    (fuel : nat) (x_base y_start y_end : Q) (side : Side) (thickness : Q)
    (g g1 : G) (points : list (Q * Q)) (t1 : Trace) (w : World) :
  vine_points fuel x_base y_start y_end side g = Returned points g1 t1 ->
  (length points < 2)%nat ->
  draw_vine fuel x_base y_start y_end side thickness g = Returned tt g [] /\
  exec w (trace_of (draw_vine fuel x_base y_start y_end side thickness g))
    = (w, None).
Proof.
  intros Hpts Hlen.
  destruct (silent_vine_points _ _ _ _ _ _ _ _ _ Hpts) as [-> ->].
  assert (Hrun : draw_vine fuel x_base y_start y_end side thickness g
                 = Returned tt g []).
  { unfold draw_vine, bind. rewrite Hpts.
    replace (len points <? 2)%Z with true
      by (symmetry; apply Z.ltb_lt; unfold len; lia).
    reflexivity. }
  rewrite Hrun. split; reflexivity.
Qed.

End Vine.

Lemma draw_vine_short_draws_nothing_witness :
  draw_vine (G := Z) 5 25 50 52 left 3 0%Z = Returned tt 0%Z [] /\
  exec (initial_world ∅) (trace_of (draw_vine (G := Z) 5 25 50 52 left 3 0%Z))
    = (initial_world ∅, None).
Proof.
  apply (draw_vine_short_draws_nothing (G := Z) 5 25 50 52 left 3 0%Z 0%Z
           (fst (fst (match vine_points (G := Z) 5 25 50 52 left 0%Z with
                      | Returned p g t => (p, g, t)
                      | Raised _ => ([], 0%Z, [])
                      end))) []).
  - vm_compute. reflexivity.
  - vm_compute. lia.
Defined.

(** ** The sky *)

Lemma Qfloor_unique (q : Q) (z : Z) :
  inject_Z z <= q -> q < inject_Z (z + 1) -> Qfloor q = z.
Proof.
  intros H1 H2.
  pose proof (Qfloor_le q) as Hf. pose proof (Qlt_floor q) as Hl.
  assert (Ha : inject_Z z < inject_Z (Qfloor q + 1)) by lra.
  assert (Hb : inject_Z (Qfloor q) < inject_Z (z + 1)) by lra.
  rewrite <- Zlt_Qlt in Ha, Hb. lia.
Qed.

Lemma to8_unique (c : Q) (z : Z) :
  inject_Z z - 0.5 <= c * 255 -> c * 255 < inject_Z z + 0.5 ->
  to8 c = z.
Proof.
  intros H1 H2. unfold to8. apply Qfloor_unique.
  - lra.
  - rewrite inject_Z_plus. change (inject_Z 1) with 1. lra.
Qed.

Section Sky.
Context {G : Type} {RS : RandomSource G} {ML : MathLib}.

(** C5.  On a canvas at least 100 rows high, drawing only the sky stage
    leaves one full-canvas paint of one linear gradient from row 0 to row
    [H]; every pixel of the top row is within 0.002 of (0.97, 0.96, 0.88)
    and every pixel of the bottom row within 0.002 of (0.72, 0.84, 0.65),
    both with alpha 1; in 8 bits they are (247, 245, 224) and
    (184, 214, 166), fully opaque. *)
Theorem sky_rows (W H x : Z) (g : G) (fs : gmap string File) :
  (100 <= H)%Z -> (0 <= x < W)%Z ->
  exists w img top bottom,
    exec (initial_world fs)
         (CreateSurface Main W H :: trace_of (sky_gradient H g)) = (w, None) /\
    image_of w Main = Some img /\
    img = Picture W H
            [mkMark MPaint (SrcPattern (LinearGradient 0 0 0 H sky_stops))
                    [] [] 2 LINE_CAP_BUTT] /\
    pixel img x 0 = Some top /\
    pixel img x (H - 1) = Some bottom /\
    close_to 0.002 top sky_top /\
    close_to 0.002 bottom sky_bottom /\
    rgba8 top = (247, 245, 224, 255)%Z /\
    rgba8 bottom = (184, 214, 166, 255)%Z.
Proof.
  intros HH Hx.
  assert (HHq : 100 <= inject_Z H)
    by (change 100 with (inject_Z 100); now rewrite <- Zle_Qle).
  pose (t0 := linear_t 0 0 0 (inject_Z H) (inject_Z x + 0.5) (inject_Z 0 + 0.5)).
  pose (t1 := linear_t 0 0 0 (inject_Z H) (inject_Z x + 0.5)
                (inject_Z (H - 1) + 0.5)).
  assert (Ht0 : t0 == 0.5 / inject_Z H).
  { unfold t0, linear_t. change (inject_Z 0) with 0. field. lra. }
  assert (Ht1 : t1 == 1 - 0.5 / inject_Z H).
  { unfold t1, linear_t. unfold Z.sub. rewrite inject_Z_plus.
    change (inject_Z (- (1))) with (-1). field. lra. }
  assert (Hinv : 0 < 0.5 / inject_Z H /\ 0.5 / inject_Z H <= 0.005).
  { split.
    - apply Qlt_shift_div_l; lra.
    - apply Qle_shift_div_r; lra. }
  assert (Hb : (0 < t0 /\ t0 <= 0.005) /\ (0.995 <= t1 /\ t1 < 1)).
  { rewrite Ht0, Ht1. destruct Hinv. set (a := 0.5 / inject_Z H) in *.
    clearbody a. repeat split; lra. }
  destruct Hb as [[Ht0a Ht0b] [Ht1a Ht1b]].
  clear Ht0 Ht1 Hinv.
  assert (Htop : gradient_at
            [mkStop 0.0 0.97 0.96 0.88 1; mkStop 0.12 0.96 0.95 0.86 1;
             mkStop 0.30 0.93 0.95 0.85 1; mkStop 0.50 0.88 0.93 0.82 1;
             mkStop 0.70 0.82 0.90 0.76 1; mkStop 1.0 0.72 0.84 0.65 1] t0
          = lerp (mkStop 0.0 0.97 0.96 0.88 1) (mkStop 0.12 0.96 0.95 0.86 1) t0).
  { cbn [gradient_at stop_offset].
    replace (t0 <? 0.12) with true by (symmetry; apply Qltb_lt; lra).
    replace (Qle_bool t0 0.0) with false; [reflexivity |].
    symmetry. apply not_true_is_false. rewrite Qle_bool_iff. lra. }
  assert (Hbot : gradient_at
            [mkStop 0.0 0.97 0.96 0.88 1; mkStop 0.12 0.96 0.95 0.86 1;
             mkStop 0.30 0.93 0.95 0.85 1; mkStop 0.50 0.88 0.93 0.82 1;
             mkStop 0.70 0.82 0.90 0.76 1; mkStop 1.0 0.72 0.84 0.65 1] t1
          = lerp (mkStop 0.70 0.82 0.90 0.76 1) (mkStop 1.0 0.72 0.84 0.65 1) t1).
  { cbn [gradient_at stop_offset].
    replace (t1 <? 0.12) with false by (symmetry; apply Qltb_ge; lra).
    replace (t1 <? 0.30) with false by (symmetry; apply Qltb_ge; lra).
    replace (t1 <? 0.50) with false by (symmetry; apply Qltb_ge; lra).
    replace (t1 <? 0.70) with false by (symmetry; apply Qltb_ge; lra).
    replace (t1 <? 1.0) with true by (symmetry; apply Qltb_lt; lra).
    replace (Qle_bool t1 0.70) with false; [reflexivity |].
    symmetry. apply not_true_is_false. rewrite Qle_bool_iff. lra. }
  eexists _, _, _, _. split; [reflexivity |]. split; [reflexivity |].
  split; [reflexivity |].
  cbv [pixel picture put_mark with_ctx blank set_source with_gs mark_of
       cv_ctx cv_width cv_height cv_marks cx_gs cx_path cx_saved
       gs_source gs_ctm gs_line_width gs_line_cap
       initial_context initial_gstate app].
  replace ((0 <=? x) && (x <? W) && (0 <=? 0) && (0 <? H))%Z with true
    by (symmetry; rewrite !andb_true_iff, !Z.leb_le, !Z.ltb_lt; lia).
  replace ((0 <=? x) && (x <? W) && (0 <=? H - 1) && (H - 1 <? H))%Z with true
    by (symmetry; rewrite !andb_true_iff, !Z.leb_le, !Z.ltb_lt; lia).
  cbv [fold_left mark_pixel source_at option_map add_color_stop_rgba app].
  fold t0 t1. rewrite Htop, Hbot.
  split; [reflexivity |]. split; [reflexivity |].
  assert (Hk0 : 0 < (t0 - 0.0) / (0.12 - 0.0) /\
                (t0 - 0.0) / (0.12 - 0.0) <= 0.042).
  { split; [apply Qlt_shift_div_l | apply Qle_shift_div_r]; lra. }
  assert (Hk1 : 0.983 <= (t1 - 0.70) / (1.0 - 0.70) /\
                (t1 - 0.70) / (1.0 - 0.70) < 1).
  { split; [apply Qle_shift_div_l | apply Qlt_shift_div_r]; lra. }
  destruct Hk0 as [Hk0a Hk0b]. destruct Hk1 as [Hk1a Hk1b].
  unfold close_to, rgba8, sky_top, sky_bottom, over, premultiply, lerp.
  cbn [stop_offset stop_r stop_g stop_b stop_a].
  set (k0 := (t0 - 0.0) / (0.12 - 0.0)) in *.
  set (k1 := (t1 - 0.70) / (1.0 - 0.70)) in *.
  clearbody k0 k1.
  repeat match goal with |- _ /\ _ => split end; try lra.
  - repeat f_equal; apply to8_unique; unfold inject_Z; lra.
  - repeat f_equal; apply to8_unique; unfold inject_Z; lra.
Qed.

End Sky.

(** ** What is drawn from the generator *)

Section Draws.
Context {G : Type} {RS : RandomSource G} {ML : MathLib}.

Variables W H : Z.

Lemma for_each_draws {A} (l : list A) (body : A -> M G unit)
    (ev : A -> Q -> Trace) :
  (forall x g, body x g = Returned tt (snd (random g)) (ev x (fst (random g)))) ->
  forall g,
    for_each l body g =
    Returned tt (skip (length l) g) (events_with_draws ev l (draws (length l) g)).
Proof.
  intros Hbody. induction l as [| x l IH]; intros g; [reflexivity |].
  simpl. unfold bind. rewrite Hbody, IH. reflexivity.
Qed.

Lemma sun_ray_run i g :
  sun_ray W H i g = Returned tt (snd (random g)) (ray_events W H i (fst (random g))).
Proof.
  unfold sun_ray, rgb, random_uniform, bind, call, emit.
  destruct (random g) as [r g']. reflexivity.
Qed.

Lemma range3_cons start stop step :
  (0 < step)%Z -> (start < stop)%Z ->
  range3 start stop step = start :: range3 (start + step) stop step.
Proof.
  intros Hs Hlt. unfold range3.
  replace ((stop - start + step - 1) / step)%Z
    with ((stop - (start + step) + step - 1) / step + 1)%Z.
  - assert (Hnn : (0 <= (stop - (start + step) + step - 1) / step)%Z)
      by (apply Z.div_pos; lia).
    rewrite Z2Nat.inj_add by lia. rewrite Nat.add_comm. simpl.
    f_equal; [lia |].
    rewrite <- seq_shift, map_map. apply map_ext. intros k. lia.
  - rewrite <- Z.div_add by lia. f_equal. lia.
Qed.

Lemma range3_nil start stop step :
  (0 < step)%Z -> (stop <= start)%Z -> range3 start stop step = [].
Proof.
  intros Hs Hle. unfold range3.
  replace (Z.to_nat ((stop - start + step - 1) / step)) with 0%nat; [reflexivity |].
  symmetry. apply Z2Nat.nonpos.
  apply Z.lt_succ_r. apply Z.div_lt_upper_bound; lia.
Qed.

Lemma hill_loop_run base_y fuel : forall x g,
  (length (range3 x (W + 50) 3) < fuel)%nat ->
  exists x',
    while fuel (fun x : Z => (x <? W + 50)%Z) (hill_step base_y) x g =
    Returned x' (skip (length (range3 x (W + 50) 3)) g)
      (events_with_draws (hill_sample base_y) (range3 x (W + 50) 3)
         (draws (length (range3 x (W + 50) 3)) g)).
Proof.
  induction fuel as [| fuel IH]; intros x g Hfuel; [lia |].
  simpl. destruct (x <? W + 50)%Z eqn:Hc.
  - apply Z.ltb_lt in Hc.
    rewrite (range3_cons x (W + 50) 3) in * by lia. simpl in Hfuel.
    destruct (IH (x + 3)%Z (snd (random g)) ltac:(lia)) as (x' & Hrun).
    exists x'. unfold bind, hill_step at 1, random_uniform, bind, call, emit, ret.
    destruct (random g) as [r g'] eqn:Hr. simpl in Hrun. rewrite Hrun.
    simpl. rewrite Hr. reflexivity.
  - apply Z.ltb_ge in Hc. rewrite (range3_nil x (W + 50) 3) by lia.
    exists x. reflexivity.
Qed.

End Draws.

Section DrawClaims.
Context {G : Type} {RS : RandomSource G} {ML : MathLib}.
Variables W H : Z.
Variable fuel : nat.

(** C7, as the code has it.  There are 24 rays; ray [i] makes exactly one
    draw, [uniform(-80, 120)], which sets its length to [350 + u].  Its
    opacity is not drawn: it is 0.14 when [i] is a multiple of 3 and 0.08
    otherwise (and so is its line width, 1.5 or 0.6). *)
Theorem sun_ray_length_is_the_only_draw (g : G) :
  sun_rays W H g =
  Returned tt (skip 24 g)
    (events_with_draws (ray_events W H) (range 24) (draws 24 g)).
Proof.
  unfold sun_rays. rewrite (for_each_draws _ _ (ray_events W H)).
  - reflexivity.
  - apply sun_ray_run.
Qed.

(** C6, as the code has it.  The script has four hills, each anchored to
    a fixed fraction of the height and each more opaque and darker than
    the one before.  The outline of a hill is sampled every 3 pixels from
    [x = 0] while [x < W + 50], at height
    [base_y + sin(x * 0.003 + u) * 35 + sin(x * 0.008) * 18], where the
    phase [u] is a fresh [uniform(0, 1)] for every sample: one draw per
    sample, not one per hill. *)
Theorem hill_phase_drawn_per_sample (base_y alpha hr hg hb : Q) (g : G) :
  (length (range3 0 (W + 50) 3) < fuel)%nat ->
  draw_hill W H fuel (base_y, alpha, (hr, hg, hb)) g =
  Returned tt (skip (length (range3 0 (W + 50) 3)) g)
    ([Draw Main (MoveTo 0 (base_y + 40))] ++
     events_with_draws (hill_sample base_y) (range3 0 (W + 50) 3)
       (draws (length (range3 0 (W + 50) 3)) g) ++
     [ Draw Main (LineTo W H);
       Draw Main (LineTo 0 H);
       Draw Main ClosePath;
       Draw Main (SetSourceRgba hr hg hb alpha);
       Draw Main Fill ]) /\
  rolling_hills W H fuel g = for_each (hills H) (draw_hill W H fuel) g /\
  map fst (map fst (hills H)) = [H * 0.58; H * 0.64; H * 0.70; H * 0.78] /\
  chain denser_and_darker (hills H).
Proof.
  intros Hfuel.
  destruct (hill_loop_run W base_y fuel 0%Z g Hfuel) as (x' & Hloop).
  split; [| split; [reflexivity | split; [reflexivity |]]].
  - unfold draw_hill. unfold bind at 1. unfold call at 1, emit at 1.
    unfold bind at 1. rewrite Hloop.
    cbv [bind call emit]. reflexivity.
  - simpl. unfold Qlt; simpl. lia.
Qed.

End DrawClaims.

Lemma hill_phase_drawn_per_sample_witness :
  draw_hill (G := Z) 1800 1200 2000
    (1200 * 0.58, 0.14, (0.58, 0.74, 0.48)) (lcg_seed 42) =
  Returned tt (skip (length (range3 0 (1800 + 50) 3)) (lcg_seed 42))
    ([Draw Main (MoveTo 0 (1200 * 0.58 + 40))] ++
     events_with_draws (hill_sample (1200 * 0.58)) (range3 0 (1800 + 50) 3)
       (draws (length (range3 0 (1800 + 50) 3)) (lcg_seed 42)) ++
     [ Draw Main (LineTo 1800%Z 1200%Z);
       Draw Main (LineTo 0 1200%Z);
       Draw Main ClosePath;
       Draw Main (SetSourceRgba 0.58 0.74 0.48 0.14);
       Draw Main Fill ]) /\
  rolling_hills (G := Z) 1800 1200 2000 (lcg_seed 42)
    = for_each (hills 1200) (draw_hill 1800 1200 2000) (lcg_seed 42) /\
  map fst (map fst (hills 1200))
    = [1200%Z * 0.58; 1200%Z * 0.64; 1200%Z * 0.70; 1200%Z * 0.78] /\
  chain denser_and_darker (hills 1200).
Proof.
  apply (hill_phase_drawn_per_sample (G := Z) 1800 1200 2000).
  vm_compute. lia.
Defined.

(** C7, as the claim states it, fails: the opacities of the 24 rays are
    the same list whatever the generator returns (here for two different
    seeds, whose ray lengths differ), and the rays make 24 draws in all,
    one per ray. *)
Lemma ray_opacity_is_not_drawn :
  source_alphas (trace_of (sun_rays (G := Z) 1800 1200 (lcg_seed 1)))
    = source_alphas (trace_of (sun_rays (G := Z) 1800 1200 (lcg_seed 2))) /\
  source_alphas (trace_of (sun_rays (G := Z) 1800 1200 (lcg_seed 1)))
    = concat (repeat [0.14; 0.08; 0.08] 8) /\
  length (filter is_random (trace_of (sun_rays (G := Z) 1800 1200 (lcg_seed 1))))
    = 24%nat /\
  line_ends (trace_of (sun_rays (G := Z) 1800 1200 (lcg_seed 1)))
    <> line_ends (trace_of (sun_rays (G := Z) 1800 1200 (lcg_seed 2))).
Proof.
  vm_compute. repeat split. discriminate.
Qed.

(** C6, as the claim states it, fails: along the first hill of the script
    (1800 by 1200, example generator seeded with 42) the phase is drawn 617
    times, once per sample, and already the first two phases differ. *)
Lemma hill_phase_changes_along_width :
  length (uniform_results
            (trace_of (draw_hill (G := Z) 1800 1200 2000
                         (1200 * 0.58, 0.14, (0.58, 0.74, 0.48)) (lcg_seed 42))))
    = 617%nat /\
  exists u0 u1,
    firstn 2 (uniform_results
                (trace_of (draw_hill (G := Z) 1800 1200 2000
                             (1200 * 0.58, 0.14, (0.58, 0.74, 0.48))
                             (lcg_seed 42))))
      = [u0; u1] /\
    Qeq_bool u0 u1 = false.
Proof.
  vm_compute. split; [reflexivity |].
  eexists _, _. split; reflexivity.
Qed.


Lemma transforms_scoped_on_completion_witness :
  exists g' tr cv,
    script 1800 1200 2000 42 0%Z = Returned tt g' tr /\
    scope_ops 0 (ops_on Main tr) = Some 0%nat /\
    run_script 1800 1200 2000 42 0%Z ∅
      = (mkWorld (Some cv)
                 (wd_city (fst (run_script 1800 1200 2000 42 0%Z ∅)))
                 (wd_blurred (fst (run_script 1800 1200 2000 42 0%Z ∅)))
                 (wd_fs (fst (run_script 1800 1200 2000 42 0%Z ∅)))
                 (wd_stdout (fst (run_script 1800 1200 2000 42 0%Z ∅))), None) /\
    gs_ctm (cx_gs (cv_ctx cv)) = [] /\
    cx_saved (cv_ctx cv) = [].
Proof.
  apply (transforms_scoped_on_completion (G := Z) 1800 1200 42 2000 0%Z ∅).
  unfold fuel_needed. lia.
Defined.

Lemma sky_rows_witness :
  exists w img top bottom,
    exec (initial_world ∅)
         (CreateSurface Main 100 100
            :: trace_of (sky_gradient (G := Z) 100 (lcg_seed 42))) = (w, None) /\
    image_of w Main = Some img /\
    img = Picture 100 100
            [mkMark MPaint (SrcPattern (LinearGradient 0 0 0 100%Z sky_stops))
                    [] [] 2 LINE_CAP_BUTT] /\
    pixel img 0 0 = Some top /\
    pixel img 0 (100 - 1) = Some bottom /\
    close_to 0.002 top sky_top /\
    close_to 0.002 bottom sky_bottom /\
    rgba8 top = (247, 245, 224, 255)%Z /\
    rgba8 bottom = (184, 214, 166, 255)%Z.
Proof.
  apply (sky_rows (G := Z) 100 100 0 (lcg_seed 42) ∅); lia.
Defined.

(** ** The stub writer *)

(** C9.  Whatever the generator did before (any seed, canvas size,
    generator state and file system), the stub writer puts the one fixed
    text [content] at its path and prints the same three lines; it
    touches no other path. *)
Theorem stub_text_is_constant {G} {RS : RandomSource G} {ML : MathLib}
    (W H s : Z) (fuel : nat) (g : G) (fs : gmap string File) :
  fst (write_pivx_module (wd_fs (fst (run_script W H fuel s g fs))))
    !! pivx_integration_rs = Some (TextFile content) /\
  fst (write_pivx_module fs) !! pivx_integration_rs = Some (TextFile content) /\
  snd (write_pivx_module (wd_fs (fst (run_script W H fuel s g fs))))
    = snd (write_pivx_module fs) /\
  forall (fs' : gmap string File) (p : string),
    p <> pivx_integration_rs ->
    fst (write_pivx_module fs') !! p = fs' !! p.
Proof.
  unfold write_pivx_module. cbn [fst snd].
  rewrite !lookup_insert_eq. repeat split.
  intros fs' p Hp. now rewrite lookup_insert_ne.
Qed.

(** * Further properties of the scripts *)

(** ** Values and events of a run *)

Section Yields.
Context {G : Type} {RS : RandomSource G} {ML : MathLib}.
#[local] Abbreviation yields := (yields (G := G)).
Variable P : Event -> Prop.
Hypothesis P_random : forall e, is_random e = true -> P e.

Lemma yields_weaken {A} (R R' : A -> Prop) m :
  yields P R m -> (forall a, R a -> R' a) -> yields P R' m.
Proof. intros Hm HR g a g' tr Hrun. destruct (Hm _ _ _ _ Hrun). auto. Qed.

Lemma yields_ret {A} (R : A -> Prop) a : R a -> yields P R (ret a).
Proof. intros Ha g a' g' tr [= <- _ <-]. auto. Qed.

Lemma yields_raise {A} (R : A -> Prop) e : yields P R (raise e).
Proof. intros g a g' tr [=]. Qed.

Lemma yields_bind {A B} (R : A -> Prop) (R' : B -> Prop) (m : M G A) k :
  yields P R m -> (forall a, R a -> yields P R' (k a)) -> yields P R' (bind m k).
Proof.
  intros Hm Hk g b g2 t Hrun.
  apply bind_returned in Hrun as (a & g1 & t1 & t2 & H1 & H2 & ->).
  destruct (Hm _ _ _ _ H1) as [Ha Ht1].
  destruct (Hk a Ha _ _ _ _ H2) as [Hb Ht2].
  split; [exact Hb | apply Forall_app; auto].
Qed.

Lemma yields_emit e : P e -> yields P (fun _ => True) (emit e).
Proof. intros He g a g' tr [= _ _ <-]. auto. Qed.

Lemma yields_call c op : P (Draw c op) -> yields P (fun _ => True) (call c op).
Proof. apply yields_emit. Qed.

Lemma yields_random_random :
  yields P (fun r => 0 <= r /\ r < 1) random_random.
Proof.
  intros g r g' tr. unfold random_random.
  pose proof (random_range g) as Hr. destruct (random g) as [r0 g0].
  intros [= <- _ <-]. split; [exact Hr |].
  constructor; [now apply P_random | constructor].
Qed.

Lemma yields_random_uniform a b :
  a <= b -> yields P (fun u => a <= u /\ u <= b) (random_uniform a b).
Proof.
  intros Hab g u g' tr Hrun.
  destruct (returns_random_uniform a b Hab g) as (u' & g1 & t1 & Heq & H1 & H2 & _).
  rewrite Heq in Hrun. injection Hrun as <- _ <-. split; [split; assumption |].
  revert Heq. unfold random_uniform. destruct (random g) as [r0 g0].
  intros [= _ _ <-]. constructor; [now apply P_random | constructor].
Qed.

Lemma yields_random_uniform_any a b :
  yields P (fun _ => True) (random_uniform a b).
Proof.
  intros g u g' tr. unfold random_uniform. destruct (random g) as [r0 g0].
  intros [= _ _ <-]. split; [exact I |].
  constructor; [now apply P_random | constructor].
Qed.

Lemma yields_random_choice {A} (l : list A) :
  yields P (fun x => In x l) (random_choice l).
Proof.
  intros g x g' tr Hrun. destruct l as [| d l']; [discriminate |].
  destruct (returns_random_choice (d :: l') ltac:(discriminate) g)
    as (x' & g1 & t1 & Heq & Hin).
  rewrite Heq in Hrun. injection Hrun as <- _ <-. split; [exact Hin |].
  revert Heq. unfold random_choice. destruct (randbelow _ g) as [i g0].
  intros [= _ _ <-]. constructor; [now apply P_random | constructor].
Qed.

Lemma yields_random_seed s : yields P (fun _ => True) (random_seed s).
Proof.
  intros g x g' tr [= _ _ <-]. split; [exact I |].
  constructor; [now apply P_random | constructor].
Qed.

Lemma yields_item {A} (l : list A) i : yields P (fun x => In x l) (item l i).
Proof.
  unfold item. destruct (nth_error l i) as [x |] eqn:Hx.
  - apply yields_ret. eapply nth_error_In; eauto.
  - apply yields_raise.
Qed.

Lemma yields_for_each {A} (l : list A) (body : A -> M G unit) :
  (forall x, In x l -> yields P (fun _ => True) (body x)) ->
  yields P (fun _ => True) (for_each l body).
Proof.
  induction l as [| x l IH]; intros Hb; simpl.
  - now apply yields_ret.
  - eapply yields_bind.
    + apply Hb. now left.
    + intros _ _. apply IH. intros y Hy. apply Hb. now right.
Qed.

Lemma yields_while {St} (I : St -> Prop) fuel (cond : St -> bool)
    (body : St -> M G St) :
  (forall s, I s -> cond s = true -> yields P I (body s)) ->
  forall s, I s ->
    yields P (fun s' => I s' /\ cond s' = false) (while fuel cond body s).
Proof.
  intros Hbody. induction fuel as [| fuel IH]; intros s Hs; simpl.
  - apply yields_raise.
  - destruct (cond s) eqn:Hc.
    + eapply yields_bind; [apply (Hbody s Hs Hc) |]. intros s' Hs'. now apply IH.
    + apply yields_ret. auto.
Qed.

End Yields.

(** Proof search over the rules; [side] closes the conditions on the
    calls. *)
Ltac yields_step Pr side :=
  first
    [ match goal with
      | |- @yields _ ?A _ ?R (ret _) =>
          try (is_evar R; unify R (fun _ : A => True));
          apply yields_ret; exact I
      end
    | apply yields_raise
    | apply (yields_random_uniform _ Pr); lra
    | apply (yields_random_uniform_any _ Pr)
    | apply (yields_random_random _ Pr)
    | apply (yields_random_choice _ Pr)
    | apply (yields_random_seed _ Pr)
    | apply yields_item
    | apply yields_call; side
    | apply yields_emit; side
    | apply yields_for_each; intros
    | eapply (yields_while _ (fun _ => True)); [intros | exact I]
    | eapply yields_bind; [| intros ]
    | match goal with
      | |- @yields _ ?A _ ?R (if _ then _ else _) =>
          is_evar R; unify R (fun _ : A => True)
      | |- @yields _ ?A _ ?R (match _ with _ => _ end) =>
          is_evar R; unify R (fun _ : A => True)
      | |- yields _ _ (if ?b then _ else _) => destruct b eqn:?
      | |- yields _ _ (match ?x with _ => _ end) => destruct x eqn:?
      | |- yields _ _ (let '(_, _) := ?x in _) => destruct x eqn:?
      end ].

Ltac yields_auto Pr side := repeat (yields_step Pr side).

(** ** Colours *)

Lemma colours_random e : is_random e = true -> colours_ok e.
Proof. destruct e; simpl; intros; try discriminate; exact I. Qed.

Ltac split_hyps :=
  repeat match goal with
         | H : _ /\ _ |- _ => destruct H
         | H : In _ (range3 _ _ _) |- _ => apply range3_In in H; [| lia]
         | H : In _ (range _) |- _ => unfold range in H
         | H : In (_, _, _) (_ :: _) |- _ =>
             destruct H as [H | H]; [injection H as ? ? ?; subst |]
         | H : In _ [] |- _ => destruct H
         end.

(** An integer between two literals, as a rational. *)
Ltac z_bounds :=
  repeat match goal with
         | H : (?a <= ?i < ?b)%Z |- _ =>
             let qa := eval cbv in (inject_Z a) in
             let qb := eval cbv in (inject_Z (b - 1)) in
             let H1 := fresh in let H2 := fresh in
             assert (H1 : qa <= inject_Z i)
               by (change qa with (inject_Z a); rewrite <- Zle_Qle; lia);
             assert (H2 : inject_Z i <= qb)
               by (change qb with (inject_Z (b - 1)); rewrite <- Zle_Qle; lia);
             clear H
         end.

Ltac leaf :=
  repeat match goal with
         | |- context [if ?b then _ else _] => destruct b
         end;
  first [ lra | unfold Qle, Qlt; simpl; lia ].

Ltac colour_side :=
  first
    [ exact I
    | split_hyps; z_bounds;
      cbn [colours_ok pattern_ok add_color_stop_rgba app];
      unfold stops_ok, in_unit, cr, cg, cb in *;
      repeat match goal with
             | |- _ /\ _ => split
             | |- Forall _ _ => constructor
             | |- stop_ok _ => unfold stop_ok, in_unit
             | |- True => exact I
             end;
      cbn [stop_offset stop_r stop_g stop_b stop_a chain];
      repeat match goal with
             | |- _ /\ _ => split
             | |- True => exact I
             end;
      leaf ].

Ltac colours_auto := yields_auto colours_random ltac:(colour_side).

Section Colours.
Context {G : Type} {RS : RandomSource G} {ML : MathLib}.
#[local] Abbreviation yields := (yields (G := G)).
Variables W H : Z.
Variable fuel : nat.

Lemma colours_sky : yields colours_ok (fun _ => True) (sky_gradient H).
Proof. unfold sky_gradient. colours_auto. Qed.

Lemma colours_sun : yields colours_ok (fun _ => True) (sun W H).
Proof.
  unfold sun, sun_glow, sun_rays, sun_ray, sun_core, rgb. colours_auto.
Qed.

Lemma colours_generate_buildings :
  yields colours_ok (fun _ => True) (generate_buildings W fuel).
Proof. unfold generate_buildings, building_step. colours_auto. Qed.

Lemma colours_draw_building target am ox oy b :
  in_unit am ->
  yields colours_ok (fun _ => True) (draw_building H target am ox oy b).
Proof.
  intros Ham. destruct b as [[[bx bw] bh] t]. unfold draw_building.
  destruct t; unfold draw_tower, draw_dome, draw_spire, draw_antenna,
    draw_megablock, draw_block; colours_auto.
Qed.

Lemma colours_city_silhouette target am bs ox oy :
  in_unit am ->
  yields colours_ok (fun _ => True) (draw_city_silhouette H target am bs ox oy).
Proof.
  intros Ham. unfold draw_city_silhouette. apply yields_for_each. intros b _.
  now apply colours_draw_building.
Qed.

Lemma colours_haze : yields colours_ok (fun _ => True) (haze_overlay W H).
Proof. unfold haze_overlay. colours_auto. Qed.

Lemma colours_hills : yields colours_ok (fun _ => True) (rolling_hills W H fuel).
Proof.
  unfold rolling_hills. apply yields_for_each. intros h Hh.
  cbv [hills In] in Hh.
  repeat destruct Hh as [<- | Hh]; [.. | contradiction];
    unfold draw_hill, hill_step; colours_auto.
Qed.

Lemma colours_draw_vine x_base y_start y_end side thickness :
  yields colours_ok (fun _ => True)
    (draw_vine fuel x_base y_start y_end side thickness).
Proof.
  unfold draw_vine, vine_points, vine_step, vine_stem, vine_tendrils,
    vine_leaves, vine_curls, point_at, rgb.
  colours_auto.
Qed.

Lemma colours_vines : yields colours_ok (fun _ => True) (vines W H fuel).
Proof.
  unfold vines.
  repeat (eapply yields_bind; [apply colours_draw_vine | intros _ _]).
  apply colours_draw_vine.
Qed.

Lemma colours_fern_carpet : yields colours_ok (fun _ => True) (fern_carpet W H).
Proof. unfold fern_carpet, fern. colours_auto. Qed.

Lemma colours_ground : yields colours_ok (fun _ => True) (ground_gradient W H).
Proof. unfold ground_gradient. colours_auto. Qed.

Lemma colours_glass_panels : yields colours_ok (fun _ => True) (glass_panels W H).
Proof. unfold glass_panels, draw_panel, rgb. colours_auto. Qed.

Lemma colours_corner_ornaments :
  yields colours_ok (fun _ => True) (corner_ornaments W).
Proof. unfold corner_ornaments, rgb. colours_auto. Qed.

Lemma colours_floating_leaves :
  yields colours_ok (fun _ => True) (floating_leaves W H).
Proof. unfold floating_leaves, floating_leaf. colours_auto. Qed.

Lemma colours_pollen : yields colours_ok (fun _ => True) (pollen W H).
Proof. unfold pollen, pollen_grain. colours_auto. Qed.

Lemma colours_frame : yields colours_ok (fun _ => True) (frame W H).
Proof. unfold frame, rgb. colours_auto. Qed.

Lemma colours_grain : yields colours_ok (fun _ => True) (grain W H).
Proof. unfold grain, grain_dot. colours_auto. Qed.

Lemma colours_foreground : yields colours_ok (fun _ => True) (foreground W H fuel).
Proof.
  unfold foreground.
  eapply yields_bind; [apply colours_hills | intros _ _].
  eapply yields_bind; [apply colours_vines | intros _ _].
  eapply yields_bind; [apply colours_fern_carpet | intros _ _].
  eapply yields_bind; [apply colours_ground | intros _ _].
  eapply yields_bind; [apply colours_glass_panels | intros _ _].
  eapply yields_bind; [apply colours_corner_ornaments | intros _ _].
  eapply yields_bind; [apply colours_floating_leaves | intros _ _].
  eapply yields_bind; [apply colours_pollen | intros _ _].
  eapply yields_bind; [apply colours_frame | intros _ _].
  apply colours_grain.
Qed.

End Colours.

Section ColourRange.
Context {G : Type} {RS : RandomSource G} {ML : MathLib}.

(** X1.  In a run of the whole script, on any canvas and from any seed,
    every colour component and every alpha handed to cairo
    ([set_source_rgba], the stops of every gradient, [paint_with_alpha])
    lies between 0 and 1, and the stops of every gradient are added in
    increasing order of offset: cairo never has to clamp a colour. *)
Theorem colours_stay_in_range (W H s : Z) (fuel : nat) (g : G) :
  (fuel_needed W H <= fuel)%nat ->
  exists g' tr,
    script W H fuel s g = Returned tt g' tr /\ Forall colours_ok tr.
Proof.
  intros Hfuel.
  destruct (script_stages W H fuel Hfuel s g)
    as (g1 & g2 & bs & g3 & g4 & g' & st & Hsky & Hsun & Hb & Hc & Hh & Hf & Hs).
  exists g', (assemble W H s st). split; [exact Hs |].
  unfold assemble. rewrite !Forall_app.
  repeat match goal with |- _ /\ _ => split end.
  - repeat constructor.
  - apply (colours_sky H _ _ _ _ Hsky).
  - apply (colours_sun W H _ _ _ _ Hsun).
  - repeat constructor.
  - apply (colours_generate_buildings W fuel _ _ _ _ Hb).
  - refine (proj2 (colours_city_silhouette H cctx 1.0 bs 0 0 _ _ _ _ _ Hc)).
    unfold in_unit. lra.
  - repeat constructor.
  - repeat constructor; unfold in_unit; lra.
  - apply (colours_haze W H _ _ _ _ Hh).
  - apply (colours_foreground W H fuel _ _ _ _ Hf).
  - repeat constructor.
Qed.

End ColourRange.

Lemma colours_stay_in_range_witness :
  exists g' tr,
    script (G := Z) 1800 1200 2000 42 0%Z = Returned tt g' tr /\
    Forall colours_ok tr.
Proof.
  apply (colours_stay_in_range (G := Z) 1800 1200 42 2000 0%Z).
  unfold fuel_needed. lia.
Defined.

(** ** Windows *)

Lemma int_bounds (x : Q) :
  x - 1 < inject_Z (int x) /\ inject_Z (int x) < x + 1 /\
  (0 <= x -> inject_Z (int x) <= x).
Proof.
  unfold int. destruct (Qle_bool 0 x) eqn:Hx.
  - apply Qle_bool_iff in Hx.
    pose proof (Qfloor_le x) as H1. pose proof (Qlt_floor x) as H2.
    rewrite inject_Z_plus in H2. change (inject_Z 1) with 1 in H2.
    repeat split; try lra.
  - assert (Hneg : x < 0).
    { apply Qnot_le_lt. intros Hle. apply Qle_bool_iff in Hle. congruence. }
    pose proof (Qle_ceiling x) as H1. pose proof (Qceiling_lt x) as H2.
    unfold Z.sub in H2. rewrite inject_Z_plus in H2.
    change (inject_Z (- (1))) with (-1) in H2.
    repeat split; try lra.
Qed.

(** An index of [range(int(l), int(u), step)], as a rational. *)
Lemma range_int_bounds (l u : Q) (i : Z) :
  (int l <= i < int u)%Z ->
  l - 1 < inject_Z i /\ inject_Z i < u /\ (0 <= u -> inject_Z i <= u - 1).
Proof.
  intros [Hl Hu].
  destruct (int_bounds l) as (Hl1 & _ & _).
  destruct (int_bounds u) as (_ & Hu1 & Hu2).
  assert (Hl' : inject_Z (int l) <= inject_Z i) by (rewrite <- Zle_Qle; lia).
  assert (Hu' : inject_Z i <= inject_Z (int u - 1)) by (rewrite <- Zle_Qle; lia).
  unfold Z.sub in Hu'. rewrite inject_Z_plus in Hu'.
  change (inject_Z (- (1))) with (-1) in Hu'.
  repeat split; try lra.
Qed.

Lemma rectangle_within_random x0 y0 w0 h0 e :
  is_random e = true -> rectangle_within x0 y0 w0 h0 e.
Proof. destruct e; simpl; intros; try discriminate; exact I. Qed.

Ltac window_side :=
  first
    [ exact I
    | repeat match goal with
             | H : In _ (range3 _ _ _) |- _ => apply range3_In in H; [| lia]
             | H : (int _ <= _ < int _)%Z |- _ =>
                 apply range_int_bounds in H; destruct H as (? & ? & ?)
             end;
      cbn [rectangle_within];
      repeat match goal with
             | H : 0 <= ?u -> _ |- _ =>
                 let H' := fresh in
                 assert (H' : 0 <= u) by lra; specialize (H H'); clear H'
             end;
      repeat match goal with |- _ /\ _ => split end;
      change (inject_Z 3) with 3; change (inject_Z 5) with 5;
      lra ].

Section Windows.
Context {G : Type} {RS : RandomSource G} {ML : MathLib}.
#[local] Abbreviation yields := (yields (G := G)).
Variable H : Z.

Lemma rectangles_draw_building target am ox oy bx bw bh t :
  5 <= horizon_y H + oy ->
  yields (rectangle_within (bx + ox) (horizon_y H + oy - bh) bw bh)
         (fun _ => True)
         (draw_building H target am ox oy (bx, bw, bh, t)).
Proof.
  intros Hby. unfold draw_building.
  destruct t; unfold draw_tower, draw_dome, draw_spire, draw_antenna,
    draw_megablock, draw_block;
    yields_auto (rectangle_within_random (bx + ox) (horizon_y H + oy - bh) bw bh)
                ltac:(window_side).
Qed.

Lemma total_draw_building_on target am ox oy b :
  total (draw_building (G := G) H target am ox oy b).
Proof.
  unfold draw_building, draw_tower, draw_dome, draw_spire, draw_antenna,
    draw_megablock, draw_block.
  total_auto.
Qed.

(** X2.  Every [rectangle()] that [draw_city_silhouette] draws for a
    building lies inside that building's bounding box: the body of a block
    or of a megablock is the box itself, and every window of a tower (3 by
    5) or of a megablock (4 by 6) sits inside the facade, whatever the coin
    flips that light it (the truncation of [int()] toward zero included, for
    buildings that start left of the canvas).  The baseline has to lie at
    least 5 below the top of the canvas. *)
Theorem windows_stay_on_the_facade
    (target : SurfaceId) (alpha_mult offset_x offset_y bx bw bh : Q)
    (t : BType) (g : G) :
  5 <= horizon_y H + offset_y ->
  exists g' tr,
    draw_building H target alpha_mult offset_x offset_y (bx, bw, bh, t) g
      = Returned tt g' tr /\
    Forall (rectangle_within (bx + offset_x) (horizon_y H + offset_y - bh) bw bh)
           tr.
Proof.
  intros Hby.
  destruct (total_draw_building_on target alpha_mult offset_x offset_y
              (bx, bw, bh, t) g) as ([] & g' & tr & Hrun & _).
  exists g', tr. split; [exact Hrun |].
  exact (proj2 (rectangles_draw_building _ _ _ _ _ _ _ _ Hby _ _ _ _ Hrun)).
Qed.

End Windows.

Lemma windows_stay_on_the_facade_witness :
  exists g' tr,
    draw_building (G := Z) 1200 City 1.0 0 0 (100, 80, 120, megablock)
      (lcg_seed 42) = Returned tt g' tr /\
    Forall (rectangle_within (100 + 0) (horizon_y 1200 + 0 - 120) 80 120) tr.
Proof.
  apply (windows_stay_on_the_facade (G := Z) 1200 City 1.0 0 0 100 80 120
           megablock (lcg_seed 42)).
  unfold horizon_y, Qle; simpl; lia.
Defined.

(** ** How many buildings *)

Lemma step_bounds t bw f :
  width_ok t bw -> 0.5 <= f -> f < 1.1 -> 9 <= bw * f /\ bw * f <= 121.
Proof.
  intros Hw Hf0 Hf1. apply width_ok_bounds in Hw as [Hw0 Hw1].
  assert (H1 : 0 <= (bw - 18) * f) by (apply Qmult_le_0_compat; lra).
  assert (H2 : 0 <= (110 - bw) * f) by (apply Qmult_le_0_compat; lra).
  split; lra.
Qed.

Lemma advances_count W start bs cursor :
  advances W start bs cursor ->
  start + 9 * inject_Z (Z.of_nat (length bs)) <= cursor /\
  cursor <= start + 121 * inject_Z (Z.of_nat (length bs)) /\
  (bs <> [] ->
   start + 9 * inject_Z (Z.of_nat (length bs)) - 9 < inject_Z (W + 20)).
Proof.
  revert start. induction bs as [| [[[x bw] bh] t] bs IH]; intros start.
  - cbn [advances length]. intros ->. change (inject_Z (Z.of_nat 0)) with 0.
    split; [lra | split; [lra | intros Hc; now destruct Hc]].
  - intros (Hx & Hlt & Hw & _ & f & Hf0 & Hf1 & Hadv). subst start.
    destruct (step_bounds _ _ _ Hw Hf0 Hf1) as [Hs0 Hs1].
    destruct (IH _ Hadv) as (H1 & H2 & H3).
    cbn [length]. rewrite Nat2Z.inj_succ, <- Z.add_1_r, inject_Z_plus.
    change (inject_Z 1) with 1.
    repeat split; try lra. intros _.
    destruct bs as [| b bs'].
    + cbn [length]. change (inject_Z (Z.of_nat 0)) with 0. lra.
    + specialize (H3 ltac:(discriminate)). lra.
Qed.

Section BuildingCount.
Context {G : Type} {RS : RandomSource G} {ML : MathLib}.

(** X3.  The skyline of a canvas [W] wide has between [(W + 40) / 121] and
    [(W + 40) / 9 + 1] buildings: the cursor walks the [W + 40] units from
    [-20] to [W + 20] in steps of a width (18 to 110) times a factor (0.5 to
    1.1), so of at least 9 and at most 121, and the loop stops with the
    first step that reaches [W + 20]. *)
Theorem skyline_building_count (W : Z) (fuel : nat) (g : G) :
  (0 <= W)%Z -> (Z.to_nat (W + 40) < fuel)%nat ->
  exists buildings g' tr,
    generate_buildings W fuel g = Returned buildings g' tr /\
    (W + 40 <= 121 * Z.of_nat (length buildings))%Z /\
    (9 * (Z.of_nat (length buildings) - 1) < W + 40)%Z.
Proof.
  intros HW Hfuel.
  destruct (returns_generate_buildings W fuel Hfuel g)
    as (bs & g' & tr & Hrun & cursor & Hadv & Hstop).
  exists bs, g', tr. split; [exact Hrun |].
  destruct (advances_count _ _ _ _ Hadv) as (H1 & H2 & H3).
  assert (Hne : bs <> []).
  { intros ->. simpl in Hadv. subst cursor.
    rewrite inject_Z_plus in Hstop. change (inject_Z 20) with 20 in Hstop.
    assert (0 <= inject_Z W)
      by (change 0 with (inject_Z 0); now rewrite <- Zle_Qle).
    lra. }
  specialize (H3 Hne).
  set (n := Z.of_nat (length bs)) in *.
  rewrite inject_Z_plus in Hstop, H3. change (inject_Z 20) with 20 in Hstop, H3.
  split.
  - rewrite Zle_Qle, inject_Z_plus, inject_Z_mult.
    change (inject_Z 40) with 40. change (inject_Z 121) with 121. lra.
  - rewrite Zlt_Qlt, inject_Z_plus, inject_Z_mult.
    unfold Z.sub. rewrite inject_Z_plus.
    change (inject_Z 40) with 40. change (inject_Z 9) with 9.
    change (inject_Z (- (1))) with (-1). lra.
Qed.

End BuildingCount.

Lemma skyline_building_count_witness :
  exists buildings g' tr,
    generate_buildings (G := Z) 1800 2000 (lcg_seed 42)
      = Returned buildings g' tr /\
    (1800 + 40 <= 121 * Z.of_nat (length buildings))%Z /\
    (9 * (Z.of_nat (length buildings) - 1) < 1800 + 40)%Z.
Proof.
  apply (skyline_building_count (G := Z) 1800 2000 (lcg_seed 42)); lia.
Defined.

(** ** Vines *)

Lemma Qceiling_unique (q : Q) (z : Z) :
  inject_Z z - 1 < q -> q <= inject_Z z -> Qceiling q = z.
Proof.
  intros H1 H2.
  pose proof (Qle_ceiling q) as Hc. pose proof (Qceiling_lt q) as Hl.
  unfold Z.sub in Hl. rewrite inject_Z_plus in Hl.
  change (inject_Z (- (1))) with (-1) in Hl.
  assert (Ha : inject_Z z < inject_Z (Qceiling q + 1)).
  { rewrite inject_Z_plus. change (inject_Z 1) with 1. lra. }
  assert (Hb : inject_Z (Qceiling q) < inject_Z (z + 1)).
  { rewrite inject_Z_plus. change (inject_Z 1) with 1. lra. }
  rewrite <- Zlt_Qlt in Ha, Hb. lia.
Qed.

Lemma third (a : Q) : a / 3 == a * (1 # 3).
Proof. reflexivity. Qed.

Lemma vine_length_step y y_end :
  y < y_end -> vine_length y y_end = S (vine_length (y + 3) y_end).
Proof.
  intros Hlt. unfold vine_length.
  pose proof (third (y_end - y)) as E.
  pose proof (third (y_end - (y + 3))) as E'.
  set (q := (y_end - y) / 3) in *. set (q' := (y_end - (y + 3)) / 3) in *.
  pose proof (Qle_ceiling q) as Hc. pose proof (Qceiling_lt q) as Hl.
  unfold Z.sub in Hl. rewrite inject_Z_plus in Hl.
  change (inject_Z (- (1))) with (-1) in Hl.
  assert (Hpos : (1 <= Qceiling q)%Z).
  { assert (Hq : inject_Z 0 < inject_Z (Qceiling q)).
    { change (inject_Z 0) with 0. lra. }
    rewrite <- Zlt_Qlt in Hq. lia. }
  rewrite (Qceiling_unique q' (Qceiling q - 1)).
  - lia.
  - unfold Z.sub. rewrite inject_Z_plus.
    change (inject_Z (- (1))) with (-1). lra.
  - unfold Z.sub. rewrite inject_Z_plus.
    change (inject_Z (- (1))) with (-1). lra.
Qed.

Lemma vine_length_done y y_end : y_end <= y -> vine_length y y_end = 0%nat.
Proof.
  intros Hle. unfold vine_length.
  pose proof (third (y_end - y)) as E. set (q := (y_end - y) / 3) in *.
  assert (Hc : (Qceiling q <= 0)%Z).
  { change 0%Z with (Qceiling 0). apply Qceiling_resp_le. lra. }
  lia.
Qed.

Section VinePoints.
Context {G : Type} {RS : RandomSource G} {ML : MathLib}.

Lemma vine_loop x_base y_end side (g : G) fuel : forall points y,
  (vine_length y y_end < fuel)%nat ->
  exists y',
    while fuel (fun st : list (Q * Q) * Q => snd st <? y_end)
      (vine_step x_base side) (points, y) g
    = Returned (points ++ vine_samples (vine_length y y_end) x_base side y, y')
               g [].
Proof.
  induction fuel as [| fuel IH]; intros points y Hfuel; [lia |].
  cbn [while snd]. destruct (y <? y_end) eqn:Hc.
  - apply Qltb_lt in Hc. rewrite (vine_length_step _ _ Hc) in *.
    destruct (IH (points ++ [(x_base + vine_offset side y, y)]) (y + 3)
                ltac:(lia)) as (y' & Hrun).
    exists y'. unfold bind. unfold vine_step at 1. unfold ret at 1.
    unfold vine_offset in Hrun. rewrite Hrun.
    cbn [vine_samples app]. rewrite <- app_assoc. reflexivity.
  - apply Qltb_ge in Hc. rewrite (vine_length_done _ _ Hc).
    exists y. cbn [vine_samples]. rewrite app_nil_r. reflexivity.
Qed.

Lemma vine_points_run fuel x_base y_start y_end side (g : G) :
  (vine_length y_start y_end < fuel)%nat ->
  vine_points fuel x_base y_start y_end side g
  = Returned (vine_samples (vine_length y_start y_end) x_base side y_start) g [].
Proof.
  intros Hfuel.
  destruct (vine_loop x_base y_end side g fuel [] y_start Hfuel) as (y' & Hrun).
  unfold vine_points, bind. rewrite Hrun. reflexivity.
Qed.

End VinePoints.

Lemma vine_samples_length {ML : MathLib} n x_base side y :
  length (vine_samples n x_base side y) = n.
Proof.
  revert y. induction n as [| n IH]; intros y; [reflexivity |].
  simpl. now rewrite IH.
Qed.

Lemma vine_samples_mirror {ML : MathLib} n x_base y :
  Forall2 (fun p q => snd q = snd p /\ fst p + fst q == 2 * x_base)
          (vine_samples n x_base left y) (vine_samples n x_base right y).
Proof.
  revert y. induction n as [| n IH]; intros y; [constructor |].
  cbn [vine_samples]. constructor; [| apply IH].
  cbn [fst snd]. split; [reflexivity |].
  unfold vine_offset. cbn [is_right]. ring.
Qed.

Lemma vine_samples_spaced {ML : MathLib} n x_base side y :
  chain (fun p q : Q * Q => snd q = snd p + 3) (vine_samples n x_base side y).
Proof.
  revert y. induction n as [| n IH]; intros y; [exact I |].
  cbn [vine_samples]. specialize (IH (y + 3)).
  destruct n as [| n]; [exact I |]. cbn [vine_samples chain] in *.
  split; [reflexivity | exact IH].
Qed.

Lemma vine_samples_heights {ML : MathLib} x_base side y_end : forall n y,
  n = vine_length y y_end ->
  Forall (fun p : Q * Q => y <= snd p /\ snd p < y_end)
         (vine_samples n x_base side y).
Proof.
  induction n as [| n IH]; intros y Hn; [constructor |].
  destruct (Qlt_le_dec y y_end) as [Hlt | Hge].
  - rewrite (vine_length_step _ _ Hlt) in Hn. injection Hn as Hn.
    cbn [vine_samples]. constructor; [cbn [snd]; lra |].
    eapply List.Forall_impl; [| apply (IH (y + 3) Hn)].
    intros p [H1 H2]. split; lra.
  - rewrite (vine_length_done _ _ Hge) in Hn. discriminate.
Qed.

Lemma vine_length_short y_start y_end :
  y_end - y_start <= 3 -> (vine_length y_start y_end <= 1)%nat.
Proof.
  intros Hle. unfold vine_length.
  pose proof (third (y_end - y_start)) as E.
  set (q := (y_end - y_start) / 3) in *.
  assert (Hc : (Qceiling q <= 1)%Z).
  { change 1%Z with (Qceiling 1). apply Qceiling_resp_le. lra. }
  lia.
Qed.

Section Vines.
Context {G : Type} {RS : RandomSource G} {ML : MathLib}.

(** X4.  The sampling loop of [draw_vine] returns one point every 3 rows
    from [y_start] while [y < y_end], so [ceil((y_end - y_start) / 3)] of
    them, without drawing from the generator; a vine on the right is the
    mirror image, about [x_base], of the vine on the left. *)
Theorem vine_points_sampled_and_mirrored
    (fuel : nat) (x_base y_start y_end : Q) (g : G) :
  (vine_length y_start y_end < fuel)%nat ->
  exists pl pr,
    vine_points fuel x_base y_start y_end left g = Returned pl g [] /\
    vine_points fuel x_base y_start y_end right g = Returned pr g [] /\
    length pl = vine_length y_start y_end /\
    Forall (fun p => y_start <= snd p /\ snd p < y_end) pl /\
    chain (fun p q => snd q = snd p + 3) pl /\
    Forall2 (fun p q => snd q = snd p /\ fst p + fst q == 2 * x_base) pl pr.
Proof.
  intros Hfuel.
  exists (vine_samples (vine_length y_start y_end) x_base left y_start),
         (vine_samples (vine_length y_start y_end) x_base right y_start).
  split; [now apply vine_points_run |].
  split; [now apply vine_points_run |].
  split; [apply vine_samples_length |].
  split; [now apply vine_samples_heights |].
  split; [apply vine_samples_spaced | apply vine_samples_mirror].
Qed.

Lemma total_vine_stem_nonempty points thickness :
  (1 <= len points)%Z -> total (vine_stem (G := G) points thickness).
Proof.
  intros Hlen. unfold vine_stem, rgb.
  repeat (apply total_bind;
            [first [apply total_call | apply total_point_at; lia] | intros ?]).
  apply total_bind; [| intros _; apply total_call].
  apply total_for_each. intros i Hi. apply range3_In in Hi; [| lia].
  destruct (i + 1 <? len points)%Z eqn:Hlt; [| apply total_ret].
  apply Z.ltb_lt in Hlt.
  repeat (apply total_bind; [apply total_point_at; lia | intros ?]).
  apply total_call.
Qed.

(** X5.  The indexing of [draw_vine] stays in bounds: on any non-empty list
    of points the stem ([points[0]], [points[i]], [points[i+1]]), the
    tendrils ([points[i]], [points[min(i + 4, len - 1)]]), the leaves and
    the curls run to the end without an [IndexError].  On the empty list the
    stem's [points[0]] raises it: the early return on fewer than two points,
    after which [draw_vine] runs these four steps, is what keeps it from
    failing on an empty vine. *)
Theorem vine_indexing_in_bounds
    (points : list (Q * Q)) (side : Side) (thickness : Q) (g : G) :
  points <> [] ->
  (exists g' tr, vine_body points side thickness g = Returned tt g' tr) /\
  vine_body (G := G) [] side thickness g = Raised IndexError /\
  forall fuel x_base y_start y_end,
    draw_vine (G := G) fuel x_base y_start y_end side thickness =
    (pts <- vine_points fuel x_base y_start y_end side ;;
     if (len pts <? 2)%Z then ret tt else vine_body pts side thickness).
Proof.
  intros Hne. split; [| split; reflexivity].
  assert (Hlen : (1 <= len points)%Z).
  { unfold len. destruct points; [congruence | simpl; lia]. }
  assert (Htot : total (vine_body (G := G) points side thickness)).
  { unfold vine_body.
    apply total_bind; [now apply total_vine_stem_nonempty | intros _].
    apply total_bind; [apply total_vine_tendrils | intros _].
    apply total_bind; [apply total_vine_leaves | intros _].
    apply total_vine_curls. }
  destruct (Htot g) as ([] & g' & tr & Hrun & _). now exists g', tr.
Qed.

Lemma draw_vine_short fuel x_base y_start y_end side thickness (g : G) :
  y_end - y_start <= 3 -> (2 <= fuel)%nat ->
  draw_vine fuel x_base y_start y_end side thickness g = Returned tt g [].
Proof.
  intros Hshort Hfuel. pose proof (vine_length_short _ _ Hshort) as Hlen.
  unfold draw_vine, bind.
  rewrite vine_points_run by lia.
  replace (len _ <? 2)%Z with true; [reflexivity |].
  symmetry. apply Z.ltb_lt. unfold len. rewrite vine_samples_length. lia.
Qed.

(** X6.  On a canvas of at most 103 rows none of the four vines is drawn:
    each sampling loop yields fewer than two points, so the border stage
    makes no call and draws nothing from the generator. *)
Theorem no_vines_on_a_short_canvas (W H : Z) (fuel : nat) (g : G) :
  (H <= 103)%Z -> (2 <= fuel)%nat ->
  vines W H fuel g = Returned tt g [].
Proof.
  intros HH Hfuel.
  assert (Hq : inject_Z H <= 103).
  { change 103 with (inject_Z 103). now rewrite <- Zle_Qle. }
  assert (H50 : inject_Z (H - 50) == inject_Z H - 50).
  { unfold Z.sub. rewrite inject_Z_plus. reflexivity. }
  assert (H100 : inject_Z (H - 100) == inject_Z H - 100).
  { unfold Z.sub. rewrite inject_Z_plus. reflexivity. }
  unfold vines, bind.
  rewrite !draw_vine_short by (try exact Hfuel; lra).
  reflexivity.
Qed.

End Vines.

Lemma vine_points_sampled_and_mirrored_witness :
  exists pl pr,
    vine_points (G := Z) 2000 25 50 1150 left 0%Z = Returned pl 0%Z [] /\
    vine_points (G := Z) 2000 25 50 1150 right 0%Z = Returned pr 0%Z [] /\
    length pl = vine_length 50 1150 /\
    Forall (fun p => 50 <= snd p /\ snd p < 1150) pl /\
    chain (fun p q => snd q = snd p + 3) pl /\
    Forall2 (fun p q => snd q = snd p /\ fst p + fst q == 2 * 25) pl pr.
Proof.
  apply (vine_points_sampled_and_mirrored (G := Z) 2000 25 50 1150 0%Z).
  vm_compute. lia.
Defined.

Lemma vine_indexing_in_bounds_witness :
  (exists g' tr,
     vine_body (G := Z) [(25, 50)] left 3 0%Z = Returned tt g' tr) /\
  vine_body (G := Z) [] left 3 0%Z = Raised IndexError /\
  forall fuel x_base y_start y_end,
    draw_vine (G := Z) fuel x_base y_start y_end left 3 =
    (pts <- vine_points fuel x_base y_start y_end left ;;
     if (len pts <? 2)%Z then ret tt else vine_body pts left 3).
Proof.
  apply (vine_indexing_in_bounds (G := Z) [(25, 50)] left 3 0%Z).
  discriminate.
Defined.

Lemma no_vines_on_a_short_canvas_witness :
  vines (G := Z) 100 100 5 (lcg_seed 42) = Returned tt (lcg_seed 42) [].
Proof.
  apply (no_vines_on_a_short_canvas (G := Z) 100 100 5 (lcg_seed 42)); lia.
Defined.

Section Stem.
Context {G : Type} {RS : RandomSource G} {ML : MathLib}.

Lemma for_each_events_in {A} (l : list A) (body : A -> M G unit)
    (ev : A -> Trace) :
  (forall x, In x l -> forall g, body x g = Returned tt g (ev x)) ->
  forall g, for_each l body g = Returned tt g (flat_map ev l).
Proof.
  induction l as [| x l IH]; intros Hbody g; [reflexivity |].
  cbn [for_each flat_map]. unfold bind.
  rewrite (Hbody x (or_introl eq_refl)), IH; [reflexivity |].
  intros y Hy. apply Hbody. now right.
Qed.

Lemma point_at_run points i (g : G) :
  (0 <= i < len points)%Z -> point_at points i g = Returned (pt points i) g [].
Proof.
  intros Hi. unfold point_at, item, pt, len in *.
  destruct (nth_error points (Z.to_nat i)) as [p |] eqn:Hp.
  - now rewrite (nth_error_nth _ _ _ Hp).
  - apply nth_error_None in Hp. lia.
Qed.

Lemma length_range3_stem n :
  (1 <= n)%Z -> length (range3 1 (n - 1) 2) = Z.to_nat ((n - 1) / 2).
Proof.
  intros Hn. unfold range3. rewrite length_map, length_seq.
  f_equal. f_equal. lia.
Qed.

(** X7.  The stem of a vine is one path: it starts on the first sample and
    has one curve for every index [i] of [range(1, len - 1, 2)], ending on
    sample [i + 1]; the test [i + 1 < len(points)] of the source never
    fails.  With [n] samples that is [(n - 1) / 2] curves (rounded down):
    the stem ends on the last sample when [n] is odd and one sample short of
    it when [n] is even, and a vine of exactly two samples passes the early
    return but strokes an empty stem. *)
Theorem stem_joins_every_second_sample
    (points : list (Q * Q)) (thickness : Q) (g : G) :
  points <> [] ->
  vine_stem points thickness g =
    Returned tt g
      ([ Draw Main (SetLineWidth thickness);
         Draw Main (SetLineCap LINE_CAP_ROUND);
         Draw Main (SetSourceRgba (42 / 255) (100 / 255) (35 / 255) 0.55);
         Draw Main (MoveTo (fst (pt points 0)) (snd (pt points 0))) ] ++
       flat_map (stem_curve points) (range3 1 (len points - 1) 2) ++
       [Draw Main Stroke]) /\
  length (flat_map (stem_curve points) (range3 1 (len points - 1) 2))
    = Z.to_nat ((len points - 1) / 2).
Proof.
  intros Hne.
  assert (Hlen : (1 <= len points)%Z).
  { unfold len. destruct points; [congruence | simpl; lia]. }
  split.
  - unfold vine_stem, rgb.
    cbv [bind call emit].
    rewrite (point_at_run points 0 g) by lia.
    rewrite (for_each_events_in _ _ (stem_curve points)).
    + reflexivity.
    + intros i Hi g0. apply range3_In in Hi; [| lia].
      replace (i + 1 <? len points)%Z with true
        by (symmetry; apply Z.ltb_lt; lia).
      rewrite (point_at_run points i g0) by lia.
      rewrite (point_at_run points (i + 1) g0) by lia.
      reflexivity.
  - rewrite <- length_range3_stem by exact Hlen.
    generalize (range3 1 (len points - 1) 2). intros l.
    induction l as [| i l IH]; [reflexivity |].
    cbn [flat_map stem_curve app length]. now rewrite IH.
Qed.

End Stem.

Lemma stem_joins_every_second_sample_witness :
  vine_stem (G := Z) [(25, 50); (26, 53)] 3 0%Z =
    Returned tt 0%Z
      ([ Draw Main (SetLineWidth 3);
         Draw Main (SetLineCap LINE_CAP_ROUND);
         Draw Main (SetSourceRgba (42 / 255) (100 / 255) (35 / 255) 0.55);
         Draw Main (MoveTo (fst (pt [(25, 50); (26, 53)] 0))
                           (snd (pt [(25, 50); (26, 53)] 0))) ] ++
       flat_map (stem_curve [(25, 50); (26, 53)])
                (range3 1 (len [(25, 50); (26, 53)] - 1) 2) ++
       [Draw Main Stroke]) /\
  length (flat_map (stem_curve [(25, 50); (26, 53)])
                   (range3 1 (len [(25, 50); (26, 53)] - 1) 2))
    = Z.to_nat ((len [(25, 50); (26, 53)] - 1) / 2).
Proof.
  apply (stem_joins_every_second_sample (G := Z) [(25, 50); (26, 53)] 3 0%Z).
  discriminate.
Defined.

(** ** Ferns *)

Section Ferns.
Context {G : Type} {RS : RandomSource G} {ML : MathLib}.
Variables W H : Z.

Lemma for_each_events {A} (l : list A) (body : A -> M G unit)
    (ev : A -> Trace) :
  (forall x g, body x g = Returned tt g (ev x)) ->
  forall g, for_each l body g = Returned tt g (flat_map ev l).
Proof.
  intros Hbody. induction l as [| x l IH]; intros g; [reflexivity |].
  simpl. unfold bind. rewrite Hbody, IH. reflexivity.
Qed.

Lemma strokes_app t1 t2 : strokes (t1 ++ t2) = (strokes t1 + strokes t2)%nat.
Proof. unfold strokes. now rewrite List.filter_app, List.length_app. Qed.

Lemma strokes_fronds fern_h g l :
  strokes (flat_map (frond_events fern_h g) l) = length l.
Proof.
  induction l as [| j l IH]; [reflexivity |].
  cbn [flat_map]. rewrite strokes_app, IH. reflexivity.
Qed.

Lemma length_range n : length (range n) = Z.to_nat n.
Proof.
  unfold range, range3. rewrite length_map, length_seq.
  f_equal. rewrite Z.div_1_r. lia.
Qed.

Lemma fronds_of_height fern_h :
  30 <= fern_h -> fern_h <= 80 -> (3 <= int (fern_h / 8) <= 10)%Z.
Proof.
  intros Hlo Hhi.
  assert (H8 : fern_h / 8 == fern_h * (1 # 8)) by (unfold Qdiv; reflexivity).
  assert (Hpos : 0 <= fern_h / 8) by (rewrite H8; lra).
  unfold int. apply Qle_bool_iff in Hpos. rewrite Hpos.
  split.
  - change 3%Z with (Qfloor 3). apply Qfloor_resp_le. rewrite H8. lra.
  - change 10%Z with (Qfloor 10). apply Qfloor_resp_le. rewrite H8. lra.
Qed.

(** X8.  A fern makes five draws, in the order position, height above the
    ground, length, lean and green.  It is one stroked stem followed by
    [int(fern_h / 8)] stroked fronds, where [fern_h] is the [uniform(30,
    80)] drawn for it: between 3 and 10 fronds, so the number of fronds
    varies from fern to fern with the length drawn. All of it sits between
    one [save()] and its [restore()]. *)
Theorem fern_has_three_to_ten_fronds (i : Z) (g : G) :
  exists bx u fern_h lean green tr,
    fern W H i g =
      Returned tt (skip 5 g)
        ([ RandomUniform (-20) (inject_Z (W + 20)) bx;
           RandomUniform 10 120 u;
           RandomUniform 30 80 fern_h;
           RandomUniform (-0.3) 0.3 lean;
           Draw Main Save;
           Draw Main (Translate bx (H - u));
           Draw Main (Rotate lean);
           RandomUniform 0.3 0.55 green ] ++ tr ++ [Draw Main Restore]) /\
    tr = [ Draw Main (SetSourceRgba 0.15 green 0.12 0.3);
           Draw Main (SetLineWidth 1.2);
           Draw Main (MoveTo 0 0);
           Draw Main (CurveTo 3 (- fern_h * 0.3) (-2) (- fern_h * 0.6)
                              1 (- fern_h));
           Draw Main Stroke ] ++
         flat_map (frond_events fern_h green) (range (int (fern_h / 8))) /\
    (30 <= fern_h /\ fern_h <= 80) /\
    strokes tr = S (Z.to_nat (int (fern_h / 8))) /\
    (4 <= strokes tr <= 11)%nat.
Proof.
  cbv [fern random_uniform bind call emit skip].
  destruct (random g) as [r1 g1]. cbn [snd].
  destruct (random g1) as [r2 g2]. cbn [snd].
  pose proof (random_range g2) as [Hr0 Hr1].
  destruct (random g2) as [r3 g3]. cbn [fst snd] in *.
  destruct (random g3) as [r4 g4]. cbn [snd].
  destruct (random g4) as [r5 g5]. cbn [snd].
  assert (Hlo : 30 <= 30 + (80 - 30) * r3) by lra.
  assert (Hhi : 30 + (80 - 30) * r3 <= 80) by lra.
  eexists _, _, (30 + (80 - 30) * r3), _, _, _.
  split; [| split; [reflexivity |]].
  - rewrite (for_each_events _ _
               (frond_events (30 + (80 - 30) * r3) (0.3 + (0.55 - 0.3) * r5)))
      by reflexivity.
    reflexivity.
  - pose proof (fronds_of_height _ Hlo Hhi) as Hn.
    split; [split; assumption |].
    rewrite strokes_app, strokes_fronds, length_range.
    change (strokes _) with 1%nat. split; [reflexivity | lia].
Qed.

End Ferns.

(** ** Placement *)

Lemma arc_within_random x0 x1 y0 y1 r0 r1 e :
  is_random e = true -> arc_within x0 x1 y0 y1 r0 r1 e.
Proof. destruct e; simpl; intros; try discriminate; exact I. Qed.

Lemma anchor_within_random x0 x1 y0 y1 e :
  is_random e = true -> anchor_within x0 x1 y0 y1 e.
Proof. destruct e; simpl; intros; try discriminate; exact I. Qed.

Ltac place_side :=
  first
    [ exact I
    | cbv beta in *;
      repeat match goal with H : _ /\ _ |- _ => destruct H end;
      cbn [arc_within anchor_within];
      repeat match goal with |- _ /\ _ => split end;
      lra ].

Section Placement.
Context {G : Type} {RS : RandomSource G} {ML : MathLib}.
#[local] Abbreviation yields := (yields (G := G)).
Variables W H : Z.

(** X9.  Every pollen grain and every grain dot is a circle whose centre
    lies on the canvas: pollen in the upper 85% of it with a radius between
    0.8 and 3, grain anywhere with a radius between 0.3 and 1.2. *)
Theorem dots_lie_on_the_canvas (g : G) :
  (0 <= W)%Z -> (0 <= H)%Z ->
  exists g1 t1 g2 t2,
    pollen W H g = Returned tt g1 t1 /\
    Forall (arc_within 0 W 0 (H * 0.85) 0.8 3.0) t1 /\
    grain W H g = Returned tt g2 t2 /\
    Forall (arc_within 0 W 0 H 0.3 1.2) t2.
Proof.
  intros HW HH.
  assert (HWq : 0 <= inject_Z W)
    by (change 0 with (inject_Z 0); now rewrite <- Zle_Qle).
  assert (HHq : 0 <= inject_Z H)
    by (change 0 with (inject_Z 0); now rewrite <- Zle_Qle).
  destruct (total_pollen W H g) as ([] & g1 & t1 & Hp & _).
  destruct (total_grain W H g) as ([] & g2 & t2 & Hg & _).
  exists g1, t1, g2, t2.
  split; [exact Hp |]. split; [| split; [exact Hg |]].
  - assert (Hy : yields (arc_within 0 W 0 (H * 0.85) 0.8 3.0) (fun _ => True)
                   (pollen W H)).
    { unfold pollen, pollen_grain.
      yields_auto (arc_within_random 0 W 0 (H * 0.85) 0.8 3.0)
                  ltac:(place_side). }
    exact (proj2 (Hy _ _ _ _ Hp)).
  - assert (Hy : yields (arc_within 0 W 0 H 0.3 1.2) (fun _ => True)
                   (grain W H)).
    { unfold grain, grain_dot.
      yields_auto (arc_within_random 0 W 0 H 0.3 1.2) ltac:(place_side). }
    exact (proj2 (Hy _ _ _ _ Hg)).
Qed.

(** X10.  On a canvas at least 120 wide and 146 high, every fern is rooted
    in the band between 120 and 10 rows above the bottom edge, at most 20
    left or right of the canvas, and every floating leaf is anchored at
    least 60 from the left and right edges, between row 80 and 55% of the
    height. *)
Theorem ferns_and_leaves_are_anchored (g : G) :
  (120 <= W)%Z -> (146 <= H)%Z ->
  exists g1 t1 g2 t2,
    fern_carpet W H g = Returned tt g1 t1 /\
    Forall (anchor_within (-20) (W + 20) (H - 120) (H - 10)) t1 /\
    floating_leaves W H g = Returned tt g2 t2 /\
    Forall (anchor_within 60 (W - 60) 80 (H * 0.55)) t2.
Proof.
  intros HW HH.
  assert (HWq : 120 <= inject_Z W)
    by (change 120 with (inject_Z 120); now rewrite <- Zle_Qle).
  assert (HHq : 146 <= inject_Z H)
    by (change 146 with (inject_Z 146); now rewrite <- Zle_Qle).
  assert (E1 : inject_Z (W + 20) == inject_Z W + 20)
    by (rewrite inject_Z_plus; reflexivity).
  assert (E2 : inject_Z (W - 60) == inject_Z W - 60)
    by (unfold Z.sub; rewrite inject_Z_plus; reflexivity).
  destruct (total_fern_carpet W H g) as ([] & g1 & t1 & Hf & _).
  destruct (total_floating_leaves W H g) as ([] & g2 & t2 & Hl & _).
  exists g1, t1, g2, t2.
  split; [exact Hf |]. split; [| split; [exact Hl |]].
  - assert (Hy : yields (anchor_within (-20) (W + 20) (H - 120) (H - 10))
                   (fun _ => True) (fern_carpet W H)).
    { unfold fern_carpet, fern.
      yields_auto (anchor_within_random (-20) (W + 20) (H - 120) (H - 10))
                  ltac:(place_side). }
    exact (proj2 (Hy _ _ _ _ Hf)).
  - assert (Hy : yields (anchor_within 60 (W - 60) 80 (H * 0.55))
                   (fun _ => True) (floating_leaves W H)).
    { unfold floating_leaves, floating_leaf.
      yields_auto (anchor_within_random 60 (W - 60) 80 (H * 0.55))
                  ltac:(place_side). }
    exact (proj2 (Hy _ _ _ _ Hl)).
Qed.

End Placement.

Lemma dots_lie_on_the_canvas_witness :
  exists g1 t1 g2 t2,
    pollen (G := Z) 1800 1200 (lcg_seed 42) = Returned tt g1 t1 /\
    Forall (arc_within 0 1800%Z 0 (1200%Z * 0.85) 0.8 3.0) t1 /\
    grain (G := Z) 1800 1200 (lcg_seed 42) = Returned tt g2 t2 /\
    Forall (arc_within 0 1800%Z 0 1200%Z 0.3 1.2) t2.
Proof.
  apply (dots_lie_on_the_canvas (G := Z) 1800 1200 (lcg_seed 42)); lia.
Defined.

Lemma ferns_and_leaves_are_anchored_witness :
  exists g1 t1 g2 t2,
    fern_carpet (G := Z) 1800 1200 (lcg_seed 42) = Returned tt g1 t1 /\
    Forall (anchor_within (-20) (1800%Z + 20) (1200%Z - 120) (1200%Z - 10)) t1 /\
    floating_leaves (G := Z) 1800 1200 (lcg_seed 42) = Returned tt g2 t2 /\
    Forall (anchor_within 60 (1800%Z - 60) 80 (1200%Z * 0.55)) t2.
Proof.
  apply (ferns_and_leaves_are_anchored (G := Z) 1800 1200 (lcg_seed 42)); lia.
Defined.

(** ** How much of the generator a stage uses *)

Section Consumes.
Context {G : Type} {RS : RandomSource G} {ML : MathLib}.
#[local] Abbreviation consumes := (consumes (G := G)).

Lemma skip_add a b (g : G) : skip (a + b) g = skip b (skip a g).
Proof. revert g. induction a as [| a IH]; intros g; [reflexivity | apply IH]. Qed.

Lemma consumes_eq {A} n n' (m : M G A) : consumes n m -> n = n' -> consumes n' m.
Proof. now intros Hm <-. Qed.

Lemma consumes_ret {A} (a : A) : consumes 0 (ret a).
Proof. intros g. now exists a, []. Qed.

Lemma consumes_call c op : consumes 0 (call c op).
Proof. intros g. now exists tt, [Draw c op]. Qed.

Lemma consumes_random_uniform a b : consumes 1 (random_uniform a b).
Proof.
  intros g. unfold random_uniform. cbn [skip].
  destruct (random g) as [r g']. eexists _, _. reflexivity.
Qed.

Lemma consumes_bind {A B} n1 n2 (m : M G A) (k : A -> M G B) :
  consumes n1 m -> (forall a, consumes n2 (k a)) -> consumes (n1 + n2) (bind m k).
Proof.
  intros Hm Hk g. destruct (Hm g) as (a & t1 & H1).
  destruct (Hk a (skip n1 g)) as (b & t2 & H2).
  exists b, (t1 ++ t2). unfold bind. rewrite H1, H2, skip_add. reflexivity.
Qed.

Lemma consumes_for_each {A} (n : A -> nat) (l : list A) (body : A -> M G unit) :
  (forall x, consumes (n x) (body x)) ->
  consumes (list_sum (map n l)) (for_each l body).
Proof.
  intros Hb. induction l as [| x l IH]; cbn [for_each map list_sum].
  - apply consumes_ret.
  - apply consumes_bind; [apply Hb | intros _; exact IH].
Qed.

Lemma consumes_for_each_none {A} n (l : list A) (body : A -> M G unit) :
  (forall x, consumes n (body x)) -> n = 0%nat -> consumes 0 (for_each l body).
Proof.
  intros Hb ->.
  eapply consumes_eq; [apply (consumes_for_each (fun _ => 0%nat)); exact Hb |].
  induction l as [| x l IH]; [reflexivity | exact IH].
Qed.

End Consumes.

Ltac consumes_step :=
  first
    [ apply consumes_ret
    | apply consumes_call
    | apply consumes_random_uniform
    | eapply consumes_for_each_none; [intros |]
    | eapply consumes_bind; [| intros ]
    | match goal with
      | |- consumes _ (if ?b then _ else _) => destruct b
      | |- consumes _ (match ?x with _ => _ end) => destruct x
      end ].

Ltac consumes_auto n :=
  eapply (consumes_eq _ n); repeat consumes_step; reflexivity.

Section DrawCounts.
Context {G : Type} {RS : RandomSource G} {ML : MathLib}.
Variables W H : Z.

Lemma consumes_fern i : consumes 5 (fern (G := G) W H i).
Proof. unfold fern. consumes_auto 5%nat. Qed.

Lemma consumes_floating_leaf i : consumes 6 (floating_leaf (G := G) W H i).
Proof. unfold floating_leaf. consumes_auto 6%nat. Qed.

Lemma consumes_pollen_grain i :
  consumes (if (i mod 3 =? 0)%Z then 4 else 5) (pollen_grain (G := G) W H i).
Proof.
  unfold pollen_grain. destruct (i mod 3 =? 0)%Z.
  - consumes_auto 4%nat.
  - consumes_auto 5%nat.
Qed.

Lemma consumes_grain_dot i : consumes 4 (grain_dot (G := G) W H i).
Proof. unfold grain_dot. consumes_auto 4%nat. Qed.

(** X11.  The stages that scatter a fixed number of elements use a fixed
    number of values of the generator, whatever the canvas size and whatever
    values come out: 5 per fern (300), 6 per floating leaf (210), 4 for each
    golden pollen grain (every third) and 5 for each green one (560 in all),
    4 per grain dot (12000). *)
Theorem scatter_stages_use_fixed_draws (g : G) :
  exists t1 t2 t3 t4,
    fern_carpet W H g = Returned tt (skip (60 * 5) g) t1 /\
    floating_leaves W H g = Returned tt (skip (35 * 6) g) t2 /\
    pollen W H g = Returned tt (skip (40 * 4 + 80 * 5) g) t3 /\
    grain W H g = Returned tt (skip (3000 * 4) g) t4.
Proof.
  assert (H1 : consumes (60 * 5) (fern_carpet (G := G) W H)).
  { eapply consumes_eq; [apply consumes_for_each, consumes_fern |].
    vm_compute. reflexivity. }
  assert (H2 : consumes (35 * 6) (floating_leaves (G := G) W H)).
  { eapply consumes_eq; [apply consumes_for_each, consumes_floating_leaf |].
    vm_compute. reflexivity. }
  assert (H3 : consumes (40 * 4 + 80 * 5) (pollen (G := G) W H)).
  { eapply consumes_eq; [apply consumes_for_each, consumes_pollen_grain |].
    vm_compute. reflexivity. }
  assert (H4 : consumes (3000 * 4) (grain (G := G) W H)).
  { eapply consumes_eq; [apply consumes_for_each, consumes_grain_dot |].
    vm_compute. reflexivity. }
  destruct (H1 g) as ([] & t1 & E1). destruct (H2 g) as ([] & t2 & E2).
  destruct (H3 g) as ([] & t3 & E3). destruct (H4 g) as ([] & t4 & E4).
  exists t1, t2, t3, t4. auto.
Qed.

End DrawCounts.

Section BuildingDraws.
Context {G : Type} {RS : RandomSource G} {ML : MathLib}.
Variable H : Z.

(** X16.  Rendering is part of the random sequence, but not for every
    variant: drawing a block, a dome or a spire takes nothing from the
    generator, and drawing an antenna takes exactly one value (the height of
    its dish); only towers and megablocks, with their window flips, use an
    amount that depends on the values drawn. *)
Theorem plain_buildings_draw_no_random_value
    (target : SurfaceId) (alpha_mult offset_x offset_y bx bw bh : Q) (g : G) :
  (exists tr,
     draw_building H target alpha_mult offset_x offset_y (bx, bw, bh, block) g
       = Returned tt g tr) /\
  (exists tr,
     draw_building H target alpha_mult offset_x offset_y (bx, bw, bh, dome) g
       = Returned tt g tr) /\
  (exists tr,
     draw_building H target alpha_mult offset_x offset_y (bx, bw, bh, spire) g
       = Returned tt g tr) /\
  (exists tr,
     draw_building H target alpha_mult offset_x offset_y (bx, bw, bh, antenna) g
       = Returned tt (skip 1 g) tr).
Proof.
  assert (Hb : consumes 0
            (draw_building (G := G) H target alpha_mult offset_x offset_y
               (bx, bw, bh, block))).
  { unfold draw_building, draw_block. consumes_auto 0%nat. }
  assert (Hd : consumes 0
            (draw_building (G := G) H target alpha_mult offset_x offset_y
               (bx, bw, bh, dome))).
  { unfold draw_building, draw_dome. consumes_auto 0%nat. }
  assert (Hs : consumes 0
            (draw_building (G := G) H target alpha_mult offset_x offset_y
               (bx, bw, bh, spire))).
  { unfold draw_building, draw_spire. consumes_auto 0%nat. }
  assert (Ha : consumes 1
            (draw_building (G := G) H target alpha_mult offset_x offset_y
               (bx, bw, bh, antenna))).
  { unfold draw_building, draw_antenna. consumes_auto 1%nat. }
  destruct (Hb g) as ([] & t1 & E1). destruct (Hd g) as ([] & t2 & E2).
  destruct (Hs g) as ([] & t3 & E3). destruct (Ha g) as ([] & t4 & E4).
  repeat split; eexists; eassumption.
Qed.

End BuildingDraws.

(** ** The foreground and the generator *)

Section ForegroundDraws.
Context {G : Type} {RS : RandomSource G} {ML : MathLib}.
#[local] Abbreviation consumes := (consumes (G := G)).
Variables W H : Z.
Variable fuel : nat.

Lemma consumes_for_each_in {A} (c : nat) (l : list A) (body : A -> M G unit) :
  (forall x, In x l -> consumes c (body x)) ->
  consumes (c * length l) (for_each l body).
Proof.
  induction l as [| x l IH]; intros Hb; cbn [for_each length].
  - rewrite Nat.mul_0_r. apply consumes_ret.
  - eapply consumes_eq.
    + apply consumes_bind; [apply Hb; now left | intros _; apply IH].
      intros y Hy. apply Hb. now right.
    + lia.
Qed.

Lemma consumes_point_at points i :
  (0 <= i < len points)%Z -> consumes 0 (point_at points i).
Proof. intros Hi g. exists (pt points i), []. now apply point_at_run. Qed.

Lemma consumes_silent {A B} n (m : M G A) (k : A -> M G B) a :
  (forall g, m g = Returned a g []) -> consumes n (k a) -> consumes n (bind m k).
Proof.
  intros Hm Hk g. destruct (Hk g) as (b & tr & Hrun).
  exists b, tr. unfold bind. now rewrite Hm, Hrun.
Qed.

Lemma consumes_draw_hill h :
  (length (range3 0 (W + 50) 3) < fuel)%nat ->
  consumes (length (range3 0 (W + 50) 3)) (draw_hill (G := G) W H fuel h).
Proof.
  intros Hfuel. destruct h as [[base_y alpha] [[hr hg] hb]]. unfold draw_hill.
  eapply consumes_eq.
  - apply consumes_bind; [apply consumes_call | intros _].
    apply consumes_bind.
    + intros g. destruct (hill_loop_run W base_y fuel 0%Z g Hfuel) as (x' & Hrun).
      eexists _, _. exact Hrun.
    + intros _. eapply (consumes_eq _ 0%nat); repeat consumes_step; reflexivity.
  - lia.
Qed.

Ltac consumes_items :=
  repeat (eapply consumes_bind;
            [first [apply consumes_call | apply consumes_point_at; lia]
            | intros ?]);
  first [apply consumes_call | repeat consumes_step].

Lemma consumes_vine_body points side thickness :
  (2 <= len points)%Z ->
  consumes (2 * length (range3 0 (len points - 1) 18))
           (vine_body (G := G) points side thickness).
Proof.
  intros Hlen. unfold vine_body. eapply consumes_eq.
  - eapply consumes_bind; [| intros _; eapply consumes_bind;
                               [| intros _; eapply consumes_bind; [| intros _]]].
    + unfold vine_stem, rgb.
      repeat (eapply consumes_bind;
                [first [apply consumes_call | apply consumes_point_at; lia]
                | intros ?]).
      eapply consumes_bind; [| intros _; apply consumes_call].
      eapply (consumes_for_each_in 0). intros i Hi.
      apply range3_In in Hi; [| lia].
      destruct (i + 1 <? len points)%Z eqn:Hlt; [| apply consumes_ret].
      apply Z.ltb_lt in Hlt.
      eapply (consumes_eq _ 0%nat); [consumes_items | reflexivity].
    + unfold vine_tendrils, rgb.
      repeat (eapply consumes_bind; [apply consumes_call | intros ?]).
      eapply (consumes_for_each_in 0). intros i Hi.
      apply range3_In in Hi; [| lia].
      eapply (consumes_eq _ 0%nat); [consumes_items | reflexivity].
    + unfold vine_leaves, rgb.
      eapply (consumes_for_each_in 2). intros i Hi.
      apply range3_In in Hi; [| lia].
      eapply (consumes_eq _ 2%nat);
        [ eapply consumes_bind;
            [apply consumes_point_at; lia | intros [px py]; repeat consumes_step]
        | reflexivity ]; try reflexivity.
    + unfold vine_curls, rgb.
      eapply (consumes_for_each_in 0). intros i Hi.
      apply range3_In in Hi; [| lia].
      eapply (consumes_eq _ 0%nat);
        [ eapply consumes_bind;
            [apply consumes_point_at; lia | intros [px py]; repeat consumes_step]
        | reflexivity ]; try reflexivity.
  - lia.
Qed.

Lemma consumes_draw_vine x_base y_start y_end side thickness :
  (vine_length y_start y_end < fuel)%nat ->
  consumes (2 * vine_leaf_count y_start y_end)
           (draw_vine (G := G) fuel x_base y_start y_end side thickness).
Proof.
  intros Hfuel. unfold draw_vine.
  eapply consumes_silent; [intros g; now apply vine_points_run |].
  unfold vine_leaf_count, len. rewrite vine_samples_length.
  destruct (Z.of_nat (vine_length y_start y_end) <? 2)%Z eqn:Hlt.
  - apply consumes_ret.
  - apply Z.ltb_ge in Hlt.
    pose proof (consumes_vine_body
                  (vine_samples (vine_length y_start y_end) x_base side y_start)
                  side thickness) as Hbody.
    unfold len in Hbody. rewrite vine_samples_length in Hbody.
    exact (Hbody Hlt).
Qed.

Lemma hill_samples_le : (length (range3 0 (W + 50) 3) <= Z.to_nat (W + 50))%nat.
Proof.
  unfold range3. rewrite length_map, length_seq.
  destruct (Z_lt_le_dec 0 (W + 50)) as [Hpos | Hneg].
  - apply Z2Nat.inj_le; [apply Z.div_pos; lia | lia |].
    apply Z.div_le_upper_bound; lia.
  - replace (Z.to_nat ((W + 50 - 0 + 3 - 1) / 3)) with 0%nat; [lia |].
    symmetry. apply Z2Nat.nonpos.
    apply Z.lt_succ_r. apply Z.div_lt_upper_bound; lia.
Qed.

Lemma vine_length_le y_start y_end :
  (vine_length y_start y_end <= Z.to_nat (Qceiling (y_end - y_start)))%nat.
Proof.
  unfold vine_length.
  pose proof (third (y_end - y_start)) as E.
  set (q := (y_end - y_start) / 3) in *.
  destruct (Qlt_le_dec 0 (y_end - y_start)) as [Hpos | Hneg].
  - apply Z2Nat.inj_le.
    + change 0%Z with (Qceiling 0). apply Qceiling_resp_le. lra.
    + change 0%Z with (Qceiling 0). apply Qceiling_resp_le. lra.
    + apply Qceiling_resp_le. lra.
  - assert (Hc : (Qceiling q <= 0)%Z).
    { change 0%Z with (Qceiling 0). apply Qceiling_resp_le. lra. }
    lia.
Qed.

Lemma consumes_vines :
  (Z.to_nat H < fuel)%nat ->
  consumes (2 * vine_leaf_count 50 (inject_Z (H - 50)) +
            (2 * vine_leaf_count 200 (inject_Z (H - 100)) +
             (2 * vine_leaf_count 80 (inject_Z (H - 50)) +
              2 * vine_leaf_count 250 (inject_Z (H - 100)))))
           (vines (G := G) W H fuel).
Proof.
  intros Hfuel. unfold vines.
  assert (Hv : forall (y_end : Z) (y_start : Q),
             0 <= y_start -> (y_end <= H)%Z ->
             (vine_length y_start (inject_Z y_end) < fuel)%nat).
  { intros y_end y_start H0 Hle.
    pose proof (vine_length_le y_start (inject_Z y_end)).
    pose proof (vine_fuel H fuel y_end y_start H0 Hfuel Hle). lia. }
  repeat (apply consumes_bind;
            [apply consumes_draw_vine; apply Hv; [lra | lia] | intros _]).
  apply consumes_draw_vine; apply Hv; [lra | lia].
Qed.

(** X17.  The foreground (hills, vines, ferns, ground, panels, ornaments,
    leaves, pollen, frame and grain) takes a number of values from the
    generator that depends on the size of the canvas alone, not on the
    values drawn: one per hill sample, two per vine leaf, and the fixed
    counts of the scatter stages.  Only the city layer, with its window
    flips, uses an amount that depends on what is drawn. *)
Theorem foreground_draws_depend_on_size_only (g : G) :
  (fuel_needed W H <= fuel)%nat ->
  exists tr,
    foreground W H fuel g = Returned tt (skip (foreground_draws W H) g) tr.
Proof.
  intros Hfuel. unfold fuel_needed in Hfuel.
  pose proof hill_samples_le as Hh.
  assert (Hfg : consumes (foreground_draws W H) (foreground (G := G) W H fuel)).
  { unfold foreground. eapply consumes_eq.
    - eapply consumes_bind;
        [apply (consumes_for_each_in (length (range3 0 (W + 50) 3)));
         intros h _; apply consumes_draw_hill; lia | intros _].
      eapply consumes_bind; [apply consumes_vines; lia | intros _].
      eapply consumes_bind;
        [apply (consumes_for_each_in 5); intros i _; apply consumes_fern
        | intros _].
      eapply consumes_bind;
        [unfold ground_gradient; repeat consumes_step; reflexivity | intros _].
      eapply consumes_bind;
        [unfold glass_panels, draw_panel, rgb; repeat consumes_step; reflexivity
        | intros _].
      eapply consumes_bind;
        [unfold corner_ornaments, rgb; repeat consumes_step; reflexivity
        | intros _].
      eapply consumes_bind;
        [apply (consumes_for_each_in 6); intros i _; apply consumes_floating_leaf
        | intros _].
      eapply consumes_bind;
        [apply consumes_for_each, consumes_pollen_grain | intros _].
      eapply consumes_bind;
        [unfold frame, rgb; repeat consumes_step; reflexivity | intros _].
      apply (consumes_for_each_in 4); intros i _; apply consumes_grain_dot.
    - unfold foreground_draws.
      change (list_sum _) with (40 * 4 + 80 * 5)%nat.
      change (length (hills H)) with 4%nat.
      change (length (range 60)) with 60%nat.
      change (length (range 35)) with 35%nat.
      change (length (range 3000)) with 3000%nat.
      lia. }
  destruct (Hfg g) as ([] & tr & Hrun). now exists tr.
Qed.

End ForegroundDraws.

Lemma foreground_draws_depend_on_size_only_witness :
  exists tr,
    foreground (G := Z) 1800 1200 2000 (lcg_seed 42)
    = Returned tt (skip (foreground_draws 1800 1200) (lcg_seed 42)) tr.
Proof.
  apply (foreground_draws_depend_on_size_only (G := Z) 1800 1200 2000
           (lcg_seed 42)).
  unfold fuel_needed. lia.
Defined.

Example foreground_draws_of_the_script :
  foreground_draws 1800 1200
  = (4 * 617 + 2 * (21 + 17 + 20 + 16) + (300 + 210 + 560 + 3000 * 4))%nat.
Proof. vm_compute. reflexivity. Qed.

(** ** Blocks *)





Section Blocks.
Context {G : Type} {RS : RandomSource G} {ML : MathLib}.
Variables W H : Z.






End Blocks.


(** ** The sky, everywhere *)

Lemma lerp_between (s1 s2 : ColorStop) (t : Q) :
  stop_offset s1 < t -> t < stop_offset s2 ->
  exists k, 0 <= k /\ k <= 1 /\
    lerp s1 s2 t =
    (stop_r s1 + (stop_r s2 - stop_r s1) * k,
     stop_g s1 + (stop_g s2 - stop_g s1) * k,
     stop_b s1 + (stop_b s2 - stop_b s1) * k,
     stop_a s1 + (stop_a s2 - stop_a s1) * k).
Proof.
  intros H1 H2.
  exists ((t - stop_offset s1) / (stop_offset s2 - stop_offset s1)).
  split; [| split; [| reflexivity]].
  - apply Qle_shift_div_l; lra.
  - apply Qle_shift_div_r; lra.
Qed.

Lemma sky_gradient_colour (t : Q) : sky_colour (gradient_at sky_stops t).
Proof.
  unfold sky_stops. cbn [gradient_at stop_offset].
  repeat match goal with
         | |- context [?a <? ?b] =>
             let Hc := fresh "Hc" in
             destruct (a <? b) eqn:Hc;
             [apply Qltb_lt in Hc | apply Qltb_ge in Hc]
         | |- context [Qle_bool ?a ?b] =>
             let Hc := fresh "Hc" in
             destruct (Qle_bool a b) eqn:Hc;
             [apply Qle_bool_iff in Hc
             | assert (b < a)
                 by (apply Qnot_le_lt; intros Hle;
                     apply Qle_bool_iff in Hle; congruence);
               clear Hc]
         end;
    try (unfold sky_colour, stop_color; cbn [stop_r stop_g stop_b stop_a];
         repeat split; lra);
    match goal with
    | |- sky_colour (lerp ?s1 ?s2 t) =>
        destruct (lerp_between s1 s2 t) as (k & Hk0 & Hk1 & ->);
        [cbn [stop_offset]; lra | cbn [stop_offset]; lra |];
        unfold sky_colour; cbn [stop_r stop_g stop_b stop_a];
        repeat split; lra
    end.
Qed.

Section SkyEverywhere.
Context {G : Type} {RS : RandomSource G} {ML : MathLib}.

(** X18.  After the sky stage every pixel of the canvas, not only its top
    and bottom rows, is opaque and has each channel between its value at the
    top stop and its value at the bottom stop of the gradient: the sky
    leaves no transparent or out-of-range pixel, on a canvas of any size. *)
Theorem sky_is_opaque_everywhere
    (W H x y : Z) (g : G) (fs : gmap string File) :
  (0 <= x < W)%Z -> (0 <= y < H)%Z ->
  exists w img c,
    exec (initial_world fs)
         (CreateSurface Main W H :: trace_of (sky_gradient H g)) = (w, None) /\
    image_of w Main = Some img /\
    pixel img x y = Some c /\
    sky_colour c.
Proof.
  intros Hx Hy.
  eexists _, _, _. split; [reflexivity |]. split; [reflexivity |].
  cbv [pixel picture put_mark with_ctx blank set_source with_gs mark_of
       cv_ctx cv_width cv_height cv_marks cx_gs cx_path cx_saved
       gs_source gs_ctm gs_line_width gs_line_cap
       initial_context initial_gstate app].
  replace ((0 <=? x) && (x <? W) && (0 <=? y) && (y <? H))%Z with true
    by (symmetry; rewrite !andb_true_iff, !Z.leb_le, !Z.ltb_lt; lia).
  cbv [fold_left mark_pixel source_at option_map add_color_stop_rgba app].
  split; [reflexivity |].
  pose proof (sky_gradient_colour
                (linear_t 0 0 0 (inject_Z H) (inject_Z x + 0.5) (inject_Z y + 0.5)))
    as Hc.
  unfold sky_stops in Hc.
  destruct (gradient_at _ _) as [[[r g0] b] a].
  unfold sky_colour in *. cbn [over premultiply].
  destruct Hc as ((Hr0 & Hr1) & (Hg0 & Hg1) & (Hb0 & Hb1) & Ha).
  assert (Hra : r * a == r) by (rewrite Ha; ring).
  assert (Hga : g0 * a == g0) by (rewrite Ha; ring).
  assert (Hba : b * a == b) by (rewrite Ha; ring).
  repeat split; lra.
Qed.

End SkyEverywhere.

Lemma sky_is_opaque_everywhere_witness :
  exists w img c,
    exec (initial_world ∅)
         (CreateSurface Main 100 100
            :: trace_of (sky_gradient (G := Z) 100 (lcg_seed 42))) = (w, None) /\
    image_of w Main = Some img /\
    pixel img 37 50 = Some c /\
    sky_colour c.
Proof.
  apply (sky_is_opaque_everywhere (G := Z) 100 100 37 50 (lcg_seed 42) ∅); lia.
Defined.

(** ** Bands and frame *)

Ltac band_side :=
  first
    [ exact I
    | cbn [rectangle_within]; unfold horizon_y;
      repeat match goal with |- _ /\ _ => split end;
      lra ].

Section Bands.
Context {G : Type} {RS : RandomSource G} {ML : MathLib}.
#[local] Abbreviation yields := (yields (G := G)).
Variables W H : Z.

(** X19.  On a canvas at least 76 wide and 700 high the three stages that
    draw full rectangles on the main context keep them on the canvas: the
    haze band (400 rows from 350 above the horizon), the ground band (the
    bottom 80 rows) and the two frame rectangles (30 and 38 inside the
    edges). *)
Theorem bands_and_frame_are_on_the_canvas (g : G) :
  (76 <= W)%Z -> (700 <= H)%Z ->
  exists t1 t2 t3,
    haze_overlay W H g = Returned tt g t1 /\
    ground_gradient W H g = Returned tt g t2 /\
    frame W H g = Returned tt g t3 /\
    Forall (rectangle_within 0 0 W H) (t1 ++ t2 ++ t3).
Proof.
  intros HW HH.
  assert (HWq : 76 <= inject_Z W)
    by (change 76 with (inject_Z 76); now rewrite <- Zle_Qle).
  assert (HHq : 700 <= inject_Z H)
    by (change 700 with (inject_Z 700); now rewrite <- Zle_Qle).
  assert (E1 : inject_Z (H - 80) == inject_Z H - 80)
    by (unfold Z.sub; rewrite inject_Z_plus; reflexivity).
  assert (E2 : inject_Z (W - 2 * 30) == inject_Z W - 60)
    by (unfold Z.sub; rewrite inject_Z_plus; reflexivity).
  assert (E3 : inject_Z (H - 2 * 30) == inject_Z H - 60)
    by (unfold Z.sub; rewrite inject_Z_plus; reflexivity).
  assert (E4 : inject_Z (W - 2 * (30 + 8)) == inject_Z W - 76)
    by (unfold Z.sub; rewrite inject_Z_plus; reflexivity).
  assert (E5 : inject_Z (H - 2 * (30 + 8)) == inject_Z H - 76)
    by (unfold Z.sub; rewrite inject_Z_plus; reflexivity).
  eexists _, _, _.
  split; [reflexivity |]. split; [reflexivity |]. split; [reflexivity |].
  cbn [app]. unfold add_color_stop_rgba.
  change (inject_Z 30) with 30. change (inject_Z (30 + 8)) with 38.
  repeat constructor; band_side.
Qed.

End Bands.

Lemma bands_and_frame_are_on_the_canvas_witness :
  exists t1 t2 t3,
    haze_overlay (G := Z) 1800 1200 0%Z = Returned tt 0%Z t1 /\
    ground_gradient (G := Z) 1800 1200 0%Z = Returned tt 0%Z t2 /\
    frame (G := Z) 1800 1200 0%Z = Returned tt 0%Z t3 /\
    Forall (rectangle_within 0 0 1800%Z 1200%Z) (t1 ++ t2 ++ t3).
Proof.
  apply (bands_and_frame_are_on_the_canvas (G := Z) 1800 1200 0%Z); lia.
Defined.

(** ** Files *)

(** A call on a context only ever adds marks to its surface and keeps its
    size. *)
Lemma exec_op_grows lookup cv op cv' :
  exec_op lookup cv op = inr cv' ->
  cv_width cv' = cv_width cv /\ cv_height cv' = cv_height cv /\
  exists extra, cv_marks cv' = cv_marks cv ++ extra.
Proof.
  destruct op; cbn [exec_op];
    try (intros [= <-]; repeat split;
         first [ exists []; cbn; now rewrite app_nil_r
               | eexists; reflexivity ]).
  - destruct (lookup s); [| discriminate].
    intros [= <-]. repeat split. exists []. cbn. now rewrite app_nil_r.
  - destruct (cx_saved (cv_ctx cv)); [discriminate |].
    intros [= <-]. repeat split. exists []. cbn. now rewrite app_nil_r.
Qed.

Lemma draw_ops_grows lookup ops : forall cv cv',
  draw_ops lookup cv ops = inr cv' ->
  cv_width cv' = cv_width cv /\ cv_height cv' = cv_height cv /\
  exists extra, cv_marks cv' = cv_marks cv ++ extra.
Proof.
  induction ops as [| op ops IH]; intros cv cv'; cbn [draw_ops].
  - intros [= <-]. repeat split. exists []. now rewrite app_nil_r.
  - destruct (exec_op lookup cv op) as [f | cv1] eqn:Hop; [discriminate |].
    intros Hrest. apply exec_op_grows in Hop as (Hw & Hh & e1 & He1).
    apply IH in Hrest as (Hw' & Hh' & e2 & He2).
    repeat split; try congruence.
    exists (e1 ++ e2). rewrite He2, He1. now rewrite app_assoc.
Qed.

Section Files.
Context {G : Type} {RS : RandomSource G} {ML : MathLib}.
Variables W H s : Z.
Variable fuel : nat.

(** X13.  A finished run leaves exactly four files, whatever was at their
    paths before, and touches no other path: the unblurred city layer, the
    base layer, the blurred city and the exported image.  The base layer is
    the main surface as it was before the city was composited (sky and sun
    only): the exported image has the marks of the base layer, then the
    blurred city painted with alpha 0.85, then the later stages.  The run
    prints one line and no call fails. *)
Theorem run_leaves_four_files (g : G) (fs : gmap string File) :
  (fuel_needed W H <= fuel)%nat ->
  exists w base city final,
    run_script W H fuel s g fs = (w, None) /\
    image_of w Main = Some final /\
    image_of w City = Some city /\
    wd_fs w =
      <[solarpunk_bg_png := ImageFile final]>
        (<[city_blurred_png := ImageFile (Converted convert_argv city)]>
           (<[base_layer_png := ImageFile base]>
              (<[city_layer_png := ImageFile city]> fs))) /\
    (forall p, ~ In p generator_paths -> wd_fs w !! p = fs !! p) /\
    wd_stdout w = ["PNG saved -> solarpunk_bg.png"%string] /\
    exists base_marks ctm path lw cap later,
      base = Picture W H base_marks /\
      final = Picture W H
                (base_marks ++
                 mkMark (MPaintWithAlpha 0.85)
                        (SrcImage (Converted convert_argv city) 0 0)
                        ctm path lw cap :: later).
Proof.
  intros Hfuel.
  destruct (run_script_result W H s fuel g Hfuel)
    as (st & main1 & city & main3 & _ & Hd1 & _ & Hd3 & _ & _ & Hrun).
  eexists _, (picture main1), (picture city), (picture main3).
  split; [apply Hrun |]. cbn [image_of wd_main wd_city wd_fs wd_stdout option_map].
  repeat match goal with |- _ /\ _ => split end; try reflexivity.
  - intros p Hp. unfold generator_paths in Hp. cbn [In] in Hp.
    rewrite !lookup_insert_ne by (intros <-; tauto). reflexivity.
  - apply draw_ops_grows in Hd1 as (Hw1 & Hh1 & e1 & He1).
    apply draw_ops_grows in Hd3 as (Hw3 & Hh3 & e3 & He3).
    cbn in Hw1, Hh1, He1, Hw3, Hh3, He3.
    eexists _, _, _, _, _, e3. unfold picture.
    rewrite Hw3, Hh3, He3, Hw1, Hh1, He1.
    split; [reflexivity |].
    rewrite <- app_assoc. reflexivity.
Qed.

(** The script's calls up to the blur run on any file system. *)
Lemma exec_before_blur (st : StageTraces) (fs : gmap string File) :
  accepts scope_step 0%nat (t_sky st ++ t_sun st) = Some 0%nat ->
  accepts city_step tt (t_buildings st ++ t_city st) = Some tt ->
  exists base city,
    exec (initial_world fs) (before_blur W H s st) =
    (mkWorld (Some base) (Some city) None
       (<[base_layer_png := ImageFile (picture base)]>
          (<[city_layer_png := ImageFile (picture city)]> fs)) [], None).
Proof.
  intros Hsky Hcity.
  destruct (exec_scoped _ (blank W H) 0%nat 0%nat Hsky (Nat.le_refl _))
    as (main1 & _ & He1 & _).
  destruct (exec_city _ (blank W H) Hcity) as (city & _ & He2 & _).
  exists main1, city.
  set (w0 := mkWorld (Some (blank W H)) None None fs []).
  set (w1 := mkWorld (Some main1) (Some (blank W H)) None fs []).
  unfold before_blur.
  change (exec (initial_world fs) ([RandomSeed s; CreateSurface Main W H] ++ ?t))
    with (exec w0 t).
  rewrite (app_assoc (t_sky st)), exec_app, (He1 w0 eq_refl).
  change (exec (set_main w0 main1) ([CreateSurface City W H] ++ ?t))
    with (exec w1 t).
  rewrite (app_assoc (t_buildings st)), exec_app, (He2 w1 eq_refl).
  reflexivity.
Qed.

(** X14.  When the blur fails ([subprocess.run(..., check=True)] raises,
    with ImageMagick missing or exiting with an error), the run ends at that
    call, the script having no handler.  Of the script's own calls, those
    before it have run: both surfaces exist and the two intermediate layer
    files have been written, but no blurred city has been read back, nothing
    is exported and nothing is printed; what was at the export path before
    the run is still there. *)
Theorem failed_blur_exports_nothing (g : G) (fs : gmap string File) :
  (fuel_needed W H <= fuel)%nat ->
  exists g' tr k base city,
    script W H fuel s g = Returned tt g' tr /\
    nth_error tr k = Some (SubprocessRun convert_argv) /\
    exec (initial_world fs) (abort_at k tr) =
      (mkWorld (Some base) (Some city) None
         (<[base_layer_png := ImageFile (picture base)]>
            (<[city_layer_png := ImageFile (picture city)]> fs)) [], None) /\
    wd_fs (fst (exec (initial_world fs) (abort_at k tr))) !! solarpunk_bg_png
      = fs !! solarpunk_bg_png.
Proof.
  intros Hfuel.
  destruct (script_run W H s fuel g Hfuel)
    as (g' & g1 & g3 & st & Hs & _ & _ & _ & Hsky & Hcity & _).
  destruct (exec_before_blur st fs Hsky Hcity) as (base & city & Hexec).
  exists g', (assemble W H s st), (length (before_blur W H s st)), base, city.
  assert (Hsplit : assemble W H s st =
            before_blur W H s st ++
            SubprocessRun convert_argv ::
            CreateFromPng BlurredCity city_blurred_png ::
            composite_events ++ t_haze st ++ t_foreground st ++ export_events).
  { unfold assemble, before_blur, blur_events.
    rewrite <- !app_assoc. reflexivity. }
  split; [exact Hs |]. rewrite Hsplit. split.
  - rewrite nth_error_app2 by lia. now rewrite Nat.sub_diag.
  - unfold abort_at. rewrite firstn_app, Nat.sub_diag, firstn_all.
    cbn [firstn]. rewrite app_nil_r, Hexec. cbn [fst wd_fs].
    split; [reflexivity |].
    rewrite !lookup_insert_ne by discriminate. reflexivity.
Qed.

(** X15.  The two scripts of the repository do not interfere: the generator
    and the stub writer write different paths, so running them in either
    order leaves the same files, and a second run of the stub writer changes
    nothing. *)
Theorem scripts_commute (g : G) (fs : gmap string File) :
  (fuel_needed W H <= fuel)%nat ->
  wd_fs (fst (run_script W H fuel s g (fst (write_pivx_module fs))))
    = fst (write_pivx_module (wd_fs (fst (run_script W H fuel s g fs)))) /\
  snd (run_script W H fuel s g (fst (write_pivx_module fs))) = None /\
  fst (write_pivx_module (fst (write_pivx_module fs)))
    = fst (write_pivx_module fs).
Proof.
  intros Hfuel.
  destruct (run_script_result W H s fuel g Hfuel)
    as (st & main1 & city & main3 & _ & _ & _ & _ & _ & _ & Hrun).
  rewrite !Hrun. unfold write_pivx_module. cbn [fst snd wd_fs].
  split; [| split; [reflexivity | apply insert_insert_eq]].
  rewrite (insert_insert_ne _ pivx_integration_rs solarpunk_bg_png) by discriminate.
  f_equal.
  rewrite (insert_insert_ne _ pivx_integration_rs city_blurred_png) by discriminate.
  f_equal.
  rewrite (insert_insert_ne _ pivx_integration_rs base_layer_png) by discriminate.
  f_equal.
  rewrite (insert_insert_ne _ pivx_integration_rs city_layer_png) by discriminate.
  reflexivity.
Qed.

End Files.

Lemma run_leaves_four_files_witness :
  exists w base city final,
    run_script (G := Z) 1800 1200 2000 42 0%Z
      {[ solarpunk_bg_png := TextFile "stale" ]} = (w, None) /\
    image_of w Main = Some final /\
    image_of w City = Some city /\
    wd_fs w =
      <[solarpunk_bg_png := ImageFile final]>
        (<[city_blurred_png := ImageFile (Converted convert_argv city)]>
           (<[base_layer_png := ImageFile base]>
              (<[city_layer_png := ImageFile city]>
                 {[ solarpunk_bg_png := TextFile "stale" ]}))) /\
    (forall p, ~ In p generator_paths ->
       wd_fs w !! p
       = ({[ solarpunk_bg_png := TextFile "stale" ]} : gmap string File) !! p) /\
    wd_stdout w = ["PNG saved -> solarpunk_bg.png"%string] /\
    exists base_marks ctm path lw cap later,
      base = Picture 1800 1200 base_marks /\
      final = Picture 1800 1200
                (base_marks ++
                 mkMark (MPaintWithAlpha 0.85)
                        (SrcImage (Converted convert_argv city) 0 0)
                        ctm path lw cap :: later).
Proof.
  apply (run_leaves_four_files (G := Z) 1800 1200 42 2000 0%Z).
  unfold fuel_needed. lia.
Defined.

Lemma failed_blur_exports_nothing_witness :
  exists g' tr k base city,
    script (G := Z) 1800 1200 2000 42 0%Z = Returned tt g' tr /\
    nth_error tr k = Some (SubprocessRun convert_argv) /\
    exec (initial_world {[ solarpunk_bg_png := TextFile "stale" ]})
         (abort_at k tr) =
      (mkWorld (Some base) (Some city) None
         (<[base_layer_png := ImageFile (picture base)]>
            (<[city_layer_png := ImageFile (picture city)]>
               {[ solarpunk_bg_png := TextFile "stale" ]})) [], None) /\
    wd_fs (fst (exec (initial_world {[ solarpunk_bg_png := TextFile "stale" ]})
                  (abort_at k tr))) !! solarpunk_bg_png
      = ({[ solarpunk_bg_png := TextFile "stale" ]} : gmap string File)
          !! solarpunk_bg_png.
Proof.
  apply (failed_blur_exports_nothing (G := Z) 1800 1200 42 2000 0%Z).
  unfold fuel_needed. lia.
Defined.

Lemma scripts_commute_witness :
  wd_fs (fst (run_script (G := Z) 1800 1200 2000 42 0%Z
                (fst (write_pivx_module ∅))))
    = fst (write_pivx_module
             (wd_fs (fst (run_script (G := Z) 1800 1200 2000 42 0%Z ∅)))) /\
  snd (run_script (G := Z) 1800 1200 2000 42 0%Z (fst (write_pivx_module ∅)))
    = None /\
  fst (write_pivx_module (fst (write_pivx_module ∅)))
    = fst (write_pivx_module ∅).
Proof.
  apply (scripts_commute (G := Z) 1800 1200 42 2000 0%Z ∅).
  unfold fuel_needed. lia.
Defined.

(** ** Examples *)

Example int_truncates : int (-2.5) = (-2)%Z /\ int 2.5 = 2%Z.
Proof. split; reflexivity. Qed.

Example range3_steps :
  range3 1 10 4 = [1; 5; 9]%Z /\ range3 5 5 1 = [] /\ range 3 = [0; 1; 2]%Z.
Proof. repeat split. Qed.

Example sky_gradient_calls :
  map (fun e => match e with Draw Main Paint => true | _ => false end)
      (trace_of (sky_gradient (G := Z) 1200 (lcg_seed 42))) = [false; true].
Proof. reflexivity. Qed.

Example skyline_200 :
  length (value_of (generate_buildings (G := Z) 200 300 (lcg_seed 42)) [])
    = 6%nat.
Proof. vm_compute. reflexivity. Qed.

Example stub_prints :
  snd (write_pivx_module ∅) =
  [ "✅ Fichier pivx_integration.rs créé avec succès!";
    "📄 Taille: 16447 caractères";
    "📋 Lignes:  496" ]%string.
Proof. vm_compute. reflexivity. Qed.
